(** * Network metrics over functional-connectivity arrays

    A shallow embedding of the numpy code of

      - [src/participation_coefficient_sign.py]
      - [src/bcn_toolbox_scripts_in_python/gateway_coefficient_sign.py]
      - [src/cole_lab_net_metrics/gvc.py]
      - [src/restPartitionAdjuster.py]
      - [src/cole_lab_net_metrics/deviation.py]

    followed by the properties of these functions.

    The code computes on float64 arrays.  Every function below is written
    once, over an interface [Arith] of the float operations it uses, and the
    interface has two implementations: [binary64], the kernel's IEEE-754
    double precision numbers (the numbers the code runs on), and [xreal],
    exact rationals extended with NaN and the two infinities (the same
    operations without rounding and without a signed zero). *)

From Stdlib Require Import String.
From Stdlib Require Import List Arith Lia Bool ZArith QArith Qcanon Floats.
From Stdlib Require Import Permutation Sorted.
From Stdlib Require Import FunctionalExtensionality.
Import ListNotations.

Set Implicit Arguments.
Local Open Scope nat_scope.
Local Open Scope list_scope.

(* ================================================================== *)
(** * Part I: the embedding                                            *)
(* ================================================================== *)

(** ** Float operations *)

Class Arith (F : Type) : Type := {
  of_nat : nat -> F;          (* int -> float conversion *)
  fnan   : F;                 (* np.nan *)
  fadd   : F -> F -> F;
  fsub   : F -> F -> F;
  fmul   : F -> F -> F;
  fdiv   : F -> F -> F;
  feqb   : F -> F -> bool;    (* == *)
  fltb   : F -> F -> bool;    (* <  *)
  fleb   : F -> F -> bool;    (* <= *)
  fisnan : F -> bool          (* np.isnan *)
}.

(** IEEE-754 binary64, as numpy's float64. *)
#[export] Instance binary64 : Arith float := {|
  of_nat n := PrimFloat.of_uint63 (Uint63.of_Z (Z.of_nat n));
  fnan     := PrimFloat.nan;
  fadd     := PrimFloat.add;
  fsub     := PrimFloat.sub;
  fmul     := PrimFloat.mul;
  fdiv     := PrimFloat.div;
  feqb     := PrimFloat.eqb;
  fltb     := PrimFloat.ltb;
  fleb     := PrimFloat.leb;
  fisnan   := PrimFloat.is_nan
|}.

(** Exact arithmetic: a rational, an infinity with its sign, or NaN. *)
Inductive xreal : Type :=
| XNaN
| XInf (neg : bool)
| XFin (q : Qc).

Definition Qc_eqb (p q : Qc) : bool := Qeq_bool p q.
Definition Qc_leb (p q : Qc) : bool := Qle_bool p q.
Definition Qc_ltb (p q : Qc) : bool := negb (Qle_bool q p).
Definition Qc_of_nat (n : nat) : Qc := Q2Qc (inject_Z (Z.of_nat n)).

Definition xneg (a : xreal) : xreal :=
  match a with
  | XNaN => XNaN
  | XInf s => XInf (negb s)
  | XFin q => XFin (- q)%Qc
  end.

Definition xadd (a b : xreal) : xreal :=
  match a, b with
  | XNaN, _ | _, XNaN => XNaN
  | XInf s, XInf t => if Bool.eqb s t then XInf s else XNaN
  | XInf s, XFin _ => XInf s
  | XFin _, XInf t => XInf t
  | XFin p, XFin q => XFin (p + q)%Qc
  end.

Definition xsub (a b : xreal) : xreal := xadd a (xneg b).

Definition xmul (a b : xreal) : xreal :=
  match a, b with
  | XNaN, _ | _, XNaN => XNaN
  | XInf s, XInf t => XInf (xorb s t)
  | XInf s, XFin q =>
      if Qc_eqb q 0%Qc then XNaN else XInf (xorb s (Qc_ltb q 0%Qc))
  | XFin p, XInf t =>
      if Qc_eqb p 0%Qc then XNaN else XInf (xorb (Qc_ltb p 0%Qc) t)
  | XFin p, XFin q => XFin (p * q)%Qc
  end.

Definition xdiv (a b : xreal) : xreal :=
  match a, b with
  | XNaN, _ | _, XNaN => XNaN
  | XInf _, XInf _ => XNaN
  | XInf s, XFin q => XInf (xorb s (Qc_ltb q 0%Qc))
  | XFin _, XInf _ => XFin 0%Qc
  | XFin p, XFin q =>
      if Qc_eqb q 0%Qc
      then (if Qc_eqb p 0%Qc then XNaN else XInf (Qc_ltb p 0%Qc))
      else XFin (p / q)%Qc
  end.

Definition xeqb (a b : xreal) : bool :=
  match a, b with
  | XFin p, XFin q => Qc_eqb p q
  | XInf s, XInf t => Bool.eqb s t
  | _, _ => false
  end.

Definition xltb (a b : xreal) : bool :=
  match a, b with
  | XNaN, _ | _, XNaN => false
  | XInf s, XInf t => s && negb t
  | XInf s, XFin _ => s
  | XFin _, XInf t => negb t
  | XFin p, XFin q => Qc_ltb p q
  end.

Definition xleb (a b : xreal) : bool :=
  match a, b with
  | XNaN, _ | _, XNaN => false
  | XInf s, XInf t => s || negb t
  | XInf s, XFin _ => s
  | XFin _, XInf t => negb t
  | XFin p, XFin q => Qc_leb p q
  end.

Definition xisnan (a : xreal) : bool :=
  match a with XNaN => true | _ => false end.

#[export] Instance exact : Arith xreal := {|
  of_nat n := XFin (Qc_of_nat n);
  fnan     := XNaN;
  fadd     := xadd;
  fsub     := xsub;
  fmul     := xmul;
  fdiv     := xdiv;
  feqb     := xeqb;
  fltb     := xltb;
  fleb     := xleb;
  fisnan   := xisnan
|}.

(** ** Exceptions *)

Inductive exn : Type := IndexError | ValueError | NameError.

Inductive result (A : Type) : Type :=
| Ok (a : A)
| Raise (e : exn).
Arguments Ok {A} a.
Arguments Raise {A} e.

Definition bind {A B : Type} (c : result A) (k : A -> result B) : result B :=
  match c with
  | Ok a => k a
  | Raise e => Raise e
  end.

Notation "x <- c1 ;; c2" := (bind c1 (fun x => c2))
  (at level 61, c1 at next level, right associativity).
Notation "' p <- c1 ;; c2" := (bind c1 (fun x => let 'p := x in c2))
  (at level 61, p pattern, c1 at next level, right associativity).

(** A Python [for] loop over [xs] that threads an accumulator and stops at the
    first exception. *)
Fixpoint for_ {A S : Type} (xs : list A) (body : A -> S -> result S) (s : S)
  : result S :=
  match xs with
  | [] => Ok s
  | x :: xs' => s' <- body x s ;; for_ xs' body s'
  end.

(** [mapM f xs]: the list of the results, or the first exception. *)
Fixpoint mapM {A B : Type} (f : A -> result B) (xs : list A) : result (list B) :=
  match xs with
  | [] => Ok []
  | x :: xs' => y <- f x ;; ys <- mapM f xs' ;; Ok (y :: ys)
  end.

(** [range n] and [range a b] of Python. *)
Definition range (n : nat) : list nat := seq 0 n.
Definition range2 (a b : nat) : list nat := seq a (b - a).

(** ** numpy on vectors *)

Section Numpy.
Context {F : Type} {AF : Arith F}.

Definition f0 : F := of_nat 0.
Definition f1 : F := of_nat 1.
(** The literals 0.5, 99.9 and 100: a quotient of two small integers is
    rounded once, like the decimal literal. *)
Definition lit_0_5 : F := fdiv (of_nat 1) (of_nat 2).
Definition lit_99_9 : F := fdiv (of_nat 999) (of_nat 10).
Definition lit_100 : F := of_nat 100.
(** [1/0]: the value libm returns at a pole. *)
Definition finf : F := fdiv f1 f0.
Definition fneg_inf : F := fsub f0 finf.

(** A bool used as a number ([True] is 1.0). *)
Definition of_bool (b : bool) : F := if b then f1 else f0.

Definition square (x : F) : F := fmul x x.

(** [np.sum]: the elements added from the left. *)
Definition np_sum (l : list F) : F := fold_left fadd l f0.

(** [np.nansum]: NaN entries are replaced by zero, then summed. *)
Definition nan_to_zero (x : F) : F := if fisnan x then f0 else x.
Definition np_nansum (l : list F) : F := np_sum (map nan_to_zero l).

(** [np.nanmean]: the nansum over the number of entries that are not NaN;
    0/0 = NaN for an empty or all-NaN slice. *)
Definition count_notnan (l : list F) : nat :=
  length (filter (fun x => negb (fisnan x)) l).
Definition np_nanmean (l : list F) : F :=
  fdiv (np_nansum l) (of_nat (count_notnan l)).

(** [np.argmax] / [np.max] of a vector: a left-to-right scan that keeps the
    first maximum; a NaN is maximal and ends the scan.  Both raise on an empty
    vector. *)
Fixpoint argmax_scan (mp : F) (mi : nat) (i : nat) (l : list F) : nat * F :=
  match l with
  | [] => (mi, mp)
  | x :: l' =>
      if fisnan mp then (mi, mp)
      else if fleb x mp then argmax_scan mp mi (S i) l'
      else argmax_scan x i (S i) l'
  end.

Definition np_argmax (l : list F) : result nat :=
  match l with
  | [] => Raise ValueError
  | x :: l' => Ok (fst (argmax_scan x 0 1 l'))
  end.

Definition np_max (l : list F) : result F :=
  match l with
  | [] => Raise ValueError
  | x :: l' => Ok (snd (argmax_scan x 0 1 l'))
  end.

(** [a[start:stop]] on a vector: Python clamps a slice to the vector. *)
Definition slice {A : Type} (start stop : nat) (l : list A) : list A :=
  firstn (stop - start) (skipn start l).

(** Element-wise binary operation on two vectors of one length. *)
Fixpoint zip_with {A B C : Type} (f : A -> B -> C) (l1 : list A) (l2 : list B)
  : list C :=
  match l1, l2 with
  | x :: l1', y :: l2' => f x y :: zip_with f l1' l2'
  | _, _ => []
  end.

(** ** Connectivity arrays

    The first two axes of a connectivity array are both the node axis, so the
    arrays are square by construction; an entry is read by its indices. *)

Record conn2 : Type := {
  nodes2 : nat;
  get2 : nat -> nat -> F
}.

Record conn3 : Type := {
  nodes3 : nat;
  subjs3 : nat;
  get3 : nat -> nat -> nat -> F          (* [node, node, subject] *)
}.

Record conn4 : Type := {
  nodes4 : nat;
  tasks4 : nat;
  subjs4 : nat;
  get4 : nat -> nat -> nat -> nat -> F   (* [node, node, task, subject] *)
}.

(** Row [i] of a two-dimensional array. *)
Definition row2 (a : conn2) (i : nat) : list F :=
  map (fun j => get2 a i j) (range (nodes2 a)).

(** [np.fill_diagonal(a, v)]. *)
Definition fill_diagonal (a : conn2) (v : F) : conn2 :=
  {| nodes2 := nodes2 a;
     get2 := fun i j => if i =? j then v else get2 a i j |}.

(** [np.diag(v)] of an integer vector, and [np.matmul] of a boolean matrix
    with it (booleans count as 0 and 1). *)
Definition np_diag (v : list nat) (k j : nat) : nat :=
  if k =? j then nth k v 0 else 0.

Definition matmul_bool_nat (n : nat) (b : nat -> nat -> bool)
  (m : nat -> nat -> nat) (i j : nat) : nat :=
  fold_left (fun acc k => acc + (if b i k then 1 else 0) * m k j) (range n) 0.

(** ** participation_coefficient_sign.py *)

Definition participation_coefficient_sign
  (fcArray : conn2) (thisNetAffilVec : list nat) (numNets : nat)
  : result (list F) :=
  let nVertsInGraph := nodes2 fcArray in
  let degreeOfROIs := map (fun i => np_nansum (row2 fcArray i)) (range nVertsInGraph) in
  (* matmul needs as many columns as diag(thisNetAffilVec) has rows *)
  if negb (nVertsInGraph =? length thisNetAffilVec) then Raise ValueError else
  let netAffilMask :=
    matmul_bool_nat nVertsInGraph
      (fun i j => negb (feqb (get2 fcArray i j) f0)) (np_diag thisNetAffilVec) in
  let arrHere :=
    fold_left
      (fun arrHere netNum =>
         let vecHere i j :=
           fmul (get2 fcArray i j) (of_bool (netAffilMask i j =? netNum)) in
         let sumVec :=
           map (fun i => np_nansum (map (vecHere i) (range nVertsInGraph)))
               (range nVertsInGraph) in
         let squareVec := map square sumVec in
         zip_with fadd arrHere squareVec)
      (range2 1 (numNets + 1))
      (repeat f0 nVertsInGraph) in
  let partCoef := repeat f1 nVertsInGraph in
  let squareDegrees := map square degreeOfROIs in
  let squareDegrees :=
    map (fun x => if feqb x f0 then fnan else x) squareDegrees in
  let partCoef := zip_with fsub partCoef (zip_with fdiv arrHere squareDegrees) in
  (* NaN scores become 0 *)
  let partCoef := map (fun p => if fisnan p then f0 else p) partCoef in
  (* nodes of zero degree get 0 *)
  let partCoef :=
    zip_with (fun d p => if feqb d f0 then f0 else p) degreeOfROIs partCoef in
  (* scores equal to 0 are set to 0 *)
  let partCoef := map (fun p => if feqb p f0 then f0 else p) partCoef in
  Ok partCoef.



(** ** Index helpers *)

(** [l[i] = v]; the callers check the index first, as numpy does. *)
Fixpoint upd {A : Type} (i : nat) (v : A) (l : list A) : list A :=
  match l, i with
  | [], _ => []
  | _ :: l', 0 => v :: l'
  | x :: l', S i' => x :: upd i' v l'
  end.

(** [a[:, c] = col] on a list of rows, [col] given by row index. *)
Definition set_col {A : Type} (c : nat) (col : nat -> A) (a : list (list A))
  : list (list A) :=
  map (fun ir => upd c (col (fst ir)) (snd ir)) (combine (range (length a)) a).

(** [a[ixs, :] = r] on a list of rows. *)
Definition set_rows {A : Type} (ixs : list nat) (r : list A) (a : list (list A))
  : list (list A) :=
  fold_left (fun a i => upd i r a) ixs a.

(** [np.where(v == k)[0]] on an integer vector. *)
Definition where_eq (v : list nat) (k : nat) : list nat :=
  filter (fun i => nth i v 0 =? k) (range (length v)).

(** ** gateway_coefficient_sign.py *)

(** [centType]: ['node_strength'] binds [centVec]; with ['betweenness'] (or any
    other string) the name stays unbound and its first use raises. *)
Inductive centrality : Type := node_strength | betweenness.

Definition use_centVec (centVec : option (list F)) : result (list F) :=
  match centVec with
  | Some v => Ok v
  | None => Raise NameError
  end.

(** The function writes the zero diagonal into the array object it is given:
    the first component of the result is the caller's array after the call,
    the second what the call returns or raises. *)
Definition gateway_coefficient_sign
  (fcArray : conn2) (thisNetAffilVec : list nat) (numNets : nat)
  (centType : centrality) : conn2 * result (list F) :=
  let nVertsInGraph := nodes2 fcArray in
  let fcArray := fill_diagonal fcArray f0 in
  (fcArray,
   let degreeOfROIs :=
     map (fun i => np_nansum (row2 fcArray i)) (range nVertsInGraph) in
   if negb (nVertsInGraph =? length thisNetAffilVec) then Raise ValueError else
   let netAffilMask :=
     matmul_bool_nat nVertsInGraph
       (fun i j => negb (feqb (get2 fcArray i j) f0)) (np_diag thisNetAffilVec) in
   (* np.nanmax of an empty vector raises *)
   match thisNetAffilVec with
   | [] => Raise ValueError
   | _ :: _ =>
   let nModules := list_max thisNetAffilVec in
   let zeros := repeat (repeat f0 nModules) nVertsInGraph in
   let centVec :=
     match centType with
     | node_strength => Some degreeOfROIs
     | betweenness => None
     end in
   let nets := range2 1 (numNets + 1) in
   mk <- for_ nets
     (fun netNum (mk : F * list (list F)) =>
        let (maxSummedCentrality, ksArr) := mk in
        let thisNetIx := where_eq thisNetAffilVec netNum in
        cv <- use_centVec centVec ;;
        let s := np_nansum (map (fun i => nth i cv f0) thisNetIx) in
        let maxSummedCentrality :=
          if fltb maxSummedCentrality s then s else maxSummedCentrality in
        if nModules <=? netNum - 1 then Raise IndexError else
        let col i :=
          np_nansum
            (map (fun j => fmul (get2 fcArray i j)
                                (of_bool (netAffilMask i j =? netNum)))
                 (range nVertsInGraph)) in
        Ok (maxSummedCentrality, set_col (netNum - 1) col ksArr))
     (f0, zeros) ;;
   let (maxSummedCentrality, ksArr) := mk in
   kjsArr <- for_ nets
     (fun netNum kjsArr =>
        let thisNetIx := where_eq thisNetAffilVec netNum in
        let numNodesInNet := length thisNetIx in
        if 1 <? numNodesInNet then
          let ksHere := map (fun i => nth i ksArr []) thisNetIx in
          let ksSum :=
            map (fun m => np_nansum (map (fun r => nth m r f0) ksHere))
                (range nModules) in
          let kjsArr := set_rows thisNetIx ksSum kjsArr in
          if nModules <=? netNum - 1 then Raise IndexError else
          Ok (fold_left
                (fun a i =>
                   upd i (upd (netNum - 1)
                              (fdiv (nth (netNum - 1) (nth i a []) f0) (of_nat 2))
                              (nth i a [])) a)
                thisNetIx kjsArr)
        else Ok kjsArr)
     zeros ;;
   csArr <- for_ (range nVertsInGraph)
     (fun nodeNum csArr =>
        if fltb f0 (nth nodeNum degreeOfROIs f0) then
          for_ nets
            (fun netNum csArr =>
               let fcNeighbors :=
                 map (fun i => get2 fcArray i nodeNum) (range nVertsInGraph) in
               let fcNeighbors_Binary := map (fun x => fltb f0 x) fcNeighbors in
               let netAffilsAdj :=
                 zip_with (fun a (b : bool) => a * (if b then 1 else 0))
                          thisNetAffilVec fcNeighbors_Binary in
               let netIxsHereAdj := where_eq netAffilsAdj netNum in
               cv <- use_centVec centVec ;;
               let centHere := map (fun i => nth i cv f0) netIxsHereAdj in
               if nModules <=? netNum - 1 then Raise IndexError else
               Ok (upd nodeNum
                       (upd (netNum - 1) (np_nansum centHere) (nth nodeNum csArr []))
                       csArr))
            csArr
        else Ok csArr)
     zeros ;;
   let ksNormed := zip_with (zip_with fdiv) ksArr kjsArr in
   let ksNormed := map (map (fun x => if fisnan x then f0 else x)) ksNormed in
   let csNormed := map (map (fun x => fdiv x maxSummedCentrality)) csArr in
   let gsTotal :=
     zip_with (zip_with (fun k c => square (fsub f1 (fmul k c))))
              ksNormed csNormed in
   let ksArr_Squared := map (map square) ksArr in
   let degreeOfROIs_Squared := map square degreeOfROIs in
   let gatewayCoef :=
     zip_with
       (fun (kd : list F * F) gs =>
          fsub f1 (np_nansum
                     (zip_with fmul (map (fun k => fdiv k (snd kd)) (fst kd)) gs)))
       (combine ksArr_Squared degreeOfROIs_Squared) gsTotal in
   let gatewayCoef := map (fun g => if fisnan g then f0 else g) gatewayCoef in
   let gatewayCoef := map (fun g => if feqb g f0 then f0 else g) gatewayCoef in
   Ok gatewayCoef
   end).

(** ** gvc.py *)

(** [np.sqrt] is not one of the operations of [Arith]; the function takes
    it as an argument. *)
Variable np_sqrt : F -> F.

(** [np.nanstd] along an axis: the square root of [np.nanvar] (ddof = 0). *)
Definition np_nanvar (l : list F) : F :=
  let cnt := of_nat (count_notnan l) in
  let avg := fdiv (np_nansum l) cnt in
  let arr := map (fun x => if fisnan x then f0 else fsub x avg) l in
  fdiv (np_sum (map square arr)) cnt.

Definition np_nanstd (l : list F) : F := np_sqrt (np_nanvar l).

(** [np.fill_diagonal(fcArray[:,:,:,subjNum][:,:,taskNum], v)]: both slices are
    views, so the diagonal is written into [fcArray] itself. *)
Definition fill_diagonal_view (a : conn4) (taskNum subjNum : nat) (v : F) : conn4 :=
  {| nodes4 := nodes4 a;
     tasks4 := tasks4 a;
     subjs4 := subjs4 a;
     get4 := fun i j t s =>
       if (i =? j) && (t =? taskNum) && (s =? subjNum) then v
       else get4 a i j t s |}.

(** As for the gateway coefficient, the first component is the caller's array
    after the call. *)
Definition gvc (fcArray : conn4) : conn4 * list (list F) :=
  let nParcels := nodes4 fcArray in
  let numTasks := tasks4 fcArray in
  let numSubjs := subjs4 fcArray in
  let gvcNodesSubjs := repeat (repeat f0 numSubjs) nParcels in
  let tempSubj : nat -> nat -> nat -> F := fun _ _ _ => f0 in
  let '(fcArray, _, gvcNodesSubjs) :=
    fold_left
      (fun (st : conn4 * (nat -> nat -> nat -> F) * list (list F)) subjNum =>
         let '(fcArray, tempSubj, gvcNodesSubjs) := st in
         let (fcArray, tempSubj) :=
           fold_left
             (fun (st : conn4 * (nat -> nat -> nat -> F)) taskNum =>
                let (fcArray, tempSubj) := st in
                let fcArray := fill_diagonal_view fcArray taskNum subjNum fnan in
                let thisTask i j := get4 fcArray i j taskNum subjNum in
                (fcArray,
                 fun i j t => if t =? taskNum then thisTask i j else tempSubj i j t))
             (range numTasks) (fcArray, tempSubj) in
         let col i :=
           np_nanmean
             (map (fun j => np_nanstd (map (fun t => tempSubj i j t) (range numTasks)))
                  (range nParcels)) in
         (fcArray, tempSubj, set_col subjNum col gvcNodesSubjs))
      (range numSubjs) (fcArray, tempSubj, gvcNodesSubjs) in
  (fcArray, gvcNodesSubjs).
End Numpy.

(** ** Sorting

    [np.sort] of an integer-valued vector: the sorted values do not depend on
    the algorithm. *)
Fixpoint insert_sorted (x : nat) (l : list nat) : list nat :=
  match l with
  | [] => [x]
  | y :: l' => if x <=? y then x :: y :: l' else y :: insert_sorted x l'
  end.

Fixpoint np_sort (l : list nat) : list nat :=
  match l with
  | [] => []
  | x :: l' => insert_sorted x (np_sort l')
  end.

(** [np.argsort] is called with its default [kind], for which numpy promises
    the indices that sort the vector and no more (the default algorithm is
    documented as not stable).  The functions that call it take it as an
    argument [argsort lt v], [lt] being the order of the element type, and
    the properties that depend on it assume this contract. *)
Definition argsort_t : Type := forall A : Type, (A -> A -> bool) -> list A -> list nat.

Definition strict_weak {A : Type} (lt : A -> A -> bool) : Prop :=
  (forall a b, lt a b = true -> lt b a = false) /\
  (forall a b c, lt b a = false -> lt c b = false -> lt c a = false).

Record argsort_contract (argsort : argsort_t) : Prop := {
  argsort_perm :
    forall (A : Type) (lt : A -> A -> bool) (v : list A),
      Permutation (argsort A lt v) (range (length v));
  argsort_sorted :
    forall (A : Type) (lt : A -> A -> bool) (d : A) (v : list A),
      strict_weak lt ->
      forall i j, i < j < length v ->
        lt (nth (nth j (argsort A lt v) 0) v d)
           (nth (nth i (argsort A lt v) 0) v d) = false
}.

(** Two functions that meet the contract: insertion of the indices from left
    to right, an index going after the entries that are not larger
    ([argsort_stable]: ties keep their order; numpy's default sort is this
    insertion sort on a vector of at most 16 entries), or before the entries
    that are not smaller ([argsort_ties_reversed]). *)
Fixpoint insert_index {A : Type} (before : A -> A -> bool) (x : nat * A)
  (l : list (nat * A)) : list (nat * A) :=
  match l with
  | [] => [x]
  | y :: l' =>
      if before (snd x) (snd y) then x :: y :: l'
      else y :: insert_index before x l'
  end.

Definition insertion_argsort {A : Type} (before : A -> A -> bool) (v : list A)
  : list nat :=
  map fst (fold_left (fun acc x => insert_index before x acc)
                     (combine (range (length v)) v) []).

Definition argsort_stable : argsort_t :=
  fun A lt v => insertion_argsort lt v.

Definition argsort_ties_reversed : argsort_t :=
  fun A lt v => insertion_argsort (fun x y => negb (lt y x)) v.

(** ** restPartitionAdjuster.py *)

(** A row [start, end, size] of [netBoundaries]. *)
Record boundary : Type := {
  b_start : nat;
  b_end : nat;
  b_size : nat
}.

(** [scipy.stats.mode] of one row: the most frequent value and its count, the
    smallest value winning a tie (the candidate values are scanned in
    increasing order and replaced on a strictly larger count). *)
Definition count_eq (k : nat) (l : list nat) : nat :=
  length (filter (fun x => x =? k) l).

Definition stats_mode (row : list nat) : nat * nat :=
  fold_left
    (fun (mc : nat * nat) score =>
       let c := count_eq score row in
       if snd mc <? c then (score, c) else mc)
    (range (S (list_max row))) (0, 0).

Section RestPartitionAdjuster.
Context {F : Type} {AF : Arith F}.

(** [np.arctanh] and [np.tanh].  The values at zero, at the poles and at the
    infinities are fixed by IEEE 754 / C99 Annex F; elsewhere the result is
    the one of the platform's libm, an argument of the model. *)
Variable arctanh_libm : F -> F.
Variable tanh_libm : F -> F.
Variable argsort : argsort_t.

Definition fminus1 : F := fsub f0 f1.

Definition np_arctanh (x : F) : F :=
  if fisnan x then x
  else if feqb x f0 then x
  else if feqb x f1 then finf
  else if feqb x fminus1 then fneg_inf
  else if fltb f1 x || fltb x fminus1 then fnan
  else arctanh_libm x.

Definition np_tanh (x : F) : F :=
  if fisnan x then x
  else if feqb x f0 then x
  else if feqb x finf then f1
  else if feqb x fneg_inf then fminus1
  else tanh_libm x.

(** The order numpy sorts floats by: NaN after every number. *)
Definition np_lt (a b : F) : bool :=
  fltb a b || (fisnan b && negb (fisnan a)).

Record rest_outputs : Type := {
  netBoundariesNew : list boundary;
  nodeOrderNew : list nat;
  restPreferences : list (list nat);    (* [node][subject] *)
  percentAgree : list F;
  restConsensus : list nat;
  nodeIndicesNew : list nat
}.

(** [restPreferences[nodeNum,subjNum]] of the first loop nest. *)
Definition rest_preference (fcArray : conn3) (netBoundaries : list boundary)
  (nodeOrder : list nat) (subjNum nodeNum : nat) : result nat :=
  (* subjSortedCA = fcArray[:,:,subjNum].copy()[nodeOrder,:][:,nodeOrder], NaN
     on the diagonal of the copy; thisNodeVec is its row nodeNum *)
  if length nodeOrder <=? nodeNum then Raise IndexError else
  let thisNodeVec :=
    map (fun b =>
           if nodeNum =? b then fnan
           else get3 fcArray (nth nodeNum nodeOrder 0) (nth b nodeOrder 0) subjNum)
        (range (length nodeOrder)) in
  let tempVec :=
    map (fun netB =>
           let startNode := b_start netB in
           let endNode := b_end netB + 1 in
           np_tanh (np_nanmean (map np_arctanh (slice startNode endNode thisNodeVec))))
        netBoundaries in
  let prefIdx := rev (argsort np_lt tempVec) in
  match prefIdx with
  | [] => Raise IndexError
  | p :: _ => Ok p
  end.

Definition rest_preferences (fcArray : conn3) (netBoundaries : list boundary)
  (nodeOrder : list nat) : result (list (list nat)) :=
  let nParcels := nodes3 fcArray in
  let numSubjs := subjs3 fcArray in
  (* one column per subject, in loop order *)
  cols <- mapM
    (fun subjNum =>
       if negb (forallb (fun k => k <? nParcels) nodeOrder) then Raise IndexError
       else mapM (rest_preference fcArray netBoundaries nodeOrder subjNum)
                 (range nParcels))
    (range numSubjs) ;;
  Ok (map (fun nodeNum => map (fun col => nth nodeNum col 0) cols) (range nParcels)).

(** The loop that fills [percentAgree] (and reads the mode of each node);
    [modes] is what [stats.mode] returned, a mode and its count per node. *)
Definition rest_agreement (nParcels numSubjs : nat) (modes : list (nat * nat))
  : result (list F * list nat) :=
  for_ (range nParcels)
    (fun nodeNum (pr : list F * list nat) =>
       let (percentAgree, restMode) := pr in
       match nth_error modes nodeNum with
       | None => Raise IndexError
       | Some (thisMode, count) =>
           Ok (upd nodeNum (fdiv (of_nat count) (of_nat numSubjs)) percentAgree,
               upd nodeNum thisMode restMode)
       end)
    (repeat f0 nParcels, repeat 0 nParcels).

(** The consensus loop: for each network of the original partition and each
    node of its range. *)
Definition rest_consensus (netBoundaries : list boundary)
  (percentAgree : list F) (restMode : list nat) (nParcels : nat)
  : result (list nat) :=
  for_ (combine (range (length netBoundaries)) netBoundaries)
    (fun (nb : nat * boundary) restConsensus =>
       let (netNum, netB) := nb in
       let startNode := b_start netB in
       let endNode := b_end netB + 1 in
       for_ (range2 startNode endNode)
         (fun nodeNum restConsensus =>
            match nth_error percentAgree nodeNum with
            | None => Raise IndexError
            | Some thisNode =>
                if fltb thisNode lit_0_5 then Ok (upd nodeNum netNum restConsensus)
                else if fleb lit_0_5 thisNode
                     then Ok (upd nodeNum (nth nodeNum restMode 0) restConsensus)
                     else Ok restConsensus
            end)
         restConsensus)
    (repeat 0 nParcels).

(** The rebuilt boundaries: the first and last position of each network id in
    the sorted assignment; [np.min] of an empty [finder] raises. *)
Definition rebuild_boundaries (numNets : nat) (nodeIndicesNew : list nat)
  : result (list boundary) :=
  mapM (fun netNum =>
          let finder := where_eq nodeIndicesNew netNum in
          match finder with
          | [] => Raise ValueError
          | lo :: _ =>
              let hi := last finder lo in
              let valVec := range2 lo (hi + 1) in
              let sampSize := length valVec in
              Ok {| b_start := lo; b_end := hi; b_size := sampSize |}
          end)
       (range numNets).

Definition restPartitionAdjuster (fcArray : conn3) (netBoundaries : list boundary)
  (nodeOrder : list nat) : result rest_outputs :=
  let nParcels := nodes3 fcArray in
  let numSubjs := subjs3 fcArray in
  let numNets := length netBoundaries in
  restPreferences <- rest_preferences fcArray netBoundaries nodeOrder ;;
  (* stats.mode returns empty arrays for an array without elements *)
  let modes :=
    if nParcels * numSubjs =? 0 then [] else map stats_mode restPreferences in
  pr <- rest_agreement nParcels numSubjs modes ;;
  let (percentAgree, restMode) := pr in
  restConsensus <- rest_consensus netBoundaries percentAgree restMode nParcels ;;
  let nodeIndicesNew := np_sort restConsensus in
  let nodeOrderNew := argsort Nat.ltb restConsensus in
  netBoundariesNew <- rebuild_boundaries numNets nodeIndicesNew ;;
  Ok {| netBoundariesNew := netBoundariesNew;
        nodeOrderNew := nodeOrderNew;
        restPreferences := restPreferences;
        percentAgree := percentAgree;
        restConsensus := restConsensus;
        nodeIndicesNew := nodeIndicesNew |}.

End RestPartitionAdjuster.

(** ** gvc_plus_partition.py *)

Section GvcPlusPartition.
Context {F : Type} {AF : Arith F}.
Variable np_sqrt : F -> F.

(** [a[ixs,:]] on a list of rows: an index past the last row raises. *)
Definition take_rows {A : Type} (ixs : list nat) (a : list (list A))
  : result (list (list A)) :=
  if negb (forallb (fun k => k <? length a) ixs) then Raise IndexError
  else Ok (map (fun k => nth k a []) ixs).

(** The version of [gvc] that also sorts the scores into the partition and
    clusters them; [useRestPartitionAdjuster] carries [netBoundariesNew] and
    [nodeOrderNew] when the flag is set.  The first component is the caller's
    array after the call; the second the three arrays returned,
    [gvcNodesSubjs], [gvcNetsSubjs] and [gvcNodes], or the exception. *)
Definition gvc_plus_partition (fcArray : conn4) (netBoundaries : list boundary)
  (nodeOrder : list nat)
  (useRestPartitionAdjuster : option (list boundary * list nat))
  : conn4 * result (list (list F) * list (list F) * list F) :=
  let boundariesHere :=
    match useRestPartitionAdjuster with
    | Some (netBoundariesNew, _) => netBoundariesNew
    | None => netBoundaries
    end in
  let nParcels := nodes4 fcArray in
  let numTasks := tasks4 fcArray in
  let numSubjs := subjs4 fcArray in
  let gvcNodesSubjs := repeat (repeat f0 numSubjs) nParcels in
  let tempSubj : nat -> nat -> nat -> F := fun _ _ _ => f0 in
  let '(fcArray, _, gvcNodesSubjs) :=
    fold_left
      (fun (st : conn4 * (nat -> nat -> nat -> F) * list (list F)) subjNum =>
         let '(fcArray, tempSubj, gvcNodesSubjs) := st in
         let (fcArray, tempSubj) :=
           fold_left
             (fun (st : conn4 * (nat -> nat -> nat -> F)) taskNum =>
                let (fcArray, tempSubj) := st in
                let fcArray := fill_diagonal_view fcArray taskNum subjNum fnan in
                let thisTask i j := get4 fcArray i j taskNum subjNum in
                (fcArray,
                 fun i j t => if t =? taskNum then thisTask i j else tempSubj i j t))
             (range numTasks) (fcArray, tempSubj) in
         let col i :=
           np_nanmean
             (map (fun j => np_nanstd np_sqrt (map (fun t => tempSubj i j t) (range numTasks)))
                  (range nParcels)) in
         (fcArray, tempSubj, set_col subjNum col gvcNodesSubjs))
      (range numSubjs) (fcArray, tempSubj, gvcNodesSubjs) in
  (fcArray,
   gvcNodesSubjs <- take_rows nodeOrder gvcNodesSubjs ;;
   gvcNodesSubjs <-
     match useRestPartitionAdjuster with
     | Some (_, nodeOrderNew) => take_rows nodeOrderNew gvcNodesSubjs
     | None => Ok gvcNodesSubjs
     end ;;
   let gvcNodes := map np_nanmean gvcNodesSubjs in
   let gvcNetsSubjs :=
     map (fun netB =>
            let startNode := b_start netB in
            let endNode := b_end netB + 1 in
            map (fun subjNum =>
                   let thisSubj := map (fun r => nth subjNum r f0) gvcNodesSubjs in
                   let thisCluster := slice startNode endNode thisSubj in
                   np_nanmean thisCluster)
                (range numSubjs))
         boundariesHere in
   Ok (gvcNodesSubjs, gvcNetsSubjs, gvcNodes)).

End GvcPlusPartition.

(** ** deviation.py *)

Section Deviation.
Context {F : Type} {AF : Arith F}.

(** What the function prints: a fixed progress line, or the line of the
    consistency check,
    ['SUBJ' + str(subjNum) + ', NOI # ' + str(netNum) + ' adds to ' +
     str(fullPercentTest) + '%; not the expected ~100%. Please check.']
    (without the subject in the mean-first mode), kept as its three values. *)
Inductive msg : Type :=
| Progress (text : string)
| NotFullPercent (subj : option nat) (net : nat) (fullPercentTest : F).

(** A computation that prints and may raise: the lines printed so far and the
    value or the exception. *)
Definition M (A : Type) : Type := (list msg * result A)%type.

Definition retM {A : Type} (a : A) : M A := ([], Ok a).

Definition bindM {A B : Type} (c : M A) (k : A -> M B) : M B :=
  match c with
  | (out, Ok a) => let (out', r) := k a in (out ++ out', r)
  | (out, Raise e) => (out, Raise e)
  end.

Definition print (m : msg) : M unit := ([m], Ok tt).
Definition lift {A : Type} (r : result A) : M A := ([], r).

Notation "x <~ c1 ;; c2" := (bindM c1 (fun x => c2))
  (at level 61, c1 at next level, right associativity).
Notation "c1 ;;; c2" := (bindM c1 (fun _ => c2))
  (at level 61, right associativity).

Fixpoint mapMM {A B : Type} (f : A -> M B) (xs : list A) : M (list B) :=
  match xs with
  | [] => retM []
  | x :: xs' => y <~ f x ;; ys <~ mapMM f xs' ;; retM (y :: ys)
  end.

Definition when (b : bool) (c : M unit) : M unit := if b then c else retM tt.

(** The index vector of [a[nodeOrder,:][:,nodeOrder]], followed by
    [[nodeOrderNew,:][:,nodeOrderNew]] when the adjusted partition is used:
    position [a] of the sorted array reads node [ix[a]] of [fcArray]. *)
Definition sort_index (nParcels : nat) (nodeOrder : list nat)
  (nodeOrderNew : option (list nat)) : result (list nat) :=
  if negb (forallb (fun k => k <? nParcels) nodeOrder) then Raise IndexError else
  match nodeOrderNew with
  | None => Ok nodeOrder
  | Some new =>
      if negb (forallb (fun k => k <? length nodeOrder) new) then Raise IndexError
      else Ok (map (fun k => nth k nodeOrder 0) new)
  end.

(** The clustering loops over [nodeNum] and [netNum] for one sorted slice:
    [cell i j] lists the entries of the slice at nodes [i], [j] (one entry in
    the per-subject mode; in the mean-first mode [fcArray[:,:,ruleSet]] keeps
    the subject axis, so the entries of all subjects), and [np.nanmean] takes
    the mean of all entries of [thisCluster]. *)
Definition cluster_slice (nParcels : nat) (boundariesHere : list boundary)
  (ix : list nat) (cell : nat -> nat -> list F) : result (list (list F)) :=
  mapM (fun nodeNum =>
          match nth_error ix nodeNum with
          | None => Raise IndexError
          | Some i =>
              Ok (map (fun netB =>
                         let startNode := b_start netB in
                         let endNode := b_end netB + 1 in
                         let thisCluster :=
                           concat (map (cell i) (slice startNode endNode ix)) in
                         np_nanmean thisCluster)
                      boundariesHere)
          end)
       (range nParcels).

(** [np.max] and [np.argmax] of every node's clustered vector, for one task. *)
Definition preferences (tempTask : list (list F)) : result (list (F * nat)) :=
  mapM (fun thisNodeVec =>
          maxVal <- np_max thisNodeVec ;;
          maxIdx <- np_argmax thisNodeVec ;;
          Ok (maxVal, maxIdx))
       tempTask.

(** [maxMembershipsTF[nodeNum,:,netNum] = (nodePrefIdxs[nodeNum,:]==netNum)*1],
    indexed [node][task][network]. *)
Definition memberships (numNets : nat) (nodePrefIdxs : list (list nat))
  : list (list (list F)) :=
  map (fun thisNodeVec =>
         map (fun idx => map (fun netNum => of_bool (idx =? netNum)) (range numNets))
             thisNodeVec)
      nodePrefIdxs.

(** [netAffinities[nodeNum,netNum] = np.sum(maxMembershipsTF[nodeNum,:,netNum])
    / numTasks]. *)
Definition affinities (numNets numTasks : nat)
  (maxMembershipsTF : list (list (list F))) : list (list F) :=
  map (fun node =>
         map (fun netNum =>
                let thisNodeVec := map (fun task => nth netNum task f0) node in
                let thisNodeSum := np_sum thisNodeVec in
                fdiv thisNodeSum (of_nat numTasks))
             (range numNets))
      maxMembershipsTF.

(** [clusteredAffinities[netNum,:] =
     np.nanmean(netAffinities[startNode:endNode,:], axis=0)]. *)
Definition cluster_affinities (numNets : nat) (boundariesHere : list boundary)
  (netAffinities : list (list F)) : list (list F) :=
  map (fun netB =>
         let startNode := b_start netB in
         let endNode := b_end netB + 1 in
         let thisCluster := slice startNode endNode netAffinities in
         map (fun m => np_nanmean (map (fun r => nth m r f0) thisCluster))
             (range numNets))
      boundariesHere.

(** The sanity check: one line for each row that adds to less than 99.9. *)
Definition sanity_check (subj : option nat) (clusteredAffinities : list (list F))
  : M unit :=
  _ <~ mapMM
    (fun (nr : nat * list F) =>
       let (netNum, thisNet) := nr in
       let fullPercentTest := fmul (np_sum thisNet) lit_100 in
       when (fltb fullPercentTest lit_99_9)
            (print (NotFullPercent subj netNum fullPercentTest)))
    (combine (range (length clusteredAffinities)) clusteredAffinities) ;;
  retM tt.

(** [np.diag] of the clustered affinities and [1 - adherenceRFs]. *)
Definition adherence (numNets : nat) (clusteredAffinities : list (list F)) : list F :=
  map (fun netNum => nth netNum (nth netNum clusteredAffinities []) f0)
      (range numNets).

Definition one_minus (adherenceRFs : list F) : list F :=
  map (fun a => fsub f1 a) adherenceRFs.

(** [a[:, k] = col] for all columns at once: the rows of the array whose
    columns are given. *)
Definition columns_to_rows {A : Type} (d : A) (n : nat) (cols : list (list A))
  : list (list A) :=
  map (fun i => map (fun col => nth i col d) cols) (range n).

(** The six arrays the function returns.  In the mean-first mode they have no
    subject axis; in the per-subject mode the subject axis (the last one of
    the numpy arrays) is the outer list. *)
Record dev_outputs : Type := {
  deviationRFs : list F;                      (* [network] *)
  clusteredAffinities : list (list F);        (* [network][network] *)
  netAffinities : list (list F);              (* [node][network] *)
  nodePrefVals : list (list F);               (* [node][task] *)
  nodePrefIdxs : list (list nat);             (* [node][task] *)
  maxMembershipsTF : list (list (list F))     (* [node][task][network] *)
}.

Inductive dev_result : Type :=
| MeanFirst (o : dev_outputs)
| PerSubject (os : list dev_outputs).

(** The body of [deviation], with the consistency check it runs as its first
    argument.  [useRestPartitionAdjuster] carries [netBoundariesNew] and
    [nodeOrderNew]: [Some] is a call with the flag set and both arrays given,
    [None] a call with the flag left False. *)
Definition deviation_with (check : option nat -> list (list F) -> M unit)
  (fcArray : conn4) (netBoundaries : list boundary)
  (nodeOrder : list nat) (useMeanFirst : bool)
  (useRestPartitionAdjuster : option (list boundary * list nat))
  : M dev_result :=
  let boundariesHere :=
    match useRestPartitionAdjuster with
    | Some (netBoundariesNew, _) => netBoundariesNew
    | None => netBoundaries
    end in
  let nodeOrderNew := option_map snd useRestPartitionAdjuster in
  let task_fc_line :=
    match useRestPartitionAdjuster with
    | Some _ => Progress "Task FC: estimated with combinedFC & nodes sorted/clustered per empirically-adjusted CAB-NP"
    | None => Progress "Task FC: estimated with combinedFC & nodes sorted/clustered per original CAB-NP"
    end in
  let numNets := length boundariesHere in
  let nParcels := nodes4 fcArray in
  let numTasks := tasks4 fcArray in
  let numSubjs := subjs4 fcArray in
  if useMeanFirst then
    print (Progress "Clustering FC values down to the network level (weighted average) --> node x network x task FC matrices...") ;;;
    clusteredTaskFC <~ mapMM
      (fun ruleSet =>
         when (ruleSet =? 0) (print task_fc_line) ;;;
         lift (ix <- sort_index nParcels nodeOrder nodeOrderNew ;;
               cluster_slice nParcels boundariesHere ix
                 (fun i j => map (fun s => get4 fcArray i j ruleSet s) (range numSubjs))))
      (range numTasks) ;;
    print (Progress "Finding max FC values and their indices (e.g., connecting node number) --> node x task preference matrices...") ;;;
    prefs <~ lift (mapM preferences clusteredTaskFC) ;;
    let nodePrefVals := columns_to_rows f0 nParcels (map (map fst) prefs) in
    let nodePrefIdxs := columns_to_rows 0 nParcels (map (map snd) prefs) in
    print (Progress "Iterating over all networks to test if the preference index (ie max from above) is a member of that network --> node x task x network binarized affinity matrices...") ;;;
    let maxMembershipsTF := memberships numNets nodePrefIdxs in
    print (Progress "Finding affinity scores (relative frequencies) for all connecting networks --> node x network x relative frequency NPA matrices...") ;;;
    let netAffinities := affinities numNets numTasks maxMembershipsTF in
    print (Progress "Clustering ROIs into NOIs --> network x network relative frequency NPA matrices...") ;;;
    let clusteredAffinities := cluster_affinities numNets boundariesHere netAffinities in
    print (Progress "Sanity check that all clustered affinities add to 100%...") ;;;
    check None clusteredAffinities ;;;
    print (Progress "Pulling out adherence to pre-defined network partition --> network NPA matrices...") ;;;
    let adherenceRFs := adherence numNets clusteredAffinities in
    print (Progress "Computing deviation (NPD) --> network NPD matrices...") ;;;
    let deviationRFs := one_minus adherenceRFs in
    retM (MeanFirst
            {| deviationRFs := deviationRFs;
               clusteredAffinities := clusteredAffinities;
               netAffinities := netAffinities;
               nodePrefVals := nodePrefVals;
               nodePrefIdxs := nodePrefIdxs;
               maxMembershipsTF := maxMembershipsTF |})
  else
    print (Progress "Clustering FC values down to the network level (weighted average) --> node x network x task x subject FC matrices...") ;;;
    clusteredTaskFC <~ mapMM
      (fun subjNum =>
         mapMM
           (fun taskNum =>
              when ((taskNum =? 0) && (subjNum =? 0)) (print task_fc_line) ;;;
              lift (ix <- sort_index nParcels nodeOrder nodeOrderNew ;;
                    cluster_slice nParcels boundariesHere ix
                      (fun i j => [get4 fcArray i j taskNum subjNum])))
           (range numTasks))
      (range numSubjs) ;;
    print (Progress "Finding max FC values and their indices (e.g., connecting node number) --> node x task x subject preference matrices...") ;;;
    prefs <~ lift (mapM (mapM preferences) clusteredTaskFC) ;;
    let nodePrefVals :=
      map (fun p => columns_to_rows f0 nParcels (map (map fst) p)) prefs in
    let nodePrefIdxs :=
      map (fun p => columns_to_rows 0 nParcels (map (map snd) p)) prefs in
    print (Progress "Iterating over all networks to test if the preference index (ie max from above) is a member of that network --> node x task x network x subject binarized affinity matrices...") ;;;
    let maxMembershipsTF := map (memberships numNets) nodePrefIdxs in
    print (Progress "Finding affinity scores (relative frequencies) for all connecting networks --> node x network x relative frequency NPA matrices...") ;;;
    let netAffinities := map (affinities numNets numTasks) maxMembershipsTF in
    print (Progress "Clustering ROIs into NOIs --> network x network x subject relative frequency NPA matrices...") ;;;
    let clusteredAffinities :=
      map (cluster_affinities numNets boundariesHere) netAffinities in
    print (Progress "Sanity check that all clustered affinities add to 100%...") ;;;
    mapMM (fun (sc : nat * list (list F)) => check (Some (fst sc)) (snd sc))
          (combine (range numSubjs) clusteredAffinities) ;;;
    print (Progress "Pulling out adherence to pre-defined network partition --> network x subject NPA matrices...") ;;;
    let adherenceRFs := map (adherence numNets) clusteredAffinities in
    print (Progress "Computing deviation (NPD) --> network x subject NPD matrices...") ;;;
    let deviationRFs := map one_minus adherenceRFs in
    retM (PerSubject
            (map (fun subjNum =>
                    {| deviationRFs := nth subjNum deviationRFs [];
                       clusteredAffinities := nth subjNum clusteredAffinities [];
                       netAffinities := nth subjNum netAffinities [];
                       nodePrefVals := nth subjNum nodePrefVals [];
                       nodePrefIdxs := nth subjNum nodePrefIdxs [];
                       maxMembershipsTF := nth subjNum maxMembershipsTF [] |})
                 (range numSubjs))).

Definition deviation := deviation_with sanity_check.

(** The same function with the sanity check left out. *)
Definition no_check (subj : option nat) (clusteredAffinities : list (list F))
  : M unit := retM tt.

Definition deviation_without_check := deviation_with no_check.

End Deviation.

(** ** glasser_ordering.py *)

Section GlasserOrdering.
Context {F : Type} {AF : Arith F}.

(** The helper variables the module loads from its data files when it is
    imported, and its constants [nParcels], [numNets] and [numTotal] (360, 12
    and 96854 in the source).  [nodeIndices] holds the network number of
    every node, [nodeOrder] the node order into networks, [leftNodes] and
    [rightNodes] the parcel label of every vertex of a hemisphere (whole
    numbers, 0 for no parcel). *)
Variables (nodeIndices nodeOrder : list nat) (leftNodes rightNodes : list Z).
Variables (nParcels numNets numTotal : nat).

(** [a[ixs]] on a vector. *)
Definition take {A : Type} (d : A) (ixs : list nat) (a : list A)
  : result (list A) :=
  if negb (forallb (fun k => k <? length a) ixs) then Raise IndexError
  else Ok (map (fun k => nth k a d) ixs).

(** [a[ixs] = vals]: the values must be as many as the indices, or a single
    value, which is broadcast. *)
Definition put {A : Type} (ixs : list nat) (vals : list A) (a : list A)
  : result (list A) :=
  if length vals =? length ixs then
    if negb (forallb (fun k => k <? length a) ixs) then Raise IndexError
    else Ok (fold_left (fun a (iv : nat * A) => upd (fst iv) (snd iv) a)
                       (combine ixs vals) a)
  else
    match vals with
    | [v] =>
        if negb (forallb (fun k => k <? length a) ixs) then Raise IndexError
        else Ok (fold_left (fun a i => upd i v a) ixs a)
    | _ => Raise ValueError
    end.

(** [l[i]] for a signed index: a negative index counts from the end. *)
Definition py_index {A : Type} (d : A) (l : list A) (i : Z) : result A :=
  let n := Z.of_nat (length l) in
  if ((0 <=? i) && (i <? n))%Z then Ok (nth (Z.to_nat i) l d)
  else if ((- n <=? i) && (i <? 0))%Z then Ok (nth (Z.to_nat (i + n)) l d)
  else Raise IndexError.

(** [a[i] = v] for an index that must exist. *)
Definition set_at {A : Type} (i : nat) (v : A) (a : list A) : result (list A) :=
  if length a <=? i then Raise IndexError else Ok (upd i v a).

(** The set-up loop: [newOrder]. *)
Definition glasser_new_order : result (list nat) :=
  orderedVec <- take 0 nodeOrder nodeIndices ;;
  for_ (range2 1 (numNets + 1))
    (fun netNum newOrder =>
       let orderedFinder := where_eq orderedVec netNum in
       let refFinder := where_eq nodeIndices netNum in
       put refFinder orderedFinder newOrder)
    (repeat 0 nParcels).

(** One vertex of a hemisphere: label 0 gives 0 (the NaN written first is
    overwritten), another label the value of its parcel;
    [(parcelIx -/+ nParcels/2).astype(int)] truncates towards zero. *)
Definition hemisphere_vertex (vecReOrdered : list F) (plus : bool)
  (parcelIx : Z) (vertNum : nat) (newRegionVec : list F) : result (list F) :=
  if (parcelIx =? 0)%Z then
    newRegionVec <- set_at vertNum fnan newRegionVec ;;
    set_at vertNum f0 newRegionVec
  else
    let twice :=
      if plus then (2 * parcelIx + Z.of_nat nParcels)%Z
      else (2 * parcelIx - Z.of_nat nParcels)%Z in
    let adjIndexHemi := Z.quot twice 2 in
    v <- py_index fnan vecReOrdered (adjIndexHemi - 1)%Z ;;
    set_at vertNum v newRegionVec.

Definition glasser_ordering (dataVectorSorted : list F)
  : result (list F * list F) :=
  newOrder <- glasser_new_order ;;
  vecReOrdered <- take fnan newOrder dataVectorSorted ;;
  let numBalsa := length leftNodes in
  let maxBalsa := numBalsa * 2 in
  let newRegionVec := repeat f0 numTotal in
  newRegionVec <- for_ (range numBalsa)
    (fun vertNum newRegionVec =>
       parcelIx <- py_index 0%Z leftNodes (Z.of_nat vertNum) ;;
       hemisphere_vertex vecReOrdered false parcelIx vertNum newRegionVec)
    newRegionVec ;;
  newRegionVec <- for_ (range2 numBalsa maxBalsa)
    (fun vertNum newRegionVec =>
       let adjIndex := vertNum - numBalsa in
       parcelIx <- py_index 0%Z rightNodes (Z.of_nat adjIndex) ;;
       hemisphere_vertex vecReOrdered true parcelIx vertNum newRegionVec)
    newRegionVec ;;
  let newRegionVec :=
    firstn maxBalsa newRegionVec ++ repeat fnan (length newRegionVec - maxBalsa) in
  let dataVector := vecReOrdered in
  let dataVector_Vertices := newRegionVec in
  Ok (dataVector, dataVector_Vertices).

End GlasserOrdering.

(** ** Arrays written out

    A connectivity array given by nested lists; an index outside the lists
    reads NaN. *)

Definition mk_conn2 {F : Type} {AF : Arith F} (l : list (list F)) : conn2 :=
  {| nodes2 := length l;
     get2 := fun i j => nth j (nth i l []) fnan |}.

Definition mk_conn3 {F : Type} {AF : Arith F} (numSubjs : nat)
  (l : list (list (list F))) : conn3 :=
  {| nodes3 := length l;
     subjs3 := numSubjs;
     get3 := fun i j s => nth s (nth j (nth i l []) []) fnan |}.

Definition mk_conn4 {F : Type} {AF : Arith F} (numTasks numSubjs : nat)
  (l : list (list (list (list F)))) : conn4 :=
  {| nodes4 := length l;
     tasks4 := numTasks;
     subjs4 := numSubjs;
     get4 := fun i j t s => nth s (nth t (nth j (nth i l []) []) []) fnan |}.

Definition mk_boundary (s e n : nat) : boundary :=
  {| b_start := s; b_end := e; b_size := n |}.

(** Two nodes, each a network of its own, one task, one subject; the two
    arrays differ on the diagonal only. *)
Definition two_singletons : list boundary := [mk_boundary 0 0 1; mk_boundary 1 1 1].

Definition dev_diag_one : conn4 (F := float) :=
  mk_conn4 1 1 [[ [[1]]; [[0.5]] ]; [ [[0.5]]; [[1]] ]]%float.
Definition dev_diag_zero : conn4 (F := float) :=
  mk_conn4 1 1 [[ [[0]]; [[0.5]] ]; [ [[0.5]]; [[0]] ]]%float.

Definition pc_diag_one : conn2 (F := float) := mk_conn2 [[1; 1]; [1; 1]]%float.
Definition pc_diag_zero : conn2 (F := float) := mk_conn2 [[0; 1]; [1; 0]]%float.

(** Inputs for the two functions that fill the diagonal. *)
Definition gateway_input : conn2 (F := float) := mk_conn2 [[1; 2]; [3; 4]]%float.
Definition gvc_input : conn4 (F := float) :=
  mk_conn4 2 1 [[ [[1]; [1]]; [[1]; [3]] ]; [ [[2]; [4]]; [[1]; [1]] ]]%float.

(* ================================================================== *)
(** * Part II: properties                                              *)
(* ================================================================== *)

(** ** The diagonal (C1) *)

(** Observations that tell two results apart when their entries are floats. *)
Definition first_score (r : result (list float)) : float :=
  match r with
  | Ok (x :: _) => x
  | _ => PrimFloat.nan
  end.

Definition preferred_networks (r : result (dev_result (F := float)))
  : list (list (list nat)) :=
  match r with
  | Ok (MeanFirst o) => [nodePrefIdxs o]
  | Ok (PerSubject os) => map (fun o => nodePrefIdxs o) os
  | Raise _ => []
  end.

Lemma off_diagonal_dev (i j t s : nat) :
  i <> j -> get4 dev_diag_one i j t s = get4 dev_diag_zero i j t s.
Proof.
  intros Hij.
  destruct i as [|[|i]], j as [|[|j]]; try congruence; reflexivity.
Qed.

Lemma off_diagonal_pc (i j : nat) :
  i <> j -> get2 pc_diag_one i j = get2 pc_diag_zero i j.
Proof.
  intros Hij.
  destruct i as [|[|i]], j as [|[|j]]; try congruence; reflexivity.
Qed.

(** C1 (the code departs from the claim).  [dev_diag_one] and [dev_diag_zero]
    differ on the diagonal only, and so do [pc_diag_one] and [pc_diag_zero];
    yet [deviation] (in both modes) and [participation_coefficient_sign]
    return different outputs on them: with a diagonal of ones each node
    prefers its own network and the participation coefficient is 0.5, with a
    diagonal of zeros each node prefers the other network and the coefficient
    is 0.  Neither function clears the diagonal, which
    [restPartitionAdjuster] and [gateway_coefficient_sign] do. *)
Theorem diagonal_changes_deviation_and_participation :
  (forall i j t s, i <> j -> get4 dev_diag_one i j t s = get4 dev_diag_zero i j t s) /\
  nodes4 dev_diag_one = nodes4 dev_diag_zero /\
  tasks4 dev_diag_one = tasks4 dev_diag_zero /\
  subjs4 dev_diag_one = subjs4 dev_diag_zero /\
  preferred_networks (snd (deviation dev_diag_one two_singletons [0; 1] false None))
    = [[[0]; [1]]] /\
  preferred_networks (snd (deviation dev_diag_zero two_singletons [0; 1] false None))
    = [[[1]; [0]]] /\
  snd (deviation dev_diag_one two_singletons [0; 1] false None)
    <> snd (deviation dev_diag_zero two_singletons [0; 1] false None) /\
  snd (deviation dev_diag_one two_singletons [0; 1] true None)
    <> snd (deviation dev_diag_zero two_singletons [0; 1] true None) /\
  (forall i j, i <> j -> get2 pc_diag_one i j = get2 pc_diag_zero i j) /\
  nodes2 pc_diag_one = nodes2 pc_diag_zero /\
  participation_coefficient_sign pc_diag_one [1; 2] 2 = Ok [0.5; 0.5]%float /\
  participation_coefficient_sign pc_diag_zero [1; 2] 2 = Ok [0; 0]%float /\
  participation_coefficient_sign pc_diag_one [1; 2] 2
    <> participation_coefficient_sign pc_diag_zero [1; 2] 2.
Proof.
  split; [exact off_diagonal_dev|].
  do 3 (split; [reflexivity|]).
  split; [vm_compute; reflexivity|].
  split; [vm_compute; reflexivity|].
  split.
  { intros E. apply (f_equal preferred_networks) in E.
    vm_compute in E. discriminate E. }
  split.
  { intros E. apply (f_equal preferred_networks) in E.
    vm_compute in E. discriminate E. }
  split; [exact off_diagonal_pc|].
  split; [reflexivity|].
  split; [vm_compute; reflexivity|].
  split; [vm_compute; reflexivity|].
  intros E. apply (f_equal (fun r => PrimFloat.eqb (first_score r) 0)) in E.
  vm_compute in E. discriminate E.
Qed.

(** ** The caller's array (C2) *)

(** Whatever the arguments, the caller's array after a call of
    [gateway_coefficient_sign] is the array with its diagonal zeroed. *)
Lemma gateway_store {F : Type} {AF : Arith F} (fcArray : conn2)
  (affil : list nat) (numNets : nat) (centType : centrality) :
  fst (gateway_coefficient_sign fcArray affil numNets centType)
  = fill_diagonal fcArray f0.
Proof. reflexivity. Qed.

(** C2 (the code departs from the claim).  [gateway_coefficient_sign] and
    [gvc] write the diagonal into the array they are given: the entry [0,0] of
    [gateway_input] is 1 before the call and 0 after it (also when the call
    raises), and the entry [0,0,0,0] of [gvc_input] is 1 before the call and
    NaN after it.  [restPartitionAdjuster] fills the diagonal of a copy. *)
Theorem gateway_and_gvc_overwrite_the_argument :
  get2 gateway_input 0 0 = 1%float /\
  get2 (fst (gateway_coefficient_sign gateway_input [1; 2] 2 node_strength)) 0 0
    = 0%float /\
  get2 (fst (gateway_coefficient_sign gateway_input [1; 2] 2 betweenness)) 0 0
    = 0%float /\
  snd (gateway_coefficient_sign gateway_input [1; 2] 2 betweenness)
    = Raise NameError /\
  get4 gvc_input 0 0 0 0 = 1%float /\
  PrimFloat.is_nan (get4 (fst (gvc PrimFloat.sqrt gvc_input)) 0 0 0 0) = true /\
  get4 gvc_input 1 1 1 0 = 1%float /\
  PrimFloat.is_nan (get4 (fst (gvc PrimFloat.sqrt gvc_input)) 1 1 1 0) = true.
Proof.
  repeat split; vm_compute; reflexivity.
Qed.

(** ** The sanity check of [deviation] (C7) *)

Section CheckFacts.
Context {F : Type} {AF : Arith F}.

Definition is_progress (m : msg (F := F)) : bool :=
  match m with
  | Progress _ => true
  | NotFullPercent _ _ _ => false
  end.

(** Two computations agree up to the lines of the check: the same value or
    exception, and the same progress lines. *)
Definition same_but_check {A : Type} (c1 c2 : M (F := F) A) : Prop :=
  snd c1 = snd c2 /\ filter is_progress (fst c1) = fst c2.

Lemma same_but_check_refl {A : Type} (c : M A) :
  Forall (fun m => is_progress m = true) (fst c) -> same_but_check c c.
Proof.
  intros H. split; [reflexivity|].
  induction (fst c) as [|m out IH]; [reflexivity|].
  inversion H as [|? ? Hm Hout]; subst. simpl. rewrite Hm, IH by assumption.
  reflexivity.
Qed.

Lemma same_but_check_bind {A B : Type} (c1 c2 : M A) (k1 k2 : A -> M B) :
  same_but_check c1 c2 ->
  (forall a, same_but_check (k1 a) (k2 a)) ->
  same_but_check (bindM c1 k1) (bindM c2 k2).
Proof.
  destruct c1 as [o1 r1], c2 as [o2 r2]. intros [Hr Ho] Hk.
  simpl in Hr, Ho. subst r2 o2.
  destruct r1 as [a|e]; simpl.
  - specialize (Hk a). destruct (k1 a) as [o1' r1'], (k2 a) as [o2' r2'].
    destruct Hk as [Hr' Ho']. simpl in *. subst.
    split; [reflexivity|]. simpl. apply filter_app.
  - split; reflexivity.
Qed.

Lemma same_but_check_print {A : Type} (text : string) (k1 k2 : unit -> M A) :
  (forall u, same_but_check (k1 u) (k2 u)) ->
  same_but_check (bindM (print (Progress text)) k1)
                 (bindM (print (Progress text)) k2).
Proof.
  intros Hk. apply same_but_check_bind; [|exact Hk].
  apply same_but_check_refl. repeat constructor.
Qed.

Lemma same_but_check_mapMM {A B : Type} (f1 f2 : A -> M B) (xs : list A) :
  (forall x, same_but_check (f1 x) (f2 x)) ->
  same_but_check (mapMM f1 xs) (mapMM f2 xs).
Proof.
  intros Hf. induction xs as [|x xs IH]; simpl.
  - split; reflexivity.
  - apply same_but_check_bind; [apply Hf|]. intros y.
    apply same_but_check_bind; [exact IH|]. intros ys.
    split; reflexivity.
Qed.

Lemma same_but_check_lift {A : Type} (r : result A) :
  same_but_check (lift r) (lift r).
Proof. split; reflexivity. Qed.

Lemma same_but_check_when (b : bool) (text : string) :
  same_but_check (when b (print (Progress text))) (when b (print (Progress text))).
Proof. destruct b; split; reflexivity. Qed.

(** The lines of the check, row by row. *)
Definition check_lines (subj : option nat) (clusteredAffinities : list (list F))
  : list msg :=
  flat_map
    (fun (nr : nat * list F) =>
       let fullPercentTest := fmul (np_sum (snd nr)) lit_100 in
       if fltb fullPercentTest lit_99_9
       then [NotFullPercent subj (fst nr) fullPercentTest]
       else [])
    (combine (range (length clusteredAffinities)) clusteredAffinities).

Lemma mapMM_total {A B : Type} (f : A -> M (F := F) B) (g : A -> B)
  (xs : list A) :
  (forall x, snd (f x) = Ok (g x)) ->
  mapMM f xs = (flat_map (fun x => fst (f x)) xs, Ok (map g xs)).
Proof.
  intros Hf. induction xs as [|x xs IH]; [reflexivity|].
  simpl. rewrite IH. specialize (Hf x).
  destruct (f x) as [out r]. simpl in Hf. subst r. simpl.
  rewrite app_nil_r. reflexivity.
Qed.

Lemma sanity_check_runs (subj : option nat) (ca : list (list F)) :
  sanity_check subj ca = (check_lines subj ca, Ok tt).
Proof.
  unfold sanity_check, check_lines.
  rewrite mapMM_total with (g := fun _ => tt).
  - simpl. rewrite app_nil_r. f_equal.
    apply flat_map_ext. intros [netNum thisNet]. simpl.
    destruct (fltb (fmul (np_sum thisNet) lit_100) lit_99_9); reflexivity.
  - intros [netNum thisNet]. simpl.
    destruct (fltb (fmul (np_sum thisNet) lit_100) lit_99_9); reflexivity.
Qed.

Lemma check_lines_spec (subj : option nat) (ca : list (list F))
  (netNum : nat) (thisNet : list F) :
  nth_error ca netNum = Some thisNet ->
  (fltb (fmul (np_sum thisNet) lit_100) lit_99_9 = true <->
   In (NotFullPercent subj netNum (fmul (np_sum thisNet) lit_100))
      (check_lines subj ca)).
Proof.
  intros Hrow. unfold check_lines. rewrite in_flat_map. split.
  - intros Hlt. exists (netNum, thisNet). split.
    + assert (Hn : netNum < length ca) by (apply nth_error_Some; congruence).
      replace (netNum, thisNet)
        with (nth netNum (combine (range (length ca)) ca) (0, [])).
      * apply nth_In. rewrite length_combine. unfold range.
        rewrite length_seq. lia.
      * rewrite combine_nth by (unfold range; apply length_seq).
        unfold range. rewrite seq_nth by assumption.
        f_equal. apply nth_error_nth. assumption.
    + simpl. rewrite Hlt. left. reflexivity.
  - intros [[k row] [Hin Hline]]. simpl in Hline.
    destruct (fltb (fmul (np_sum row) lit_100) lit_99_9) eqn:Hlt;
      [|contradiction].
    destruct Hline as [Hline|[]]. injection Hline as Hk Hpct. subst k.
    apply In_nth with (d := (0, [])) in Hin.
    destruct Hin as [p [Hp Hnth]].
    rewrite length_combine in Hp. unfold range in Hp, Hnth.
    rewrite length_seq in Hp.
    rewrite combine_nth in Hnth by apply length_seq.
    rewrite seq_nth in Hnth by lia. injection Hnth as Hp' Hrow'.
    simpl in Hp'. subst p.
    apply nth_error_nth with (d := []) in Hrow.
    rewrite Hrow' in Hrow. subst row. exact Hlt.
Qed.

Lemma check_lines_not_progress (subj : option nat) (ca : list (list F)) :
  filter is_progress (check_lines subj ca) = [].
Proof.
  unfold check_lines.
  induction (combine (range (length ca)) ca) as [|[k row] rows IH]; [reflexivity|].
  simpl. rewrite filter_app, IH, app_nil_r.
  destruct (fltb (fmul (np_sum row) lit_100) lit_99_9); reflexivity.
Qed.

Lemma sanity_check_same (subj : option nat) (ca : list (list F)) :
  same_but_check (sanity_check subj ca) (no_check subj ca).
Proof.
  rewrite sanity_check_runs. split; [reflexivity|].
  simpl. apply check_lines_not_progress.
Qed.

Lemma deviation_same_but_check (fcArray : conn4) (netBoundaries : list boundary)
  (nodeOrder : list nat) (useMeanFirst : bool)
  (adj : option (list boundary * list nat)) :
  same_but_check
    (deviation fcArray netBoundaries nodeOrder useMeanFirst adj)
    (deviation_without_check fcArray netBoundaries nodeOrder useMeanFirst adj).
Proof.
  unfold deviation, deviation_without_check, deviation_with.
  destruct useMeanFirst.
  - apply same_but_check_print; intros _.
    apply same_but_check_bind.
    { apply same_but_check_mapMM. intros ruleSet.
      apply same_but_check_bind.
      - destruct adj; apply same_but_check_when.
      - intros _. apply same_but_check_lift. }
    intros clusteredTaskFC.
    apply same_but_check_print; intros _.
    apply same_but_check_bind; [apply same_but_check_lift|]. intros prefs.
    do 4 (apply same_but_check_print; intros _).
    apply same_but_check_bind; [apply sanity_check_same|]. intros _.
    do 2 (apply same_but_check_print; intros _).
    split; reflexivity.
  - apply same_but_check_print; intros _.
    apply same_but_check_bind.
    { apply same_but_check_mapMM. intros subjNum.
      apply same_but_check_mapMM. intros taskNum.
      apply same_but_check_bind.
      - destruct adj; apply same_but_check_when.
      - intros _. apply same_but_check_lift. }
    intros clusteredTaskFC.
    apply same_but_check_print; intros _.
    apply same_but_check_bind; [apply same_but_check_lift|]. intros prefs.
    do 4 (apply same_but_check_print; intros _).
    apply same_but_check_bind.
    { apply same_but_check_mapMM. intros sc. apply sanity_check_same. }
    intros _.
    do 2 (apply same_but_check_print; intros _).
    split; reflexivity.
Qed.


End CheckFacts.

(** ** Loops that return *)

Lemma mapM_Ok {A B : Type} (f : A -> result B) (xs : list A) (ys : list B) :
  mapM f xs = Ok ys -> Forall2 (fun x y => f x = Ok y) xs ys.
Proof.
  revert ys. induction xs as [|x xs IH]; simpl; intros ys H.
  - injection H as <-. constructor.
  - destruct (f x) as [y|e] eqn:Hx; simpl in H; [|discriminate].
    destruct (mapM f xs) as [ys'|e]; simpl in H; [|discriminate].
    injection H as <-. constructor; [assumption|]. apply IH. reflexivity.
Qed.

Lemma mapM_total {A B : Type} (f : A -> result B) (g : A -> B) (xs : list A) :
  (forall x, In x xs -> f x = Ok (g x)) -> mapM f xs = Ok (map g xs).
Proof.
  induction xs as [|x xs IH]; simpl; intros H; [reflexivity|].
  rewrite (H x) by (left; reflexivity). simpl.
  rewrite IH by (intros y Hy; apply H; right; assumption). reflexivity.
Qed.

Lemma Forall2_nth_error_l {A B : Type} (R : A -> B -> Prop) (xs : list A)
  (ys : list B) (i : nat) (y : B) :
  Forall2 R xs ys -> nth_error ys i = Some y ->
  exists x, nth_error xs i = Some x /\ R x y.
Proof.
  intros H. revert i. induction H as [|x0 y0 xs ys Hxy H IH]; intros i Hi.
  - destruct i; discriminate.
  - destruct i as [|i]; simpl in *.
    + injection Hi as <-. exists x0. split; [reflexivity|assumption].
    + apply IH. assumption.
Qed.

Lemma nth_error_range (n i : nat) : i < n -> nth_error (range n) i = Some i.
Proof.
  intros Hi. unfold range. rewrite nth_error_seq.
  destruct (Nat.ltb_spec i n); [reflexivity|lia].
Qed.

Lemma nth_error_range_inv (n i x : nat) :
  nth_error (range n) i = Some x -> x = i /\ i < n.
Proof.
  unfold range. rewrite nth_error_seq.
  destruct (Nat.ltb_spec i n) as [Hlt|Hge]; [|discriminate].
  intros E. injection E as <-.
  split; [reflexivity|assumption].
Qed.

Section MapMM.
Context {F : Type} {AF : Arith F}.

Lemma mapMM_Ok {A B : Type} (f : A -> M (F := F) B) (xs : list A)
  (out : list msg) (ys : list B) :
  mapMM f xs = (out, Ok ys) -> Forall2 (fun x y => snd (f x) = Ok y) xs ys.
Proof.
  revert out ys. induction xs as [|x xs IH]; simpl; intros out ys H.
  - injection H as _ <-. constructor.
  - destruct (f x) as [o1 [y|e]] eqn:Hx; simpl in H; [|discriminate].
    destruct (mapMM f xs) as [o2 [ys'|e]]; simpl in H; [|discriminate].
    injection H as _ <-. constructor.
    + rewrite Hx. reflexivity.
    + apply (IH o2). reflexivity.
Qed.

End MapMM.

(** ** The binarized memberships of [deviation] (C10) *)

Section Memberships.
Context {F : Type} {AF : Arith F}.

(** The network axis of [maxMembershipsTF] at a node and task whose preferred
    network is [idx]. *)
Definition one_hot (numNets idx : nat) : list F :=
  map (fun netNum => of_bool (idx =? netNum)) (range numNets).

Definition boundaries_here (netBoundaries : list boundary)
  (adj : option (list boundary * list nat)) : list boundary :=
  match adj with
  | Some (netBoundariesNew, _) => netBoundariesNew
  | None => netBoundaries
  end.

Lemma argmax_scan_lt (l : list F) (mp : F) (mi i : nat) :
  mi < i -> fst (argmax_scan mp mi i l) < i + length l.
Proof.
  revert mp mi i. induction l as [|x l IH]; simpl; intros mp mi i Hmi; [lia|].
  destruct (fisnan mp); simpl; [lia|].
  destruct (fleb x mp).
  - specialize (IH mp mi (S i)). lia.
  - specialize (IH x i (S i)). lia.
Qed.

Lemma np_argmax_lt (l : list F) (k : nat) : np_argmax l = Ok k -> k < length l.
Proof.
  destruct l as [|x l]; simpl; [discriminate|].
  intros H. injection H as <-.
  pose proof (argmax_scan_lt l x (mi := 0) (i := 1)). lia.
Qed.

Lemma preferences_lt (K : nat) (tempTask : list (list F)) (p : list (F * nat)) :
  preferences tempTask = Ok p ->
  Forall (fun row => length row = K) tempTask ->
  length p = length tempTask /\ Forall (fun vi => snd vi < K) p.
Proof.
  unfold preferences. intros H HK. apply mapM_Ok in H.
  split; [symmetry; eapply Forall2_length; eassumption|].
  induction H as [|row vi rows p Hrow H IH]; [constructor|].
  inversion HK as [|? ? Hlen HK']; subst.
  constructor; [|apply IH; assumption].
  destruct (np_max row) as [v|e]; simpl in Hrow; [|discriminate].
  destruct (np_argmax row) as [k|e] eqn:Hk; simpl in Hrow; [|discriminate].
  injection Hrow as <-. simpl. apply np_argmax_lt. assumption.
Qed.

Lemma cluster_slice_shape (nParcels : nat) (bs : list boundary) (ix : list nat)
  (cell : nat -> nat -> list F) (cl : list (list F)) :
  cluster_slice nParcels bs ix cell = Ok cl ->
  length cl = nParcels /\ Forall (fun row => length row = length bs) cl.
Proof.
  unfold cluster_slice. intros H. apply mapM_Ok in H. split.
  - apply Forall2_length in H. unfold range in H. rewrite length_seq in H.
    symmetry. exact H.
  - induction H as [|nodeNum row ns cl Hrow H IH]; constructor; [|assumption].
    destruct (nth_error ix nodeNum); [|discriminate].
    injection Hrow as <-. apply length_map.
Qed.

Lemma count_eq_cons (k x : nat) (l : list nat) :
  count_eq k (x :: l) = (if x =? k then 1 else 0) + count_eq k l.
Proof. unfold count_eq. simpl. destruct (x =? k); reflexivity. Qed.

Lemma indicator_sum (K x : nat) (s : nat) :
  list_sum (map (fun netNum => if x =? netNum then 1 else 0) (seq s K))
  = if (s <=? x) && (x <? s + K) then 1 else 0.
Proof.
  revert s. induction K as [|K IH]; intros s; simpl.
  - destruct (Nat.leb_spec s x), (Nat.ltb_spec x (s + 0)); simpl; try reflexivity; lia.
  - rewrite IH.
    destruct (Nat.eqb_spec x s), (Nat.leb_spec (S s) x), (Nat.ltb_spec x (S s + K)),
      (Nat.leb_spec s x), (Nat.ltb_spec x (s + S K)); simpl; try reflexivity; lia.
Qed.

(** The counts of the networks in a vector of preferences add up to its
    length. *)
Lemma counts_split (x : nat) (idxs ks : list nat) :
  list_sum (map (fun netNum => count_eq netNum (x :: idxs)) ks)
  = list_sum (map (fun netNum => if x =? netNum then 1 else 0) ks)
    + list_sum (map (fun netNum => count_eq netNum idxs) ks).
Proof.
  induction ks as [|k ks IHk]; simpl; [reflexivity|].
  rewrite IHk, count_eq_cons. lia.
Qed.

Lemma counts_add_up (K : nat) (idxs : list nat) :
  Forall (fun idx => idx < K) idxs ->
  list_sum (map (fun netNum => count_eq netNum idxs) (range K)) = length idxs.
Proof.
  induction 1 as [|x idxs Hx H IH].
  - unfold count_eq. simpl. induction (range K); simpl; auto.
  - rewrite counts_split, IH. unfold range. rewrite indicator_sum. simpl.
    destruct (Nat.ltb_spec x K); [reflexivity|lia].
Qed.

End Memberships.

Section PerSubject.
Context {F : Type} {AF : Arith F}.

(** The arrays of one subject, from the preferences of its tasks. *)
Definition subject_outputs (nParcels numTasks : nat)
  (boundariesHere : list boundary) (p : list (list (F * nat))) : dev_outputs :=
  let numNets := length boundariesHere in
  let idxs := columns_to_rows 0 nParcels (map (map snd) p) in
  let tf := memberships numNets idxs in
  let na := affinities numNets numTasks tf in
  let ca := cluster_affinities numNets boundariesHere na in
  {| deviationRFs := one_minus (adherence numNets ca);
     clusteredAffinities := ca;
     netAffinities := na;
     nodePrefVals := columns_to_rows f0 nParcels (map (map fst) p);
     nodePrefIdxs := idxs;
     maxMembershipsTF := tf |}.

Lemma map_nth_range {A B : Type} (g : A -> B) (l : list A) (d : B) :
  map (fun i => nth i (map g l) d) (range (length l)) = map g l.
Proof.
  apply nth_ext with (d := d) (d' := d).
  - rewrite !length_map. unfold range. apply length_seq.
  - intros n Hn. rewrite length_map in Hn. unfold range in *.
    rewrite length_seq in Hn.
    rewrite nth_indep with (d' := nth 0 (map g l) d)
      by (rewrite length_map, length_seq; assumption).
    rewrite map_nth with (f := fun i => nth i (map g l) d).
    rewrite seq_nth by assumption. reflexivity.
Qed.

Lemma nth_map_lt {A B : Type} (g : A -> B) (l : list A) (i : nat) (d : B)
  (d' : A) :
  i < length l -> nth i (map g l) d = g (nth i l d').
Proof.
  intros Hi. rewrite nth_indep with (d' := g d') by (rewrite length_map; exact Hi).
  apply map_nth.
Qed.

Lemma deviation_per_subject_inv (fcArray : conn4) (netBoundaries : list boundary)
  (nodeOrder : list nat) (adj : option (list boundary * list nat))
  (r : dev_result) :
  snd (deviation fcArray netBoundaries nodeOrder false adj) = Ok r ->
  exists clustered prefs,
    Forall2
      (fun subjNum cl_s =>
         Forall2
           (fun taskNum cl =>
              (ix <- sort_index (nodes4 fcArray) nodeOrder (option_map snd adj) ;;
               cluster_slice (nodes4 fcArray) (boundaries_here netBoundaries adj) ix
                 (fun i j => [get4 fcArray i j taskNum subjNum])) = Ok cl)
           (range (tasks4 fcArray)) cl_s)
      (range (subjs4 fcArray)) clustered /\
    mapM (mapM preferences) clustered = Ok prefs /\
    r = PerSubject
          (map (subject_outputs (nodes4 fcArray) (tasks4 fcArray)
                  (boundaries_here netBoundaries adj))
               prefs).
Proof.
  unfold deviation, deviation_with.
  fold (boundaries_here netBoundaries adj).
  set (bsHere := boundaries_here netBoundaries adj).
  cbv beta iota zeta.
  match goal with
  | |- context [bindM (mapMM ?f (range (subjs4 fcArray)))] =>
      destruct (mapMM f (range (subjs4 fcArray))) as [o1 [clustered|e]] eqn:Hcl
  end.
  2: { simpl. intros H. discriminate H. }
  assert (Hshape : Forall2
      (fun subjNum cl_s =>
         Forall2
           (fun taskNum cl =>
              (ix <- sort_index (nodes4 fcArray) nodeOrder (option_map snd adj) ;;
               cluster_slice (nodes4 fcArray) bsHere ix
                 (fun i j => [get4 fcArray i j taskNum subjNum])) = Ok cl)
           (range (tasks4 fcArray)) cl_s)
      (range (subjs4 fcArray)) clustered).
  { apply mapMM_Ok in Hcl.
    eapply Forall2_impl; [|exact Hcl]. intros subjNum cl_s Hs. simpl in Hs.
    destruct (mapMM _ (range (tasks4 fcArray))) as [o2 r2] eqn:Ht in Hs.
    simpl in Hs. subst r2. apply mapMM_Ok in Ht.
    eapply Forall2_impl; [|exact Ht]. intros taskNum cl Hc. simpl in Hc.
    destruct ((taskNum =? 0) && (subjNum =? 0)); simpl in Hc; exact Hc. }
  simpl.
  destruct (mapM (mapM preferences) clustered) as [prefs|e] eqn:Hp.
  2: { simpl. intros H. discriminate H. }
  intros H. exists clustered, prefs.
  split; [exact Hshape|]. split; [exact Hp|].
  assert (Hlen : length prefs = subjs4 fcArray).
  { apply mapM_Ok in Hp. apply Forall2_length in Hp.
    apply Forall2_length in Hshape. unfold range in Hshape.
    rewrite length_seq in Hshape. congruence. }
  revert H. simpl.
  rewrite mapMM_total with (g := fun _ => tt)
    by (intros sc; rewrite sanity_check_runs; reflexivity).
  simpl. intros H. injection H as <-. f_equal.
  rewrite <- Hlen.
  rewrite <- (map_nth_range
                (subject_outputs (nodes4 fcArray) (tasks4 fcArray) bsHere) prefs
                (subject_outputs (nodes4 fcArray) (tasks4 fcArray) bsHere [])).
  apply map_ext_in. intros subjNum Hin. unfold range in Hin.
  apply in_seq in Hin.
  rewrite !map_map.
  rewrite !nth_map_lt with (d' := []) by lia.
  reflexivity.
Qed.

End PerSubject.

Section OneHot.
Context {F : Type} {AF : Arith F}.

Lemma nth_one_hot (K idx netNum : nat) :
  netNum < K -> nth netNum (one_hot K idx) f0 = of_bool (F := F) (idx =? netNum).
Proof.
  intros H. unfold one_hot.
  rewrite nth_map_lt with (d' := 0) by (unfold range; rewrite length_seq; exact H).
  unfold range. rewrite seq_nth by exact H. reflexivity.
Qed.

Lemma prefs_shape (fcArray : conn4) (order : list nat) (ixo : option (list nat))
  (bsHere : list boundary) (clustered : list (list (list (list F))))
  (prefs : list (list (list (F * nat)))) :
  Forall2
    (fun subjNum cl_s =>
       Forall2
         (fun taskNum cl =>
            (ix <- sort_index (nodes4 fcArray) order ixo ;;
             cluster_slice (nodes4 fcArray) bsHere ix
               (fun i j => [get4 fcArray i j taskNum subjNum])) = Ok cl)
         (range (tasks4 fcArray)) cl_s)
    (range (subjs4 fcArray)) clustered ->
  mapM (mapM preferences) clustered = Ok prefs ->
  length prefs = subjs4 fcArray /\
  Forall
    (fun p_s =>
       length p_s = tasks4 fcArray /\
       Forall (fun p => length p = nodes4 fcArray /\
                        Forall (fun vi : F * nat => snd vi < length bsHere) p)
              p_s)
    prefs.
Proof.
  intros Hshape Hp. apply mapM_Ok in Hp. split.
  - apply Forall2_length in Hp. apply Forall2_length in Hshape.
    unfold range in Hshape. rewrite length_seq in Hshape. congruence.
  - revert Hshape. generalize (range (subjs4 fcArray)) as subjects.
    induction Hp as [|cl_s p_s clustered prefs Hs Hp IH]; intros subjects Hshape;
      [constructor|].
    inversion Hshape as [|subjNum ? subjects' ? Hcl_s Hshape']; subst.
    constructor; [|eapply IH; eassumption].
    clear IH Hshape Hshape' Hp. apply mapM_Ok in Hs. split.
    + apply Forall2_length in Hs. apply Forall2_length in Hcl_s.
      unfold range in Hcl_s. rewrite length_seq in Hcl_s. congruence.
    + revert Hcl_s. generalize (range (tasks4 fcArray)) as tasks.
      induction Hs as [|cl p cl_s p_s Hpref Hs IH]; intros tasks Hcl_s;
        [constructor|].
      inversion Hcl_s as [|taskNum ? tasks' ? Hcl Hcl_s']; subst.
      constructor; [|eapply IH; eassumption].
      destruct (sort_index (nodes4 fcArray) order ixo) as [ix|e];
        simpl in Hcl; [|discriminate].
      apply cluster_slice_shape in Hcl. destruct Hcl as [Hlen Hrows].
      apply preferences_lt with (K := length bsHere) in Hpref; [|exact Hrows].
      destruct Hpref as [Hlp Hlt]. split; [congruence|exact Hlt].
Qed.

Lemma columns_to_rows_nth_error {A : Type} (d : A) (n : nat)
  (cols : list (list A)) (i : nat) (row : list A) :
  nth_error (columns_to_rows d n cols) i = Some row ->
  i < n /\ row = map (fun col => nth i col d) cols.
Proof.
  unfold columns_to_rows. intros H.
  rewrite nth_error_map in H.
  destruct (nth_error (range n) i) as [k|] eqn:Hk; [|discriminate].
  apply nth_error_range_inv in Hk. destruct Hk as [-> Hi].
  simpl in H. injection H as <-. split; [exact Hi|reflexivity].
Qed.

(** The structure of the per-subject outputs. *)
Lemma per_subject_structure (fcArray : conn4) (netBoundaries : list boundary)
  (nodeOrder : list nat) (adj : option (list boundary * list nat))
  (os : list dev_outputs) :
  snd (deviation fcArray netBoundaries nodeOrder false adj) = Ok (PerSubject os) ->
  let numNets := length (boundaries_here netBoundaries adj) in
  length os = subjs4 fcArray /\
  forall subjNum o,
    nth_error os subjNum = Some o ->
    length (nodePrefIdxs o) = nodes4 fcArray /\
    forall nodeNum idxs,
      nth_error (nodePrefIdxs o) nodeNum = Some idxs ->
      length idxs = tasks4 fcArray /\
      Forall (fun idx => idx < numNets) idxs /\
      nth_error (maxMembershipsTF o) nodeNum = Some (map (one_hot numNets) idxs) /\
      nth_error (netAffinities o) nodeNum
      = Some (map (fun netNum =>
                     fdiv (np_sum (map (fun idx => of_bool (idx =? netNum)) idxs))
                          (of_nat (tasks4 fcArray)))
                  (range numNets)) /\
      list_sum (map (fun netNum => count_eq netNum idxs) (range numNets))
      = tasks4 fcArray.
Proof.
  intros H numNets.
  apply deviation_per_subject_inv in H.
  destruct H as [clustered [prefs [Hshape [Hp Hr]]]].
  injection Hr as ->.
  assert (HS := Hshape). eapply prefs_shape in HS; [|exact Hp].
  destruct HS as [Hlen Hall].
  split; [rewrite length_map; exact Hlen|].
  intros subjNum o Ho. rewrite nth_error_map in Ho.
  destruct (nth_error prefs subjNum) as [p_s|] eqn:Hps; [|discriminate].
  simpl in Ho. injection Ho as <-.
  rewrite Forall_forall in Hall.
  destruct (Hall p_s (nth_error_In _ _ Hps)) as [HlenT Htasks].
  unfold subject_outputs. simpl.
  split.
  { unfold columns_to_rows. rewrite length_map. unfold range. apply length_seq. }
  intros nodeNum idxs Hidx.
  apply columns_to_rows_nth_error in Hidx. destruct Hidx as [Hnode ->].
  assert (Hbound : Forall (fun idx => idx < numNets)
                     (map (fun col => nth nodeNum col 0) (map (map snd) p_s))).
  { rewrite map_map. rewrite Forall_map.
    eapply Forall_impl; [|exact Htasks]. intros p [Hlp Hlt]. simpl.
    rewrite nth_map_lt with (d' := (f0, 0)) by lia.
    rewrite Forall_forall in Hlt. apply Hlt. apply nth_In. lia. }
  assert (Hrow : nth_error (columns_to_rows 0 (nodes4 fcArray) (map (map snd) p_s))
                   nodeNum
                 = Some (map (fun col => nth nodeNum col 0) (map (map snd) p_s))).
  { unfold columns_to_rows. rewrite nth_error_map, nth_error_range by exact Hnode.
    reflexivity. }
  split; [rewrite !length_map; exact HlenT|].
  split; [exact Hbound|].
  split.
  { unfold memberships. rewrite nth_error_map, Hrow. reflexivity. }
  split.
  { unfold affinities, memberships. rewrite !nth_error_map, Hrow. simpl.
    f_equal. apply map_ext_in. intros netNum Hin. unfold range in Hin.
    apply in_seq in Hin. f_equal. f_equal. rewrite map_map.
    apply map_ext. intros idx. apply nth_one_hot. lia. }
  rewrite counts_add_up by exact Hbound. rewrite !length_map. exact HlenT.
Qed.

End OneHot.

(** Three nodes, each a network of its own, ten tasks, one subject: in tasks
    0-6 every node is connected to node 0 only, in tasks 7-8 to node 1 only, in
    task 9 to node 2 only. *)
Definition three_singletons : list boundary :=
  [mk_boundary 0 0 1; mk_boundary 1 1 1; mk_boundary 2 2 1].

Definition ten_tasks : conn4 (F := float) :=
  {| nodes4 := 3;
     tasks4 := 10;
     subjs4 := 1;
     get4 := fun i j t s =>
       let preferred := if t <? 7 then 0 else if t <? 9 then 1 else 2 in
       if j =? preferred then 1%float else 0%float |}.

(** The rational number a finite float stands for, and the exact sum of a
    vector of floats. *)
Definition float_to_Q (x : float) : option Q :=
  match Prim2SF x with
  | S754_zero _ => Some 0%Q
  | S754_finite s m e =>
      Some ((if s then -1 else 1) * inject_Z (Zpos m) * Qpower 2 e)%Q
  | _ => None
  end.

Definition exact_sum (l : list float) : option Q :=
  fold_left
    (fun acc x =>
       match acc, float_to_Q x with
       | Some a, Some q => Some (a + q)%Q
       | _, _ => None
       end)
    l (Some 0%Q).




(** ** Participation coefficient (C9) *)

(** The facts about the float operations that the argument uses.  They hold
    in IEEE 754 arithmetic and in exact arithmetic; they are proved below for
    [xreal]. *)
Class ArithLaws (F : Type) {AF : Arith F} : Prop := {
  (* NaN *)
  nan_isnan : fisnan (fnan : F) = true;
  mul_nan_l : forall x y : F, fisnan x = true -> fisnan (fmul x y) = true;
  div_nan_r : forall x y : F, fisnan y = true -> fisnan (fdiv x y) = true;
  sub_nan_r : forall x y : F, fisnan y = true -> fisnan (fsub x y) = true;
  zero_not_nan : forall x : F, feqb x f0 = true -> fisnan x = false;
  (* multiplication by False and True *)
  mul_0_r : forall x : F, fisnan (fmul x f0) = true \/ feqb (fmul x f0) f0 = true;
  mul_zero_0 : forall x : F, feqb x f0 = true -> fmul x f0 = x;
  mul_1_r : forall x : F, fmul x f1 = x;
  (* sums of zeros, squares *)
  zero_eqb : feqb (f0 : F) f0 = true;
  add_zeros : forall x y : F,
      feqb x f0 = true -> feqb y f0 = true -> feqb (fadd x y) f0 = true;
  square_zero : forall x : F, feqb x f0 = true -> fmul x x = f0;
  add_0_0 : fadd (f0 : F) f0 = f0;
  add_0_square : forall x : F, fadd f0 (fmul x x) = fmul x x;
  add_square_0 : forall x : F, fadd (fmul x x) f0 = fmul x x;
  (* a quotient of equals, and 1 - 1 *)
  div_same : forall x : F, fisnan (fdiv x x) = true \/ fdiv x x = f1;
  sub_1_1 : feqb (fsub (f1 : F) f1) f0 = true
}.

Arguments ArithLaws F {AF}.
Arguments Qc_of_nat : simpl never.

Lemma Qc_eqb_true (p q : Qc) : Qc_eqb p q = true -> p = q.
Proof.
  unfold Qc_eqb. intros H. apply Qc_is_canon. apply Qeq_bool_iff. exact H.
Qed.

Lemma Qc_eqb_refl (p : Qc) : Qc_eqb p p = true.
Proof. unfold Qc_eqb. apply Qeq_bool_iff. reflexivity. Qed.

Lemma Qc_eqb_false (p q : Qc) : Qc_eqb p q = false -> p <> q.
Proof. intros H E. subst q. rewrite Qc_eqb_refl in H. discriminate. Qed.

Lemma xreal_zero (x : xreal) : feqb x f0 = true -> x = f0.
Proof.
  destruct x as [|s|q]; simpl; try discriminate.
  intros H. apply Qc_eqb_true in H. rewrite H. reflexivity.
Qed.

Lemma Qc_of_nat_0 : Qc_of_nat 0 = 0%Qc.
Proof. apply Qc_is_canon. reflexivity. Qed.

Lemma Qc_of_nat_1 : Qc_of_nat 1 = 1%Qc.
Proof. apply Qc_is_canon. reflexivity. Qed.

Lemma xreal_f0 : (f0 : xreal) = XFin 0%Qc.
Proof. unfold f0. simpl. rewrite Qc_of_nat_0. reflexivity. Qed.

Lemma xreal_f1 : (f1 : xreal) = XFin 1%Qc.
Proof. unfold f1. simpl. rewrite Qc_of_nat_1. reflexivity. Qed.

Ltac xreal_arith :=
  rewrite ?xreal_f0, ?xreal_f1; simpl;
  try reflexivity;
  try (f_equal; ring);
  try (apply Qc_eqb_true; reflexivity).

#[export] Instance exact_laws : ArithLaws xreal.
Proof.
  constructor.
  - reflexivity.
  - intros [|s|q] y; simpl; try discriminate. reflexivity.
  - intros [|s|p] [|t|q]; simpl; try discriminate; reflexivity.
  - intros [|s|p] [|t|q]; simpl; try discriminate; reflexivity.
  - intros [|s|q]; simpl; try discriminate; reflexivity.
  - intros [|s|q]; rewrite ?xreal_f0; simpl.
    + left. reflexivity.
    + left. reflexivity.
    + right. replace (q * 0)%Qc with 0%Qc by ring. apply Qc_eqb_refl.
  - intros x H. apply xreal_zero in H. subst x. xreal_arith.
  - intros [|s|q]; xreal_arith; destruct s; reflexivity.
  - xreal_arith.
  - intros x y Hx Hy. apply xreal_zero in Hx, Hy. subst. xreal_arith.
  - intros x H. apply xreal_zero in H. subst x. xreal_arith.
  - xreal_arith.
  - intros [|s|q]; xreal_arith.
  - intros [|s|q]; xreal_arith.
  - intros [|s|q]; rewrite ?xreal_f1; simpl.
    + left. reflexivity.
    + left. reflexivity.
    + destruct (Qc_eqb q 0) eqn:Hq.
      * apply Qc_eqb_true in Hq. subst q. left. reflexivity.
      * right. f_equal. apply Qc_eqb_false in Hq. field. exact Hq.
  - xreal_arith.
Qed.

Section Participation.
Context {F : Type} {AF : Arith F}.

Lemma nth_error_zip_with {A B C : Type} (f : A -> B -> C) (l1 : list A)
  (l2 : list B) (i : nat) :
  nth_error (zip_with f l1 l2) i
  = match nth_error l1 i, nth_error l2 i with
    | Some a, Some b => Some (f a b)
    | _, _ => None
    end.
Proof.
  revert l2 i. induction l1 as [|a l1 IH]; intros [|b l2] [|i]; simpl;
    try reflexivity.
  - destruct (nth_error l1 i); reflexivity.
  - apply IH.
Qed.

Lemma length_zip_with {A B C : Type} (f : A -> B -> C) (l1 : list A) (l2 : list B) :
  length (zip_with f l1 l2) = Nat.min (length l1) (length l2).
Proof.
  revert l2. induction l1 as [|a l1 IH]; intros [|b l2]; simpl; auto.
Qed.

Lemma nth_error_map_range {A : Type} (g : nat -> A) (n i : nat) :
  i < n -> nth_error (map g (range n)) i = Some (g i).
Proof. intros H. rewrite nth_error_map, nth_error_range by exact H. reflexivity. Qed.

(** The community mask: [netAffilMask[i,j]] is the affiliation of [j] when
    the edge is not zero, and 0 otherwise. *)
Lemma matmul_diag_fold (b : nat -> bool) (v : list nat) (j s len acc : nat) :
  fold_left (fun acc k => acc + (if b k then 1 else 0) * np_diag v k j)
            (seq s len) acc
  = acc + (if (s <=? j) && (j <? s + len)
           then (if b j then nth j v 0 else 0) else 0).
Proof.
  revert s acc. induction len as [|len IH]; intros s acc; simpl.
  - destruct (Nat.leb_spec s j), (Nat.ltb_spec j (s + 0)); simpl; lia.
  - rewrite IH. unfold np_diag.
    destruct (Nat.eqb_spec s j) as [E|Hne];
      destruct (Nat.leb_spec (S s) j), (Nat.ltb_spec j (S s + len)),
        (Nat.leb_spec s j), (Nat.ltb_spec j (s + S len)); simpl; try lia;
      try (subst s; destruct (b j); lia); destruct (b s); lia.
Qed.

Lemma netAffilMask_value (n : nat) (b : nat -> nat -> bool) (v : list nat)
  (i j : nat) :
  j < n ->
  matmul_bool_nat n b (np_diag v) i j = if b i j then nth j v 0 else 0.
Proof.
  intros Hj. unfold matmul_bool_nat, range.
  rewrite (matmul_diag_fold (b i)). simpl.
  destruct (Nat.ltb_spec j n); [reflexivity|lia].
Qed.

Lemma fold_left_pointwise {A B : Type} (f g : A -> B -> A) (l : list B) (a : A) :
  (forall a b, f a b = g a b) -> fold_left f l a = fold_left g l a.
Proof.
  intros H. revert a. induction l as [|b l IH]; intros a; simpl; [reflexivity|].
  rewrite H. apply IH.
Qed.

(** Entry [i] of [arrHere] after the loop over the networks. *)
Lemma arrHere_nth (s : nat -> nat -> F) (n : nat) (nets : list nat)
  (arr0 : list F) (i : nat) (a0 : F) :
  length arr0 = n -> i < n -> nth_error arr0 i = Some a0 ->
  nth_error
    (fold_left
       (fun arrHere netNum =>
          zip_with fadd arrHere (map square (map (s netNum) (range n))))
       nets arr0) i
  = Some (fold_left (fun a netNum => fadd a (square (s netNum i))) nets a0).
Proof.
  intros Hlen Hi. revert arr0 a0 Hlen.
  induction nets as [|k nets IH]; intros arr0 a0 Hlen H0; simpl; [exact H0|].
  apply IH.
  - rewrite length_zip_with, !length_map. unfold range. rewrite length_seq. lia.
  - rewrite nth_error_zip_with, H0, map_map, nth_error_map_range by exact Hi.
    reflexivity.
Qed.

(** The score of node [i], from its degree and its entry of [arrHere]. *)
Definition score (d arr : F) : F :=
  let sq := square d in
  let sq := if feqb sq f0 then fnan else sq in
  let p := fsub f1 (fdiv arr sq) in
  let p := if fisnan p then f0 else p in
  let p := if feqb d f0 then f0 else p in
  if feqb p f0 then f0 else p.

Definition module_strength (fcArray : conn2) (affil : list nat) (i netNum : nat) : F :=
  np_nansum
    (map (fun j =>
            fmul (get2 fcArray i j)
                 (of_bool ((if negb (feqb (get2 fcArray i j) f0)
                            then nth j affil 0 else 0) =? netNum)))
         (range (nodes2 fcArray))).

Lemma participation_nth (fcArray : conn2) (affil : list nat) (numNets : nat)
  (out : list F) (i : nat) :
  participation_coefficient_sign fcArray affil numNets = Ok out ->
  i < nodes2 fcArray ->
  nth_error out i
  = Some (score (np_nansum (row2 fcArray i))
                (fold_left
                   (fun a netNum =>
                      fadd a (square (module_strength fcArray affil i netNum)))
                   (seq 1 numNets) f0)).
Proof.
  unfold participation_coefficient_sign. intros H Hi.
  destruct (nodes2 fcArray =? length affil) eqn:Hn; simpl in H; [|discriminate].
  injection H as <-.
  set (n := nodes2 fcArray) in *.
  rewrite nth_error_map, nth_error_zip_with, nth_error_map_range by exact Hi.
  rewrite nth_error_map, nth_error_zip_with, nth_error_repeat by exact Hi.
  rewrite nth_error_zip_with.
  rewrite !map_map, nth_error_map_range by exact Hi.
  match goal with
  | |- context [nth_error (fold_left ?f ?nets ?arr0) i] =>
      replace (nth_error (fold_left f nets arr0) i)
        with (Some (fold_left
                      (fun a netNum =>
                         fadd a (square (module_strength fcArray affil i netNum)))
                      (seq 1 numNets) f0))
  end.
  { reflexivity. }
  symmetry.
  replace (range2 1 (numNets + 1)) with (seq 1 numNets)
    by (unfold range2; f_equal; lia).
  set (s := fun netNum i0 =>
              np_nansum
                (map (fun j =>
                        fmul (get2 fcArray i0 j)
                             (of_bool
                                (matmul_bool_nat n
                                   (fun i1 j0 => negb (feqb (get2 fcArray i1 j0) f0))
                                   (np_diag affil) i0 j =? netNum)))
                     (range n))).
  transitivity
    (nth_error
       (fold_left
          (fun arrHere netNum =>
             zip_with fadd arrHere (map square (map (s netNum) (range n))))
          (seq 1 numNets) (repeat f0 n)) i).
  { f_equal. }
  rewrite arrHere_nth with (a0 := f0).
  - f_equal. apply fold_left_pointwise. intros a netNum. f_equal. f_equal.
    unfold s, module_strength. f_equal. apply map_ext_in. intros j Hj.
    unfold range in Hj. apply in_seq in Hj.
    rewrite netAffilMask_value by (fold n; lia). reflexivity.
  - apply repeat_length.
  - exact Hi.
  - apply nth_error_repeat. exact Hi.
Qed.

End Participation.

Lemma seq_split_at (m n : nat) :
  1 <= m <= n -> seq 1 n = seq 1 (m - 1) ++ m :: seq (S m) (n - m).
Proof.
  intros H.
  assert (E : n = (m - 1) + S (n - m)) by lia.
  rewrite E at 1. rewrite seq_app. f_equal.
  replace (1 + (m - 1)) with m by lia. reflexivity.
Qed.

Section ParticipationZero.
Context {F : Type} {AF : Arith F} {LF : ArithLaws F}.

Lemma nansum_zero (l : list F) :
  (forall x, In x l -> feqb (nan_to_zero x) f0 = true) ->
  feqb (np_nansum l) f0 = true.
Proof.
  unfold np_nansum, np_sum. intros H.
  assert (G : forall a, feqb a f0 = true ->
                        feqb (fold_left fadd (map nan_to_zero l) a) f0 = true).
  { induction l as [|x l IH]; intros a Ha; simpl; [exact Ha|].
    apply IH.
    - intros y Hy. apply H. right. exact Hy.
    - apply add_zeros; [exact Ha|]. apply H. left. reflexivity. }
  apply G. apply zero_eqb.
Qed.

Lemma fold_add_zeros (sq : nat -> F) (l : list nat) (a : F) :
  (forall k, In k l -> sq k = f0) -> fadd a f0 = a ->
  fold_left (fun a k => fadd a (sq k)) l a = a.
Proof.
  intros H Ha. induction l as [|k l IH]; simpl; [reflexivity|].
  rewrite (H k) by (left; reflexivity). rewrite Ha.
  apply IH. intros k' Hk'. apply H. right. exact Hk'.
Qed.

Lemma score_zero_degree (d arr : F) : feqb d f0 = true -> score d arr = f0.
Proof.
  intros Hd. unfold score. cbv zeta. rewrite Hd.
  destruct (feqb f0 f0); reflexivity.
Qed.

Lemma score_same (d : F) : score d (square d) = f0.
Proof.
  unfold score. cbv zeta.
  destruct (feqb d f0) eqn:Hd.
  { destruct (feqb f0 f0); reflexivity. }
  assert (Hp : forall p : F,
             (fisnan p = true \/ feqb p f0 = true) ->
             (if feqb (if fisnan p then f0 else p) f0
              then f0 else (if fisnan p then f0 else p)) = f0).
  { intros p [Hn|Hz].
    - rewrite Hn. destruct (feqb f0 f0); reflexivity.
    - rewrite (zero_not_nan _ Hz), Hz. reflexivity. }
  apply Hp.
  destruct (feqb (square d) f0) eqn:Hsq.
  - left. apply sub_nan_r. apply div_nan_r. apply nan_isnan.
  - destruct (div_same (square d)) as [Hn|H1].
    + left. apply sub_nan_r. exact Hn.
    + right. rewrite H1. apply sub_1_1.
Qed.

(** A node whose edges stay in its own module [m]: its strength towards [m] is
    its degree, and its strength towards any other module is a zero. *)
Section Confined.
Variables (fcArray : conn2 (F := F)) (affil : list nat) (i : nat).
Hypothesis own_module_positive : 1 <= nth i affil 0.
Hypothesis confined :
  forall j, j < nodes2 fcArray ->
            feqb (get2 fcArray i j) f0 = false ->
            fisnan (get2 fcArray i j) = false ->
            nth j affil 0 = nth i affil 0.

Lemma strength_own_module :
  module_strength fcArray affil i (nth i affil 0) = np_nansum (row2 fcArray i).
Proof.
  unfold module_strength, row2, np_nansum. f_equal. rewrite !map_map.
  apply map_ext_in. intros j Hj. unfold range in Hj. apply in_seq in Hj.
  destruct (feqb (get2 fcArray i j) f0) eqn:Hz; cbn [negb].
  - destruct (Nat.eqb_spec 0 (nth i affil 0)) as [E|_]; [lia|].
    unfold of_bool. rewrite mul_zero_0 by exact Hz. reflexivity.
  - destruct (fisnan (get2 fcArray i j)) eqn:Hn.
    + unfold nan_to_zero. rewrite Hn, mul_nan_l by exact Hn. reflexivity.
    + rewrite confined by (try lia; assumption).
      rewrite Nat.eqb_refl. unfold of_bool. rewrite mul_1_r. reflexivity.
Qed.

Lemma strength_other_module (netNum : nat) :
  1 <= netNum -> netNum <> nth i affil 0 ->
  square (module_strength fcArray affil i netNum) = f0.
Proof.
  intros Hpos Hne. apply square_zero. unfold module_strength.
  apply nansum_zero. intros x Hx. apply in_map_iff in Hx.
  destruct Hx as [j [<- Hj]]. unfold range in Hj. apply in_seq in Hj.
  assert (Hzero : forall y : F,
             fisnan (fmul y f0) = true \/ feqb (fmul y f0) f0 = true ->
             feqb (nan_to_zero (fmul y f0)) f0 = true).
  { intros y [Hn|Hz0]; unfold nan_to_zero.
    - rewrite Hn. apply zero_eqb.
    - rewrite (zero_not_nan _ Hz0). exact Hz0. }
  destruct (feqb (get2 fcArray i j) f0) eqn:Hz; cbn [negb].
  - destruct (Nat.eqb_spec 0 netNum) as [E|_]; [lia|].
    unfold of_bool. apply Hzero. apply mul_0_r.
  - destruct (fisnan (get2 fcArray i j)) eqn:Hn.
    + unfold nan_to_zero. rewrite mul_nan_l by exact Hn. apply zero_eqb.
    + rewrite confined by (try lia; assumption).
      destruct (Nat.eqb_spec (nth i affil 0) netNum) as [E|_]; [congruence|].
      unfold of_bool. apply Hzero. apply mul_0_r.
Qed.

Lemma arrHere_confined (numNets : nat) :
  nth i affil 0 <= numNets ->
  fold_left
    (fun a netNum => fadd a (square (module_strength fcArray affil i netNum)))
    (seq 1 numNets) f0
  = square (np_nansum (row2 fcArray i)).
Proof.
  intros Hm.
  set (m := nth i affil 0) in *.
  rewrite (@seq_split_at m numNets) by lia.
  rewrite fold_left_app. simpl.
  assert (E1 : fold_left
                 (fun a netNum =>
                    fadd a (square (module_strength fcArray affil i netNum)))
                 (seq 1 (m - 1)) f0 = f0).
  { apply fold_add_zeros; [|apply add_0_0].
    intros k Hk. apply in_seq in Hk. apply strength_other_module; lia. }
  rewrite E1. unfold m. rewrite strength_own_module. fold m.
  unfold square at 2 3. rewrite add_0_square.
  apply fold_add_zeros; [|apply add_square_0].
  intros k Hk. apply in_seq in Hk. apply strength_other_module; lia.
Qed.

End Confined.

End ParticipationZero.


(** Three nodes, modules [1; 1; 2]: nodes 0 and 1 are joined by an edge of
    weight 1, node 2 has no edge. *)
Definition pc_confined : conn2 (F := xreal) :=
  mk_conn2 [[f0; f1; f0]; [f1; f0; f0]; [f0; f0; f0]].


(** ** Index updates and loops *)

Lemma length_upd {A : Type} (i : nat) (v : A) (l : list A) :
  length (upd i v l) = length l.
Proof.
  revert i. induction l as [|x l IH]; intros [|i]; simpl; auto.
Qed.

Lemma nth_upd_eq {A : Type} (i : nat) (v d : A) (l : list A) :
  i < length l -> nth i (upd i v l) d = v.
Proof.
  revert i. induction l as [|x l IH]; intros [|i] H; simpl in *; try lia.
  - reflexivity.
  - apply IH. lia.
Qed.

Lemma nth_upd_neq {A : Type} (i j : nat) (v d : A) (l : list A) :
  i <> j -> nth j (upd i v l) d = nth j l d.
Proof.
  revert i j. induction l as [|x l IH]; intros [|i] [|j] H; simpl; try reflexivity.
  - lia.
  - apply IH. lia.
Qed.

Lemma for_app {A S : Type} (xs ys : list A) (body : A -> S -> result S) (s : S) :
  for_ (xs ++ ys) body s = (s' <- for_ xs body s ;; for_ ys body s').
Proof.
  revert s. induction xs as [|x xs IH]; intros s; simpl; [reflexivity|].
  destruct (body x s) as [s'|e]; simpl; [apply IH|reflexivity].
Qed.

Lemma for_pointwise {A S : Type} (xs : list A) (f g : A -> S -> result S) (s : S) :
  (forall x s, f x s = g x s) -> for_ xs f s = for_ xs g s.
Proof.
  intros H. revert s. induction xs as [|x xs IH]; intros s; simpl; [reflexivity|].
  rewrite H. destruct (g x s); simpl; [apply IH|reflexivity].
Qed.

Section Consensus.
Context {F : Type} {AF : Arith F}.

(** *** The agreement loop *)

Lemma rest_agreement_loop (numSubjs : nat) (modes : list (nat * nat))
  (len s : nat) (pa pa' : list F) (rm rm' : list nat) :
  for_ (seq s len)
    (fun nodeNum (pr : list F * list nat) =>
       let (percentAgree, restMode) := pr in
       match nth_error modes nodeNum with
       | None => Raise IndexError
       | Some (thisMode, count) =>
           Ok (upd nodeNum (fdiv (of_nat count) (of_nat numSubjs)) percentAgree,
               upd nodeNum thisMode restMode)
       end) (pa, rm) = Ok (pa', rm') ->
  length pa' = length pa /\ length rm' = length rm /\
  forall i,
    (s <= i < s + len -> i < length pa -> i < length rm ->
     exists m c, nth_error modes i = Some (m, c) /\
                 nth i pa' f0 = fdiv (of_nat c) (of_nat numSubjs) /\
                 nth i rm' 0 = m) /\
    (~ s <= i < s + len -> nth i pa' f0 = nth i pa f0 /\ nth i rm' 0 = nth i rm 0).
Proof.
  revert s pa rm. induction len as [|len IH]; intros s pa rm H; simpl in H.
  - injection H as <- <-. repeat split; try reflexivity. intros; lia.
  - destruct (nth_error modes s) as [[m c]|] eqn:Hm; simpl in H; [|discriminate].
    apply IH in H. destruct H as [Hl1 [Hl2 H]].
    rewrite length_upd in Hl1. rewrite length_upd in Hl2.
    split; [exact Hl1|]. split; [exact Hl2|].
    intros i. destruct (H i) as [Hin Hout]. split.
    + intros Hi Hipa Hirm. destruct (Nat.eq_dec i s) as [->|Hne].
      * exists m, c. destruct Hout as [E1 E2]; [lia|].
        rewrite E1, E2, !nth_upd_eq by assumption. auto.
      * apply Hin; rewrite ?length_upd; try assumption. lia.
    + intros Hi. destruct Hout as [E1 E2]; [lia|].
      rewrite E1, E2, !nth_upd_neq by lia. auto.
Qed.

Lemma rest_agreement_spec (nParcels numSubjs : nat) (modes : list (nat * nat))
  (pa : list F) (rm : list nat) :
  rest_agreement nParcels numSubjs modes = Ok (pa, rm) ->
  length pa = nParcels /\ length rm = nParcels /\
  forall i, i < nParcels ->
    exists m c, nth_error modes i = Some (m, c) /\
                nth i pa f0 = fdiv (of_nat c) (of_nat numSubjs) /\
                nth i rm 0 = m.
Proof.
  unfold rest_agreement, range. intros H.
  apply rest_agreement_loop in H. rewrite !repeat_length in H.
  destruct H as [Hl1 [Hl2 H]]. split; [exact Hl1|]. split; [exact Hl2|].
  intros i Hi. destruct (H i) as [Hin _]. apply Hin; lia.
Qed.

Lemma rest_agreement_total (nParcels numSubjs : nat) (modes : list (nat * nat)) :
  nParcels <= length modes ->
  exists pa rm, rest_agreement nParcels numSubjs modes = Ok (pa, rm).
Proof.
  unfold rest_agreement, range. intros Hlen.
  generalize (repeat (f0 : F) nParcels) (repeat 0 nParcels).
  assert (G : forall len s, s + len <= length modes ->
            forall (pa : list F) (rm : list nat),
            exists pa' rm',
              for_ (seq s len)
                (fun nodeNum (pr : list F * list nat) =>
                   let (percentAgree, restMode) := pr in
                   match nth_error modes nodeNum with
                   | None => Raise IndexError
                   | Some (thisMode, count) =>
                       Ok (upd nodeNum (fdiv (of_nat count) (of_nat numSubjs))
                               percentAgree,
                           upd nodeNum thisMode restMode)
                   end) (pa, rm) = Ok (pa', rm')).
  { induction len as [|len IH]; intros s Hs pa rm; simpl.
    - exists pa, rm. reflexivity.
    - destruct (nth_error modes s) as [[m c]|] eqn:Hm.
      + simpl. apply IH. lia.
      + apply nth_error_None in Hm. lia. }
  intros pa rm. apply G. lia.
Qed.

(** *** The consensus loop *)

(** What the loop body writes for a node of network [netNum]. *)
Definition consensus_body (percentAgree : list F) (restMode : list nat)
  (netNum nodeNum : nat) (restConsensus : list nat) : result (list nat) :=
  match nth_error percentAgree nodeNum with
  | None => Raise IndexError
  | Some thisNode =>
      if fltb thisNode lit_0_5 then Ok (upd nodeNum netNum restConsensus)
      else if fleb lit_0_5 thisNode
           then Ok (upd nodeNum (nth nodeNum restMode 0) restConsensus)
           else Ok restConsensus
  end.

Definition network_body (percentAgree : list F) (restMode : list nat)
  (nb : nat * boundary) (restConsensus : list nat) : result (list nat) :=
  for_ (range2 (b_start (snd nb)) (b_end (snd nb) + 1))
       (consensus_body percentAgree restMode (fst nb)) restConsensus.

Lemma rest_consensus_unfold (bs : list boundary) (pa : list F) (rm : list nat)
  (n : nat) :
  rest_consensus bs pa rm n
  = for_ (combine (range (length bs)) bs) (network_body pa rm) (repeat 0 n).
Proof.
  unfold rest_consensus. apply for_pointwise.
  intros [netNum netB] rc. unfold network_body. simpl.
  apply for_pointwise. intros nodeNum rc'. reflexivity.
Qed.

End Consensus.

Section ConsensusLoop.
Context {F : Type} {AF : Arith F}.
Variables (pa : list F) (rm : list nat).

(** The value the loop body leaves at a node of network [k]. *)
Definition decided (k node : nat) (old : nat) (x : F) : nat :=
  if fltb x lit_0_5 then k
  else if fleb lit_0_5 x then nth node rm 0
       else old.

Lemma consensus_body_spec (k node : nat) (rc rc' : list nat) :
  consensus_body pa rm k node rc = Ok rc' ->
  length rc = length pa ->
  length rc' = length rc /\
  (exists x, nth_error pa node = Some x /\
             nth node rc' 0 = decided k node (nth node rc 0) x) /\
  (forall j, j <> node -> nth j rc' 0 = nth j rc 0).
Proof.
  unfold consensus_body, decided. intros H Hlen.
  destruct (nth_error pa node) as [x|] eqn:Hx; [|discriminate].
  assert (Hnode : node < length rc).
  { rewrite Hlen. apply nth_error_Some. congruence. }
  destruct (fltb x lit_0_5) eqn:E1; [|destruct (fleb lit_0_5 x) eqn:E2];
    injection H as <-; rewrite ?length_upd.
  - split; [reflexivity|]. split.
    + exists x. split; [reflexivity|]. rewrite E1. apply nth_upd_eq. exact Hnode.
    + intros j Hj. apply nth_upd_neq. lia.
  - split; [reflexivity|]. split.
    + exists x. split; [reflexivity|]. rewrite E1, E2.
      apply nth_upd_eq. exact Hnode.
    + intros j Hj. apply nth_upd_neq. lia.
  - split; [reflexivity|]. split.
    + exists x. split; [reflexivity|]. rewrite E1, E2. reflexivity.
    + intros j Hj. reflexivity.
Qed.

Lemma node_loop_spec (k len s : nat) (rc rc' : list nat) :
  for_ (seq s len) (consensus_body pa rm k) rc = Ok rc' ->
  length rc = length pa ->
  length rc' = length rc /\
  forall node,
    (s <= node < s + len ->
     exists x, nth_error pa node = Some x /\
               nth node rc' 0 = decided k node (nth node rc 0) x) /\
    (~ s <= node < s + len -> nth node rc' 0 = nth node rc 0).
Proof.
  revert s rc. induction len as [|len IH]; intros s rc H Hlen; simpl in H.
  - injection H as <-. split; [reflexivity|]. intros node. split; [lia|reflexivity].
  - destruct (consensus_body pa rm k s rc) as [rc1|e] eqn:Hb; simpl in H;
      [|discriminate].
    apply consensus_body_spec in Hb; [|exact Hlen].
    destruct Hb as [Hl1 [[x [Hx Hv]] Hothers]].
    apply IH in H; [|congruence]. destruct H as [Hl' H].
    split; [congruence|]. intros node. destruct (H node) as [Hin Hout]. split.
    + intros Hnode. destruct (Nat.eq_dec node s) as [->|Hne].
      * exists x. split; [exact Hx|]. rewrite Hout by lia. exact Hv.
      * destruct Hin as [y [Hy Hvy]]; [lia|].
        exists y. split; [exact Hy|]. rewrite Hvy, Hothers by exact Hne.
        reflexivity.
    + intros Hnode. rewrite Hout by lia. apply Hothers. lia.
Qed.

Definition in_range (node : nat) (b : boundary) : Prop :=
  b_start b <= node <= b_end b.

Lemma network_body_spec (k : nat) (b : boundary) (rc rc' : list nat) :
  network_body pa rm (k, b) rc = Ok rc' ->
  length rc = length pa ->
  length rc' = length rc /\
  forall node,
    (in_range node b ->
     exists x, nth_error pa node = Some x /\
               nth node rc' 0 = decided k node (nth node rc 0) x) /\
    (~ in_range node b -> nth node rc' 0 = nth node rc 0).
Proof.
  unfold network_body, range2, in_range. simpl. intros H Hlen.
  apply node_loop_spec in H; [|exact Hlen]. destruct H as [Hl H].
  split; [exact Hl|]. intros node. destruct (H node) as [Hin Hout].
  split; intros Hn; [apply Hin|apply Hout]; lia.
Qed.

Lemma networks_unchanged (nbs : list (nat * boundary)) (rc rc' : list nat) :
  for_ nbs (network_body pa rm) rc = Ok rc' ->
  length rc = length pa ->
  length rc' = length rc /\
  forall node,
    (forall nb, In nb nbs -> ~ in_range node (snd nb)) ->
    nth node rc' 0 = nth node rc 0.
Proof.
  revert rc. induction nbs as [|[k b] nbs IH]; intros rc H Hlen; simpl in H.
  - injection H as <-. split; reflexivity.
  - destruct (network_body pa rm (k, b) rc) as [rc1|e] eqn:Hb; simpl in H;
      [|discriminate].
    apply network_body_spec in Hb; [|exact Hlen]. destruct Hb as [Hl1 Hb].
    apply IH in H; [|congruence]. destruct H as [Hl' H].
    split; [congruence|]. intros node Hfree.
    rewrite H by (intros nb Hnb; apply Hfree; right; exact Hnb).
    apply Hb. apply (Hfree (k, b)). left. reflexivity.
Qed.

Lemma networks_last (l1 l2 : list (nat * boundary)) (k : nat) (b : boundary)
  (rc rc' : list nat) (node : nat) :
  for_ (l1 ++ (k, b) :: l2) (network_body pa rm) rc = Ok rc' ->
  length rc = length pa ->
  in_range node b ->
  (forall nb, In nb l2 -> ~ in_range node (snd nb)) ->
  exists x old, nth_error pa node = Some x /\
                nth node rc' 0 = decided k node old x.
Proof.
  intros H Hlen Hin Hfree. rewrite for_app in H.
  destruct (for_ l1 (network_body pa rm) rc) as [rc1|e] eqn:H1; simpl in H;
    [|discriminate].
  apply networks_unchanged in H1; [|exact Hlen]. destruct H1 as [Hl1 _].
  destruct (network_body pa rm (k, b) rc1) as [rc2|e] eqn:Hb; simpl in H;
    [|discriminate].
  apply network_body_spec in Hb; [|congruence]. destruct Hb as [Hl2 Hb].
  apply networks_unchanged in H; [|congruence]. destruct H as [_ H].
  destruct (Hb node) as [[x [Hx Hv]] _]; [exact Hin|].
  exists x, (nth node rc1 0). split; [exact Hx|].
  rewrite H by exact Hfree. exact Hv.
Qed.

End ConsensusLoop.

(** ** [stats.mode] *)

Lemma stats_mode_fold (row : list nat) (len s : nat) (m c : nat) :
  (s = 0 /\ m = 0 /\ c = 0) \/
  (0 < s /\ m < s /\ c = count_eq m row /\
   (forall v, v < s -> count_eq v row <= c) /\
   (forall v, v < m -> count_eq v row < c)) ->
  let mc :=
    fold_left
      (fun (mc : nat * nat) score =>
         let c := count_eq score row in
         if snd mc <? c then (score, c) else mc)
      (seq s len) (m, c) in
  (s + len = 0 /\ mc = (0, 0)) \/
  (0 < s + len /\ fst mc < s + len /\ snd mc = count_eq (fst mc) row /\
   (forall v, v < s + len -> count_eq v row <= snd mc) /\
   (forall v, v < fst mc -> count_eq v row < snd mc)).
Proof.
  revert s m c. induction len as [|len IH]; intros s m c Inv; simpl.
  - rewrite Nat.add_0_r. destruct Inv as [[-> [-> ->]]|Inv]; [left|right]; auto.
  - replace (s + S len) with (S s + len) by lia.
    assert (Step :
      0 < S s /\
      fst (if c <? count_eq s row then (s, count_eq s row) else (m, c)) < S s /\
      snd (if c <? count_eq s row then (s, count_eq s row) else (m, c))
      = count_eq (fst (if c <? count_eq s row then (s, count_eq s row) else (m, c)))
                 row /\
      (forall v, v < S s ->
         count_eq v row
         <= snd (if c <? count_eq s row then (s, count_eq s row) else (m, c))) /\
      (forall v,
         v < fst (if c <? count_eq s row then (s, count_eq s row) else (m, c)) ->
         count_eq v row
         < snd (if c <? count_eq s row then (s, count_eq s row) else (m, c)))).
    { destruct (Nat.ltb_spec c (count_eq s row)) as [Hlt|Hge]; simpl.
      - destruct Inv as [[-> [-> ->]]|[Hs [Hm [Hc [Hall Hmin]]]]].
        + split; [lia|]. split; [lia|]. split; [reflexivity|]. split.
          * intros v Hv. assert (v = 0) by lia. subst. lia.
          * intros v Hv. lia.
        + split; [lia|]. split; [lia|]. split; [reflexivity|]. split.
          * intros v Hv. destruct (Nat.eq_dec v s) as [->|Hne]; [lia|].
            specialize (Hall v). lia.
          * intros v Hv. specialize (Hall v). lia.
      - destruct Inv as [[-> [-> ->]]|[Hs [Hm [Hc [Hall Hmin]]]]].
        + split; [lia|]. split; [lia|]. split; [lia|]. split.
          * intros v Hv. assert (v = 0) by lia. subst. lia.
          * intros v Hv. lia.
        + split; [lia|]. split; [lia|]. split; [exact Hc|]. split.
          * intros v Hv. destruct (Nat.eq_dec v s) as [->|Hne]; [lia|].
            specialize (Hall v). lia.
          * exact Hmin. }
    destruct (if c <? count_eq s row then (s, count_eq s row) else (m, c))
      as [m' c'].
    apply IH. right. exact Step.
Qed.

Lemma count_eq_above_max (v : nat) (row : list nat) :
  list_max row < v -> count_eq v row = 0.
Proof.
  induction row as [|x row IH]; simpl; intros H; [reflexivity|].
  rewrite count_eq_cons. destruct (Nat.eqb_spec x v); [lia|].
  apply IH. lia.
Qed.

(** The mode is a most frequent value, the smallest one, and the count is its
    number of occurrences; it is at most the largest value of the row. *)
Lemma stats_mode_spec (row : list nat) :
  snd (stats_mode row) = count_eq (fst (stats_mode row)) row /\
  (forall v, count_eq v row <= snd (stats_mode row)) /\
  (forall v, v < fst (stats_mode row) -> count_eq v row < snd (stats_mode row)) /\
  fst (stats_mode row) <= list_max row.
Proof.
  unfold stats_mode, range.
  pose proof (@stats_mode_fold row (S (list_max row)) 0 0 0) as H.
  cbv zeta in H. destruct H as [[H _]|[_ [Hm [Hc [Hall Hmin]]]]].
  - left. auto.
  - lia.
  - split; [exact Hc|]. split; [|split; [exact Hmin|lia]].
    intros v. destruct (Nat.lt_ge_cases v (S (list_max row))) as [Hv|Hv].
    + apply Hall. exact Hv.
    + rewrite count_eq_above_max by lia. lia.
Qed.

(** ** restPartitionAdjuster: the stages of a run that returns *)

Lemma combine_seq_nth_error {A : Type} (l : list A) (s i : nat) :
  nth_error (combine (seq s (length l)) l) i
  = option_map (fun x => (s + i, x)) (nth_error l i).
Proof.
  revert s i. induction l as [|x l IH]; intros s [|i]; simpl; try reflexivity.
  - rewrite Nat.add_0_r. reflexivity.
  - rewrite IH. destruct (nth_error l i); simpl; [|reflexivity].
    do 2 f_equal. lia.
Qed.

Ltac inv_bind H :=
  match type of H with
  | bind ?c _ = Ok _ =>
      let E := fresh "E" in
      destruct c eqn:E; simpl in H; [|discriminate H]
  end.

Section RestRun.
Context {F : Type} {AF : Arith F}.
Variables (arctanh_libm tanh_libm : F -> F) (argsort : argsort_t).
Variables (fcArray : conn3 (F := F)) (netBoundaries : list boundary)
          (nodeOrder : list nat).

Definition rest_modes (restPreferences : list (list nat)) : list (nat * nat) :=
  if nodes3 fcArray * subjs3 fcArray =? 0 then []
  else map stats_mode restPreferences.

Lemma restPartitionAdjuster_inv (out : rest_outputs) :
  restPartitionAdjuster arctanh_libm tanh_libm argsort fcArray netBoundaries
    nodeOrder = Ok out ->
  exists restMode,
    rest_preferences arctanh_libm tanh_libm argsort fcArray netBoundaries nodeOrder
    = Ok (restPreferences out) /\
    rest_agreement (nodes3 fcArray) (subjs3 fcArray)
      (rest_modes (restPreferences out))
    = Ok (percentAgree out, restMode) /\
    rest_consensus netBoundaries (percentAgree out) restMode (nodes3 fcArray)
    = Ok (restConsensus out) /\
    nodeIndicesNew out = np_sort (restConsensus out) /\
    nodeOrderNew out = argsort Nat.ltb (restConsensus out) /\
    rebuild_boundaries (length netBoundaries) (nodeIndicesNew out)
    = Ok (netBoundariesNew out).
Proof.
  unfold restPartitionAdjuster. fold rest_modes. intros H.
  inv_bind H. rename a into rp.
  inv_bind H. destruct a as [pa rm].
  inv_bind H. rename a into rc.
  inv_bind H. rename a into bnew.
  injection H as <-. simpl. exists rm. repeat split; assumption.
Qed.

(** The boundaries come in order and do not overlap. *)
Definition ordered_ranges (bs : list boundary) : Prop :=
  forall k1 k2 b1 b2,
    k1 < k2 -> nth_error bs k1 = Some b1 -> nth_error bs k2 = Some b2 ->
    b_end b1 < b_start b2.

Lemma consensus_at (pa : list F) (rm rc : list nat) (n : nat)
  (netNum : nat) (netB : boundary) (nodeNum : nat) :
  rest_consensus netBoundaries pa rm n = Ok rc ->
  length pa = n ->
  ordered_ranges netBoundaries ->
  nth_error netBoundaries netNum = Some netB ->
  in_range nodeNum netB ->
  exists x old, nth_error pa nodeNum = Some x /\
                nth nodeNum rc 0 = decided rm netNum nodeNum old x.
Proof.
  intros H Hlen Hord Hb Hin. rewrite rest_consensus_unfold in H.
  assert (Hnb : nth_error (combine (range (length netBoundaries)) netBoundaries)
                  netNum = Some (netNum, netB)).
  { unfold range. rewrite combine_seq_nth_error, Hb. reflexivity. }
  destruct (nth_error_split _ _ Hnb) as [l1 [l2 [Hsplit Hl1]]].
  rewrite Hsplit in H.
  eapply networks_last in H; try eassumption.
  - rewrite repeat_length. congruence.
  - intros [k' b'] Hin' Hr. simpl in Hr.
    apply In_nth_error in Hin'. destruct Hin' as [j Hj].
    assert (Hj' : nth_error (combine (range (length netBoundaries)) netBoundaries)
                    (netNum + 1 + j) = Some (k', b')).
    { rewrite Hsplit, nth_error_app2 by lia.
      replace (netNum + 1 + j - length l1) with (S j) by lia. exact Hj. }
    unfold range in Hj'. rewrite combine_seq_nth_error in Hj'.
    destruct (nth_error netBoundaries (netNum + 1 + j)) as [b''|] eqn:Hb'';
      [|discriminate].
    simpl in Hj'. injection Hj' as <- <-.
    assert (Hlt : b_end netB < b_start b'').
    { apply (Hord netNum (netNum + 1 + j)); [lia|assumption|assumption]. }
    unfold in_range in *. lia.
Qed.

End RestRun.

(** Six nodes in two networks of three, one subject; every row has a single
    entry 1 and zeros elsewhere ([fcArray[i,j,0]] is row [i], column [j]).
    The entries are 0 and 1 only, where [np.arctanh] and [np.tanh] take the
    values fixed by the standard, so the libm argument is never consulted. *)
Definition two_triples : list boundary := [mk_boundary 0 2 3; mk_boundary 3 5 3].

Definition six_nodes : conn3 (F := float) :=
  mk_conn3 1
    (map (map (fun x : float => [x]))
       [[0; 0; 0; 1; 0; 0];
        [1; 0; 0; 0; 0; 0];
        [0; 1; 0; 0; 0; 0];
        [0; 0; 0; 0; 1; 0];
        [0; 0; 0; 0; 0; 1];
        [0; 0; 0; 1; 0; 0]]%float).

Definition no_libm (x : float) : float := x.

(** C3.  When [restPartitionAdjuster] returns and the rows of [netBoundaries]
    come in order without overlap, then for every node of the range of network
    [netNum]: [percentAgree] is the count of the node's modal preference over
    the number of subjects; if it is below 0.5 the consensus of the node is
    [netNum], its original network; if it is not, and is at least 0.5, the
    consensus is the modal preference. *)
Theorem consensus_decision_rule :
  forall (F : Type) (AF : Arith F) (arctanh_libm tanh_libm : F -> F)
         (argsort : argsort_t) (fcArray : conn3) (netBoundaries : list boundary)
         (nodeOrder : list nat) (out : rest_outputs)
         (netNum : nat) (netB : boundary) (nodeNum : nat),
    restPartitionAdjuster arctanh_libm tanh_libm argsort fcArray netBoundaries
      nodeOrder = Ok out ->
    ordered_ranges netBoundaries ->
    nth_error netBoundaries netNum = Some netB ->
    in_range nodeNum netB ->
    let votes := nth nodeNum (restPreferences out) [] in
    let agree := fdiv (of_nat (snd (stats_mode votes))) (of_nat (subjs3 fcArray)) in
    nth_error (percentAgree out) nodeNum = Some agree /\
    snd (stats_mode votes) = count_eq (fst (stats_mode votes)) votes /\
    (forall v, count_eq v votes <= snd (stats_mode votes)) /\
    (fltb agree lit_0_5 = true -> nth nodeNum (restConsensus out) 0 = netNum) /\
    (fltb agree lit_0_5 = false -> fleb lit_0_5 agree = true ->
     nth nodeNum (restConsensus out) 0 = fst (stats_mode votes)).
Proof.
  intros F AF arctanh_libm tanh_libm argsort fcArray netBoundaries nodeOrder out
         netNum netB nodeNum Hrun Hord Hb Hin votes agree.
  apply restPartitionAdjuster_inv in Hrun.
  destruct Hrun as [rm [Hrp [Hag [Hrc _]]]].
  apply rest_agreement_spec in Hag. destruct Hag as [Hlpa [Hlrm Hag]].
  edestruct consensus_at as [x [old [Hx Hdec]]];
    [exact Hrc|exact Hlpa|exact Hord|exact Hb|exact Hin|].
  assert (Hnode : nodeNum < nodes3 fcArray).
  { rewrite <- Hlpa. apply nth_error_Some. congruence. }
  destruct (Hag nodeNum Hnode) as [m [c [Hmode [Hpa Hrm]]]].
  assert (Hmc : stats_mode votes = (m, c)).
  { unfold rest_modes in Hmode.
    destruct (nodes3 fcArray * subjs3 fcArray =? 0).
    - destruct nodeNum; discriminate.
    - rewrite nth_error_map in Hmode.
      destruct (nth_error (restPreferences out) nodeNum) as [row|] eqn:Hrow;
        [|discriminate].
      simpl in Hmode. injection Hmode as Hmode.
      unfold votes. rewrite (nth_error_nth _ _ _ Hrow). exact Hmode. }
  assert (Hagree : x = agree).
  { apply nth_error_nth with (d := f0) in Hx. unfold agree.
    rewrite Hmc. simpl. congruence. }
  subst x.
  destruct (stats_mode_spec votes) as [Hcnt [Hmax _]].
  split; [exact Hx|]. split; [exact Hcnt|]. split; [exact Hmax|].
  unfold decided in Hdec. split.
  - intros Hlt. rewrite Hlt in Hdec. exact Hdec.
  - intros Hlt Hge. rewrite Hlt, Hge in Hdec. rewrite Hdec, Hrm, Hmc. reflexivity.
Qed.

Lemma ordered_two_triples : ordered_ranges two_triples.
Proof.
  intros k1 k2 b1 b2 Hlt H1 H2.
  destruct k1 as [|[|k1]], k2 as [|[|k2]]; simpl in *; try lia;
    try discriminate.
  - injection H1 as <-. injection H2 as <-. simpl. lia.
  - destruct k2; discriminate.
  - destruct k2; discriminate.
  - destruct k1; discriminate.
Qed.

Lemma consensus_decision_rule_witness :
  exists out : rest_outputs,
    restPartitionAdjuster no_libm no_libm argsort_stable six_nodes two_triples
      (range 6) = Ok out /\
    (let votes := nth 0 (restPreferences out) [] in
     let agree := fdiv (of_nat (snd (stats_mode votes))) (of_nat (subjs3 six_nodes)) in
     nth_error (percentAgree out) 0 = Some agree /\
     snd (stats_mode votes) = count_eq (fst (stats_mode votes)) votes /\
     (forall v, count_eq v votes <= snd (stats_mode votes)) /\
     (fltb agree lit_0_5 = true -> nth 0 (restConsensus out) 0 = 0) /\
     (fltb agree lit_0_5 = false -> fleb lit_0_5 agree = true ->
      nth 0 (restConsensus out) 0 = fst (stats_mode votes))).
Proof.
  eexists. split; [vm_compute; reflexivity|].
  apply (@consensus_decision_rule float binary64 no_libm no_libm argsort_stable
           six_nodes two_triples (range 6) _ 0 (mk_boundary 0 2 3) 0).
  - vm_compute. reflexivity.
  - exact ordered_two_triples.
  - reflexivity.
  - unfold in_range. simpl. lia.
Defined.

(** ** Sorting *)

Lemma insert_sorted_perm (x : nat) (l : list nat) :
  Permutation (x :: l) (insert_sorted x l).
Proof.
  induction l as [|y l IH]; simpl; [reflexivity|].
  destruct (x <=? y); [reflexivity|].
  rewrite perm_swap. apply perm_skip. exact IH.
Qed.

Lemma np_sort_perm (l : list nat) : Permutation l (np_sort l).
Proof.
  induction l as [|x l IH]; simpl; [reflexivity|].
  rewrite <- insert_sorted_perm. apply perm_skip. exact IH.
Qed.

Lemma insert_sorted_sorted (x : nat) (l : list nat) :
  StronglySorted le l -> StronglySorted le (insert_sorted x l).
Proof.
  induction 1 as [|y l Hs IH Hy]; simpl.
  - repeat constructor.
  - destruct (Nat.leb_spec x y).
    + constructor; [constructor; assumption|].
      constructor; [assumption|].
      eapply Forall_impl; [|exact Hy]. intros z Hz. lia.
    + constructor; [exact IH|].
      eapply Permutation_Forall; [apply insert_sorted_perm|].
      constructor; [lia|exact Hy].
Qed.

Lemma np_sort_sorted (l : list nat) : StronglySorted le (np_sort l).
Proof.
  induction l as [|x l IH]; simpl; [constructor|].
  apply insert_sorted_sorted. exact IH.
Qed.

Lemma np_sort_id (l : list nat) : StronglySorted le l -> np_sort l = l.
Proof.
  induction 1 as [|x l Hs IH Hx]; simpl; [reflexivity|].
  rewrite IH. destruct l as [|y l]; simpl; [reflexivity|].
  inversion Hx; subst. destruct (Nat.leb_spec x y); [reflexivity|lia].
Qed.

(** A sorted list is determined by its elements. *)
Lemma sorted_perm_unique (l1 l2 : list nat) :
  StronglySorted le l1 -> StronglySorted le l2 -> Permutation l1 l2 -> l1 = l2.
Proof.
  intros H1. revert l2. induction H1 as [|x l1 Hs1 IH Hx]; intros l2 H2 Hp.
  - apply Permutation_nil in Hp. congruence.
  - destruct l2 as [|y l2].
    + apply Permutation_sym, Permutation_nil in Hp. discriminate.
    + inversion H2 as [|? ? Hs2 Hy]; subst.
      assert (Exy : x = y).
      { assert (Hin1 : In y (x :: l1))
          by (eapply Permutation_in; [apply Permutation_sym; exact Hp|left; reflexivity]).
        assert (Hin2 : In x (y :: l2))
          by (eapply Permutation_in; [exact Hp|left; reflexivity]).
        rewrite Forall_forall in Hx, Hy.
        destruct Hin1 as [E|Hin1]; [congruence|].
        destruct Hin2 as [E|Hin2]; [congruence|].
        specialize (Hx y Hin1). specialize (Hy x Hin2). lia. }
      subst y. f_equal. apply IH; [exact Hs2|].
      eapply Permutation_cons_inv. exact Hp.
Qed.

Lemma sorted_of_pairwise (l : list nat) :
  (forall i j, i < j < length l -> nth i l 0 <= nth j l 0) ->
  StronglySorted le l.
Proof.
  induction l as [|x l IH]; intros H; constructor.
  - apply IH. intros i j Hij. apply (H (S i) (S j)). simpl. lia.
  - rewrite Forall_forall. intros y Hy.
    apply In_nth with (d := 0) in Hy. destruct Hy as [j [Hj <-]].
    apply (H 0 (S j)). simpl. lia.
Qed.

Lemma sorted_nth {A : Type} (R : A -> A -> Prop) (l : list A) (d : A) (i j : nat) :
  StronglySorted R l -> i < j < length l -> R (nth i l d) (nth j l d).
Proof.
  intros H. revert i j. induction H as [|x l Hs IH Hx]; intros i j Hij;
    simpl in Hij; [lia|].
  destruct i as [|i], j as [|j]; try lia; simpl.
  - rewrite Forall_forall in Hx. apply Hx. apply nth_In. lia.
  - apply IH. lia.
Qed.

(** *** Counting *)

Definition count_lt (k : nat) (l : list nat) : nat :=
  length (filter (fun x => x <? k) l).

Lemma count_lt_cons (k x : nat) (l : list nat) :
  count_lt k (x :: l) = (if x <? k then 1 else 0) + count_lt k l.
Proof. unfold count_lt. simpl. destruct (x <? k); reflexivity. Qed.

Lemma count_eq_perm (k : nat) (l l' : list nat) :
  Permutation l l' -> count_eq k l = count_eq k l'.
Proof.
  induction 1; rewrite ?count_eq_cons; lia.
Qed.

Lemma count_lt_perm (k : nat) (l l' : list nat) :
  Permutation l l' -> count_lt k l = count_lt k l'.
Proof.
  induction 1; rewrite ?count_lt_cons; lia.
Qed.

Lemma count_eq_zero (k : nat) (l : list nat) :
  count_eq k l = 0 <-> ~ In k l.
Proof.
  induction l as [|x l IH]; simpl.
  - split; [intros _ []|reflexivity].
  - rewrite count_eq_cons. destruct (Nat.eqb_spec x k); split; intros H.
    + discriminate.
    + exfalso. apply H. left. assumption.
    + intros [E|Hin]; [contradiction|]. apply IH in Hin; [exact Hin|exact H].
    + apply IH. intros Hin. apply H. right. exact Hin.
Qed.

Lemma count_lt_succ (k : nat) (l : list nat) :
  count_lt (S k) l = count_lt k l + count_eq k l.
Proof.
  induction l as [|x l IH]; [reflexivity|].
  rewrite !count_lt_cons, count_eq_cons, IH.
  destruct (Nat.ltb_spec x (S k)), (Nat.ltb_spec x k), (Nat.eqb_spec x k); lia.
Qed.

Lemma count_lt_all (k : nat) (l : list nat) :
  Forall (fun x => x < k) l -> count_lt k l = length l.
Proof.
  induction 1 as [|x l Hx H IH]; [reflexivity|].
  rewrite count_lt_cons, IH. simpl.
  destruct (Nat.ltb_spec x k); lia.
Qed.

(** *** The positions of a value in a sorted vector *)

Lemma where_eq_cons (x k : nat) (l : list nat) :
  where_eq (x :: l) k
  = (if x =? k then [0] else []) ++ map S (where_eq l k).
Proof.
  unfold where_eq, range. simpl length. simpl seq. simpl filter.
  rewrite <- seq_shift, filter_map_swap.
  destruct (x =? k); reflexivity.
Qed.

Lemma where_eq_sorted (k : nat) (l : list nat) :
  StronglySorted le l ->
  where_eq l k = seq (count_lt k l) (count_eq k l).
Proof.
  induction 1 as [|x l Hs IH Hx]; [reflexivity|].
  rewrite where_eq_cons, count_lt_cons, count_eq_cons, IH.
  destruct (Nat.eqb_spec x k) as [->|Hne].
  - assert (E : count_lt k l = 0).
    { unfold count_lt. clear IH Hs. induction Hx as [|y l Hy Hx IH]; [reflexivity|].
      simpl. destruct (Nat.ltb_spec y k); [lia|exact IH]. }
    rewrite E. rewrite Nat.ltb_irrefl. simpl. f_equal. apply seq_shift.
  - destruct (Nat.ltb_spec x k) as [Hlt|Hge]; simpl.
    + apply seq_shift.
    + assert (E : count_eq k l = 0).
      { apply count_eq_zero. intros Hin. rewrite Forall_forall in Hx.
        specialize (Hx k Hin). lia. }
      rewrite E. reflexivity.
Qed.

Lemma where_eq_np_sort (k : nat) (l : list nat) :
  where_eq (np_sort l) k = seq (count_lt k l) (count_eq k l).
Proof.
  rewrite where_eq_sorted by apply np_sort_sorted.
  rewrite <- (count_lt_perm k (np_sort_perm l)),
          <- (count_eq_perm k (np_sort_perm l)).
  reflexivity.
Qed.

(** ** Invariants of loops *)

Lemma for_invariant {A S : Type} (P : S -> Prop) (xs : list A)
  (body : A -> S -> result S) (s s' : S) :
  (forall x t t', In x xs -> body x t = Ok t' -> P t -> P t') ->
  P s -> for_ xs body s = Ok s' -> P s'.
Proof.
  revert s. induction xs as [|x xs IH]; intros s Hbody Hs H; simpl in H.
  - injection H as <-. exact Hs.
  - destruct (body x s) as [t|e] eqn:Hx; simpl in H; [|discriminate].
    apply (IH t); [| |exact H].
    + intros y u u' Hy. apply Hbody. right. exact Hy.
    + apply (Hbody x s t); [left; reflexivity|exact Hx|exact Hs].
Qed.

Lemma for_total {A S : Type} (P : S -> Prop) (xs : list A)
  (body : A -> S -> result S) (s : S) :
  (forall x t, In x xs -> P t -> exists t', body x t = Ok t' /\ P t') ->
  P s -> exists s', for_ xs body s = Ok s' /\ P s'.
Proof.
  revert s. induction xs as [|x xs IH]; intros s Hbody Hs; simpl.
  - exists s. split; [reflexivity|exact Hs].
  - destruct (Hbody x s) as [t [Hx Ht]]; [left; reflexivity|exact Hs|].
    rewrite Hx. simpl. apply IH; [|exact Ht].
    intros y u Hy. apply Hbody. right. exact Hy.
Qed.

Lemma mapM_Raise {A B : Type} (f : A -> result B) (xs : list A) (e : exn) :
  mapM f xs = Raise e -> exists x, In x xs /\ f x = Raise e.
Proof.
  induction xs as [|x xs IH]; simpl; [discriminate|].
  destruct (f x) as [y|e'] eqn:Hx; simpl.
  - destruct (mapM f xs) as [ys|e']; simpl; [discriminate|].
    intros H. injection H as ->. destruct IH as [x' [Hin Hx']]; [reflexivity|].
    exists x'. split; [right; exact Hin|exact Hx'].
  - intros H. injection H as ->. exists x. split; [left; reflexivity|exact Hx].
Qed.

Lemma Forall_upd {A : Type} (P : A -> Prop) (i : nat) (v : A) (l : list A) :
  P v -> Forall P l -> Forall P (upd i v l).
Proof.
  intros Hv H. revert i. induction H as [|x l Hx H IH]; intros [|i]; simpl;
    constructor; auto.
Qed.

(** ** The rebuilt boundaries *)

Lemma last_seq (a c d : nat) : last (a :: seq (S a) c) d = a + c.
Proof.
  revert a. induction c as [|c IH]; intros a; [simpl; lia|].
  change (last (a :: seq (S a) (S c)) d) with (last (S a :: seq (S (S a)) c) d).
  rewrite IH. lia.
Qed.

Definition rebuilt (rc : list nat) (k : nat) : boundary :=
  {| b_start := count_lt k rc;
     b_end := count_lt k rc + count_eq k rc - 1;
     b_size := count_eq k rc |}.

Lemma rebuild_one (rc : list nat) (k : nat) :
  (match where_eq (np_sort rc) k with
   | [] => Raise ValueError
   | lo :: _ =>
       let hi := last (where_eq (np_sort rc) k) lo in
       let valVec := range2 lo (hi + 1) in
       let sampSize := length valVec in
       Ok {| b_start := lo; b_end := hi; b_size := sampSize |}
   end)
  = if count_eq k rc =? 0 then Raise ValueError else Ok (rebuilt rc k).
Proof.
  rewrite where_eq_np_sort. destruct (count_eq k rc) as [|c] eqn:E;
    [reflexivity|].
  simpl seq. cbv beta iota zeta. rewrite last_seq.
  unfold rebuilt, range2. rewrite length_seq, E.
  simpl. f_equal. f_equal; lia.
Qed.

Lemma rebuild_boundaries_Ok (K : nat) (rc : list nat) (bnew : list boundary) :
  rebuild_boundaries K (np_sort rc) = Ok bnew ->
  bnew = map (rebuilt rc) (range K) /\
  forall k, k < K -> 0 < count_eq k rc.
Proof.
  unfold rebuild_boundaries. intros H. apply mapM_Ok in H.
  assert (G : Forall2 (fun k b => 0 < count_eq k rc /\ b = rebuilt rc k)
                      (range K) bnew).
  { eapply Forall2_impl; [|exact H]. intros k b Hk. simpl in Hk.
    rewrite rebuild_one in Hk.
    destruct (count_eq k rc) eqn:E; simpl in Hk; [discriminate|].
    injection Hk as <-. split; [lia|reflexivity]. }
  clear H. split.
  - induction G as [|k b ks bs [_ ->] G IH]; simpl; [reflexivity|].
    f_equal. exact IH.
  - intros k Hk.
    assert (Hin : In k (range K)) by (apply in_seq; lia).
    clear Hk. induction G as [|k' b ks bs [Hpos _] G IH]; [contradiction|].
    destruct Hin as [->|Hin]; [exact Hpos|apply IH; exact Hin].
Qed.

Lemma rebuild_boundaries_total (K : nat) (rc : list nat) :
  (forall k, k < K -> 0 < count_eq k rc) ->
  rebuild_boundaries K (np_sort rc) = Ok (map (rebuilt rc) (range K)).
Proof.
  intros H. unfold rebuild_boundaries. apply mapM_total.
  intros k Hk. apply in_seq in Hk. rewrite rebuild_one.
  specialize (H k). destruct (count_eq k rc); [lia|reflexivity].
Qed.

Lemma rebuild_boundaries_Raise (K : nat) (rc : list nat) (e : exn) :
  rebuild_boundaries K (np_sort rc) = Raise e ->
  e = ValueError /\ exists k, k < K /\ count_eq k rc = 0.
Proof.
  unfold rebuild_boundaries. intros H. apply mapM_Raise in H.
  destruct H as [k [Hk H]]. apply in_seq in Hk. rewrite rebuild_one in H.
  destruct (count_eq k rc) eqn:E; simpl in H; [|discriminate].
  injection H as <-. split; [reflexivity|]. exists k. split; [lia|exact E].
Qed.

(** ** The two insertion argsorts meet the contract *)

Section InsertionArgsort.
Context {A : Type}.
Variables (lt before : A -> A -> bool).
Hypothesis lt_strict_weak : strict_weak lt.
(** An index goes before an entry only if it is not larger, and after an entry
    only if it is not smaller. *)
Hypothesis before_ok : forall a b, before a b = true -> lt b a = false.
Hypothesis after_ok : forall a b, before a b = false -> lt a b = false.

Definition not_after (x y : nat * A) : Prop := lt (snd y) (snd x) = false.

Lemma insert_index_perm (x : nat * A) (l : list (nat * A)) :
  Permutation (x :: l) (insert_index before x l).
Proof.
  induction l as [|y l IH]; simpl; [reflexivity|].
  destruct (before (snd x) (snd y)); [reflexivity|].
  rewrite perm_swap. apply perm_skip. exact IH.
Qed.

Lemma insert_index_sorted (x : nat * A) (l : list (nat * A)) :
  StronglySorted not_after l -> StronglySorted not_after (insert_index before x l).
Proof.
  destruct lt_strict_weak as [_ Htrans].
  induction 1 as [|y l Hs IH Hy]; simpl.
  - repeat constructor.
  - destruct (before (snd x) (snd y)) eqn:Hb.
    + constructor; [constructor; assumption|].
      constructor; [apply before_ok; exact Hb|].
      eapply Forall_impl; [|exact Hy]. intros z Hz. unfold not_after in *.
      eapply Htrans; [|exact Hz]. apply before_ok. exact Hb.
    + constructor; [exact IH|].
      eapply Permutation_Forall; [apply insert_index_perm|].
      constructor; [|exact Hy]. unfold not_after. apply after_ok. exact Hb.
Qed.

Lemma insertion_fold_perm (xs acc : list (nat * A)) :
  Permutation (xs ++ acc)
              (fold_left (fun acc x => insert_index before x acc) xs acc).
Proof.
  revert acc. induction xs as [|x xs IH]; intros acc; simpl; [reflexivity|].
  rewrite <- IH, <- insert_index_perm. apply Permutation_middle.
Qed.

Lemma insertion_fold_sorted (xs acc : list (nat * A)) :
  StronglySorted not_after acc ->
  StronglySorted not_after
    (fold_left (fun acc x => insert_index before x acc) xs acc).
Proof.
  revert acc. induction xs as [|x xs IH]; intros acc Hacc; simpl; [exact Hacc|].
  apply IH. apply insert_index_sorted. exact Hacc.
Qed.

Lemma map_fst_combine {B C : Type} (l1 : list B) (l2 : list C) :
  length l1 = length l2 -> map fst (combine l1 l2) = l1.
Proof.
  revert l2. induction l1 as [|x l1 IH]; intros [|y l2] H; simpl in *;
    try reflexivity; try discriminate.
  f_equal. apply IH. lia.
Qed.

Lemma insertion_argsort_perm (v : list A) :
  Permutation (insertion_argsort before v) (range (length v)).
Proof.
  unfold insertion_argsort.
  rewrite <- (insertion_fold_perm (combine (range (length v)) v) []).
  rewrite app_nil_r, map_fst_combine; [reflexivity|].
  unfold range. apply length_seq.
Qed.

Lemma insertion_argsort_sorted (d : A) (v : list A) (i j : nat) :
  i < j < length v ->
  lt (nth (nth j (insertion_argsort before v) 0) v d)
     (nth (nth i (insertion_argsort before v) 0) v d) = false.
Proof.
  intros Hij. unfold insertion_argsort.
  pose proof (insertion_fold_perm (combine (range (length v)) v) []) as Hp.
  assert (Hs := insertion_fold_sorted (combine (range (length v)) v)
                  (SSorted_nil not_after)).
  set (ps := fold_left (fun acc x => insert_index before x acc)
                       (combine (range (length v)) v) []) in *.
  rewrite app_nil_r in Hp.
  assert (Hlen : length ps = length v).
  { rewrite <- (Permutation_length Hp), length_combine. unfold range.
    rewrite length_seq. lia. }
  assert (Hval : Forall (fun pr => snd pr = nth (fst pr) v d) ps).
  { eapply Permutation_Forall; [exact Hp|].
    rewrite Forall_forall. intros [k x] Hin. simpl.
    apply In_nth with (d := (0, d)) in Hin. destruct Hin as [p [Hp' Hnth]].
    rewrite length_combine in Hp'. unfold range in Hp', Hnth.
    rewrite length_seq in Hp'.
    rewrite combine_nth in Hnth by apply length_seq.
    rewrite seq_nth in Hnth by lia. injection Hnth as <- <-. reflexivity. }
  rewrite Forall_forall in Hval.
  rewrite !nth_map_lt with (d' := (0, d)) by lia.
  rewrite <- !Hval by (apply nth_In; lia).
  apply (sorted_nth (0, d) Hs). lia.
Qed.

End InsertionArgsort.

Lemma argsort_stable_contract : argsort_contract argsort_stable.
Proof.
  constructor.
  - intros A lt v. apply insertion_argsort_perm.
  - intros A lt d v Hsw i j Hij. unfold argsort_stable.
    apply insertion_argsort_sorted; try assumption.
    + intros a b H. destruct Hsw as [Hasym _]. apply Hasym. exact H.
    + intros a b H. exact H.
Qed.

Lemma argsort_ties_reversed_contract : argsort_contract argsort_ties_reversed.
Proof.
  constructor.
  - intros A lt v. apply insertion_argsort_perm.
  - intros A lt d v Hsw i j Hij. unfold argsort_ties_reversed.
    apply insertion_argsort_sorted; try assumption.
    + intros a b H. apply negb_true_iff in H. exact H.
    + intros a b H. apply negb_false_iff in H.
      destruct Hsw as [Hasym _]. apply Hasym. exact H.
Qed.

Lemma ltb_strict_weak : strict_weak Nat.ltb.
Proof.
  split.
  - intros a b H. apply Nat.ltb_lt in H. apply Nat.ltb_ge. lia.
  - intros a b c H1 H2. apply Nat.ltb_ge in H1, H2. apply Nat.ltb_ge. lia.
Qed.

(** What the contract gives for the integer vector of consensus assignments:
    the sorted indices are a permutation, and reading the vector along them
    gives the sorted vector. *)
Lemma argsort_of_consensus (argsort : argsort_t) (rc : list nat) :
  argsort_contract argsort ->
  Permutation (argsort nat Nat.ltb rc) (range (length rc)) /\
  map (fun k => nth k rc 0) (argsort nat Nat.ltb rc) = np_sort rc.
Proof.
  intros [Hperm Hsorted]. split; [apply Hperm|].
  set (p := argsort nat Nat.ltb rc).
  assert (Hlen : length p = length rc).
  { unfold p. rewrite (Permutation_length (Hperm nat Nat.ltb rc)).
    unfold range. apply length_seq. }
  apply sorted_perm_unique.
  - apply sorted_of_pairwise. intros i j Hij. rewrite length_map in Hij.
    rewrite !nth_map_lt with (d' := 0) by lia.
    specialize (Hsorted nat Nat.ltb 0 rc ltb_strict_weak i j).
    fold p in Hsorted. apply Nat.ltb_ge. apply Hsorted. lia.
  - apply np_sort_sorted.
  - apply Permutation_trans with (l' := rc); [|apply np_sort_perm].
    apply Permutation_trans
      with (l' := map (fun k => nth k rc 0) (range (length rc))).
    + apply Permutation_map. apply Hperm.
    + replace (map (fun k => nth k rc 0) (range (length rc))) with rc;
        [reflexivity|].
      apply nth_ext with (d := 0) (d' := 0).
      * rewrite length_map. unfold range. rewrite length_seq. reflexivity.
      * intros k Hk.
        rewrite nth_map_lt with (d' := 0)
          by (unfold range; rewrite length_seq; exact Hk).
        unfold range. rewrite seq_nth by exact Hk. reflexivity.
Qed.

(** ** restPartitionAdjuster on well-formed inputs (C8) *)

Section RestTotal.
Context {F : Type} {AF : Arith F}.
Variables (arctanh_libm tanh_libm : F -> F) (argsort : argsort_t).
Hypothesis contract : argsort_contract argsort.
Variables (fcArray : conn3 (F := F)) (netBoundaries : list boundary)
          (nodeOrder : list nat).

(** The inputs the function is written for: at least one subject and one
    network, a node order of the array's length with indices of the array, and
    boundaries inside the array. *)
Definition wf_inputs : Prop :=
  0 < subjs3 fcArray /\
  0 < length netBoundaries /\
  length nodeOrder = nodes3 fcArray /\
  Forall (fun k => k < nodes3 fcArray) nodeOrder /\
  Forall (fun b => b_end b < nodes3 fcArray) netBoundaries.

Lemma rest_preference_lt (subjNum nodeNum p : nat) :
  rest_preference arctanh_libm tanh_libm argsort fcArray netBoundaries nodeOrder
    subjNum nodeNum = Ok p ->
  p < length netBoundaries.
Proof.
  unfold rest_preference. destruct (length nodeOrder <=? nodeNum); [discriminate|].
  cbv zeta.
  match goal with
  | |- context [rev (argsort ?lt ?v)] =>
      set (tempVec := v); set (ord := lt);
      pose proof (argsort_perm contract ord tempVec) as Hperm
  end.
  destruct (rev (argsort ord tempVec)) as [|q l] eqn:Hrev; [discriminate|].
  intros H. injection H as ->.
  assert (Hin : In p (argsort ord tempVec)).
  { apply in_rev. rewrite Hrev. left. reflexivity. }
  apply (Permutation_in _ Hperm) in Hin. unfold range in Hin.
  apply in_seq in Hin. unfold tempVec in Hin. rewrite length_map in Hin. lia.
Qed.

Lemma rest_preference_total (subjNum nodeNum : nat) :
  0 < length netBoundaries -> nodeNum < length nodeOrder ->
  exists p,
    rest_preference arctanh_libm tanh_libm argsort fcArray netBoundaries nodeOrder
      subjNum nodeNum = Ok p.
Proof.
  intros HK Hnode. unfold rest_preference.
  destruct (Nat.leb_spec (length nodeOrder) nodeNum); [lia|].
  cbv zeta.
  match goal with
  | |- context [rev (argsort ?lt ?v)] =>
      set (tempVec := v); set (ord := lt);
      pose proof (argsort_perm contract ord tempVec) as Hperm
  end.
  destruct (rev (argsort ord tempVec)) as [|q l] eqn:Hrev.
  - apply Permutation_length in Hperm. unfold range in Hperm.
    rewrite length_seq in Hperm. unfold tempVec in Hperm at 2.
    rewrite length_map in Hperm.
    rewrite <- length_rev, Hrev in Hperm. simpl in Hperm. lia.
  - exists q. reflexivity.
Qed.

Lemma forallb_Forall_lt (n : nat) (l : list nat) :
  Forall (fun k => k < n) l -> forallb (fun k => k <? n) l = true.
Proof.
  intros H. apply forallb_forall. rewrite Forall_forall in H.
  intros k Hk. apply Nat.ltb_lt. apply H. exact Hk.
Qed.

Lemma mapM_exists {A B : Type} (f : A -> result B) (xs : list A) :
  (forall x, In x xs -> exists y, f x = Ok y) -> exists ys, mapM f xs = Ok ys.
Proof.
  induction xs as [|x xs IH]; intros H; simpl.
  - exists []. reflexivity.
  - destruct (H x) as [y Hy]; [left; reflexivity|].
    destruct IH as [ys Hys]; [intros z Hz; apply H; right; exact Hz|].
    rewrite Hy, Hys. simpl. exists (y :: ys). reflexivity.
Qed.

Lemma rest_preferences_total :
  wf_inputs ->
  exists rp,
    rest_preferences arctanh_libm tanh_libm argsort fcArray netBoundaries nodeOrder
    = Ok rp.
Proof.
  intros [HS [HK [Hlen [Hord Hbs]]]]. unfold rest_preferences.
  rewrite (forallb_Forall_lt Hord). simpl.
  destruct (mapM_exists
              (fun subjNum : nat =>
                 mapM (rest_preference arctanh_libm tanh_libm argsort fcArray
                         netBoundaries nodeOrder subjNum)
                      (range (nodes3 fcArray)))
              (range (subjs3 fcArray))) as [cols Hcols].
  { intros subjNum _. apply mapM_exists. intros nodeNum Hn.
    unfold range in Hn. apply in_seq in Hn.
    apply rest_preference_total; [exact HK|lia]. }
  rewrite Hcols. simpl. eexists. reflexivity.
Qed.

Lemma rest_preferences_length (rp : list (list nat)) :
  rest_preferences arctanh_libm tanh_libm argsort fcArray netBoundaries nodeOrder
  = Ok rp ->
  length rp = nodes3 fcArray.
Proof.
  unfold rest_preferences. intros H. inv_bind H. injection H as <-.
  rewrite length_map. unfold range. apply length_seq.
Qed.

Lemma rest_consensus_total (pa : list F) (rm : list nat) :
  length pa = nodes3 fcArray ->
  Forall (fun b => b_end b < nodes3 fcArray) netBoundaries ->
  exists rc, rest_consensus netBoundaries pa rm (nodes3 fcArray) = Ok rc.
Proof.
  intros Hlen Hbs. rewrite rest_consensus_unfold.
  destruct (for_total (fun _ : list nat => True)
              (combine (range (length netBoundaries)) netBoundaries)
              (network_body pa rm) (repeat 0 (nodes3 fcArray))) as [rc [Hrc _]];
    [|exact I|exists rc; exact Hrc].
  intros [k b] rc Hin _. unfold network_body. simpl.
  apply in_combine_r in Hin. rewrite Forall_forall in Hbs.
  specialize (Hbs b Hin).
  apply (for_total (fun _ : list nat => True)); [|exact I].
  intros nodeNum rc' Hn _. unfold range2 in Hn. apply in_seq in Hn.
  unfold consensus_body.
  destruct (nth_error pa nodeNum) as [x|] eqn:Hx.
  - destruct (fltb x lit_0_5); [|destruct (fleb lit_0_5 x)]; eexists; split;
      try reflexivity; exact I.
  - apply nth_error_None in Hx. lia.
Qed.

End RestTotal.

(** Four nodes in two networks of two, one subject: every node's single edge
    leads into the second network, which leaves the first one empty. *)
Definition two_pairs : list boundary := [mk_boundary 0 1 2; mk_boundary 2 3 2].

Definition four_nodes : conn3 (F := float) :=
  mk_conn3 1
    (map (map (fun x : float => [x]))
       [[0; 0; 1; 0];
        [0; 0; 1; 0];
        [0; 0; 0; 1];
        [0; 0; 1; 0]]%float).

(** C8.  On well-formed inputs (and with an [argsort] that meets numpy's
    contract) the stages up to the consensus vector return, and the call
    raises, a ValueError, exactly when some network id below [numNets] is
    absent from the consensus vector; when every id occurs it returns, with
    this consensus vector. *)
Theorem empty_network_raises :
  forall (F : Type) (AF : Arith F) (arctanh_libm tanh_libm : F -> F)
         (argsort : argsort_t) (fcArray : conn3) (netBoundaries : list boundary)
         (nodeOrder : list nat),
    argsort_contract argsort ->
    wf_inputs fcArray netBoundaries nodeOrder ->
    let run := restPartitionAdjuster arctanh_libm tanh_libm argsort fcArray
                 netBoundaries nodeOrder in
    exists rp pa rm rc,
      rest_preferences arctanh_libm tanh_libm argsort fcArray netBoundaries
        nodeOrder = Ok rp /\
      rest_agreement (nodes3 fcArray) (subjs3 fcArray) (rest_modes fcArray rp)
      = Ok (pa, rm) /\
      rest_consensus netBoundaries pa rm (nodes3 fcArray) = Ok rc /\
      ((exists k, k < length netBoundaries /\ count_eq k rc = 0) <->
       (exists e, run = Raise e)) /\
      (forall e, run = Raise e -> e = ValueError) /\
      ((forall k, k < length netBoundaries -> 0 < count_eq k rc) <->
       (exists out, run = Ok out)) /\
      (forall out, run = Ok out -> restConsensus out = rc).
Proof.
  intros F AF arctanh_libm tanh_libm argsort fcArray netBoundaries nodeOrder
         Hc Hwf run.
  destruct (rest_preferences_total arctanh_libm tanh_libm Hc Hwf) as [rp Hrp].
  pose proof (rest_preferences_length _ _ _ _ _ _ Hrp) as Hlrp.
  destruct Hwf as [HS [HK [Hlen [Hord Hbs]]]].
  assert (Hn : 0 < nodes3 fcArray).
  { destruct netBoundaries as [|b bs]; [simpl in HK; lia|].
    inversion Hbs; subst. lia. }
  assert (Hmodes : rest_modes fcArray rp = map stats_mode rp).
  { unfold rest_modes.
    destruct (Nat.eqb_spec (nodes3 fcArray * subjs3 fcArray) 0) as [E|_];
      [|reflexivity].
    apply Nat.eq_mul_0 in E. lia. }
  destruct (@rest_agreement_total F AF (nodes3 fcArray) (subjs3 fcArray)
              (rest_modes fcArray rp)) as [pa [rm Hag]].
  { rewrite Hmodes, length_map. lia. }
  pose proof (rest_agreement_spec _ _ _ Hag) as [Hlpa _].
  destruct (rest_consensus_total fcArray pa rm Hlpa Hbs) as [rc Hrc].
  exists rp, pa, rm, rc.
  split; [exact Hrp|]. split; [exact Hag|]. split; [exact Hrc|].
  assert (Hrun : run
                 = (bnew <- rebuild_boundaries (length netBoundaries) (np_sort rc) ;;
                    Ok {| netBoundariesNew := bnew;
                          nodeOrderNew := argsort nat Nat.ltb rc;
                          restPreferences := rp;
                          percentAgree := pa;
                          restConsensus := rc;
                          nodeIndicesNew := np_sort rc |})).
  { unfold run, restPartitionAdjuster. rewrite Hrp. simpl.
    fold (rest_modes fcArray rp). rewrite Hag. simpl. rewrite Hrc. reflexivity. }
  rewrite Hrun.
  destruct (rebuild_boundaries (length netBoundaries) (np_sort rc))
    as [bnew|e] eqn:Hb; simpl.
  - apply rebuild_boundaries_Ok in Hb. destruct Hb as [_ Hpos].
    split; [|split; [|split]].
    + split.
      * intros [k [Hk E]]. specialize (Hpos k Hk). lia.
      * intros [e H]. discriminate H.
    + intros e H. discriminate H.
    + split; [intros _; eexists; reflexivity|intros _; exact Hpos].
    + intros out H. injection H as <-. reflexivity.
  - apply rebuild_boundaries_Raise in Hb. destruct Hb as [-> [k [Hk E]]].
    split; [|split; [|split]].
    + split; [intros _; eexists; reflexivity|].
      intros _. exists k. split; assumption.
    + intros e H. injection H as <-. reflexivity.
    + split.
      * intros Hpos. specialize (Hpos k Hk). lia.
      * intros [out H]. discriminate H.
    + intros out H. discriminate H.
Qed.

Lemma wf_four_nodes : wf_inputs four_nodes two_pairs (range 4).
Proof.
  unfold wf_inputs. simpl.
  repeat split; try lia; repeat constructor; simpl; lia.
Qed.

Lemma empty_network_raises_witness :
  restPartitionAdjuster no_libm no_libm argsort_stable four_nodes two_pairs
    (range 4) = Raise ValueError /\
  exists (rp : list (list nat)) (pa : list float) (rm rc : list nat),
    rest_preferences no_libm no_libm argsort_stable four_nodes two_pairs
      (range 4) = Ok rp /\
    rest_agreement (nodes3 four_nodes) (subjs3 four_nodes)
      (rest_modes four_nodes rp) = Ok (pa, rm) /\
    rest_consensus two_pairs pa rm (nodes3 four_nodes) = Ok rc /\
    ((exists k, k < length two_pairs /\ count_eq k rc = 0) <->
     (exists e, restPartitionAdjuster no_libm no_libm argsort_stable four_nodes
                  two_pairs (range 4) = Raise e)) /\
    (forall e, restPartitionAdjuster no_libm no_libm argsort_stable four_nodes
                 two_pairs (range 4) = Raise e -> e = ValueError) /\
    ((forall k, k < length two_pairs -> 0 < count_eq k rc) <->
     (exists out, restPartitionAdjuster no_libm no_libm argsort_stable
                    four_nodes two_pairs (range 4) = Ok out)) /\
    (forall out, restPartitionAdjuster no_libm no_libm argsort_stable
                   four_nodes two_pairs (range 4) = Ok out ->
                 restConsensus out = rc).
Proof.
  split; [vm_compute; reflexivity|].
  apply (@empty_network_raises float binary64 no_libm no_libm argsort_stable
           four_nodes two_pairs (range 4)).
  - exact argsort_stable_contract.
  - exact wf_four_nodes.
Defined.

(** ** Every consensus value is a network index *)

Lemma mapM_Forall {A B : Type} (P : B -> Prop) (f : A -> result B)
  (xs : list A) (ys : list B) :
  mapM f xs = Ok ys ->
  (forall x y, In x xs -> f x = Ok y -> P y) ->
  length ys = length xs /\ Forall P ys.
Proof.
  revert ys. induction xs as [|x xs IH]; simpl; intros ys H HP.
  - injection H as <-. split; [reflexivity|constructor].
  - destruct (f x) as [y|e] eqn:Hx; simpl in H; [|discriminate H].
    destruct (mapM f xs) as [ys'|e] eqn:Hxs; simpl in H; [|discriminate H].
    injection H as <-.
    destruct (IH ys' eq_refl) as [Hl Hf];
      [intros x' y' Hin; apply HP; right; exact Hin|].
    split; [simpl; congruence|].
    constructor; [apply (HP x); [left; reflexivity|exact Hx]|exact Hf].
Qed.

Lemma Forall_nth_lt (K : nat) (l : list nat) (i : nat) :
  Forall (fun p => p < K) l -> i < length l -> nth i l 0 < K.
Proof.
  intros H Hi. rewrite Forall_forall in H. apply H. apply nth_In. exact Hi.
Qed.

Section RestShape.
Context {F : Type} {AF : Arith F}.
Variables (arctanh_libm tanh_libm : F -> F) (argsort : argsort_t).
Hypothesis contract : argsort_contract argsort.
Variables (fcArray : conn3 (F := F)) (netBoundaries : list boundary)
          (nodeOrder : list nat).

Lemma rest_preferences_rows (rp : list (list nat)) :
  rest_preferences arctanh_libm tanh_libm argsort fcArray netBoundaries nodeOrder
  = Ok rp ->
  Forall (fun row => length row = subjs3 fcArray /\
                     Forall (fun p => p < length netBoundaries) row) rp.
Proof.
  unfold rest_preferences. intros H. inv_bind H. rename a into cols.
  injection H as <-.
  apply (mapM_Forall
           (fun col => length col = nodes3 fcArray /\
                       Forall (fun p => p < length netBoundaries) col)) in E.
  - destruct E as [Hlen Hcols]. unfold range in Hlen. rewrite length_seq in Hlen.
    rewrite Forall_forall. intros row Hrow. apply in_map_iff in Hrow.
    destruct Hrow as [nodeNum [<- Hnode]]. unfold range in Hnode.
    apply in_seq in Hnode. rewrite length_map. split; [exact Hlen|].
    rewrite Forall_forall. intros p Hp. apply in_map_iff in Hp.
    destruct Hp as [col [<- Hcol]]. rewrite Forall_forall in Hcols.
    destruct (Hcols col Hcol) as [Hl Hlt].
    apply Forall_nth_lt; [exact Hlt|lia].
  - intros subjNum col _ Hcol.
    destruct (negb (forallb (fun k => k <? nodes3 fcArray) nodeOrder));
      [discriminate Hcol|].
    apply (mapM_Forall (fun p => p < length netBoundaries)) in Hcol.
    + destruct Hcol as [Hl Hf]. unfold range in Hl. rewrite length_seq in Hl.
      split; assumption.
    + intros nodeNum p _ Hp. eapply rest_preference_lt; eassumption.
Qed.

Lemma stats_mode_lt (K : nat) (row : list nat) :
  row <> [] -> Forall (fun p => p < K) row -> fst (stats_mode row) < K.
Proof.
  intros Hne H. destruct (stats_mode_spec row) as [_ [_ [_ Hmax]]].
  apply (@list_max_lt row K Hne) in H. lia.
Qed.

Lemma consensus_lt (pa : list F) (rm rc : list nat) (n : nat) :
  0 < length netBoundaries ->
  Forall (fun p => p < length netBoundaries) rm ->
  length rm = n ->
  rest_consensus netBoundaries pa rm n = Ok rc ->
  Forall (fun p => p < length netBoundaries) rc.
Proof.
  intros HK Hrm Hlen H. rewrite rest_consensus_unfold in H.
  eapply (@for_invariant _ _ (fun rc => Forall (fun p => p < length netBoundaries) rc));
    [| |exact H].
  - intros [k b] t t' Hin Hbody Ht. unfold network_body in Hbody. simpl in Hbody.
    assert (Hk : k < length netBoundaries).
    { apply in_combine_l in Hin. unfold range in Hin. apply in_seq in Hin. lia. }
    eapply (@for_invariant _ _ (fun rc => Forall (fun p => p < length netBoundaries) rc));
      [|exact Ht|exact Hbody].
    intros nodeNum u u' _ Hu HPu. unfold consensus_body in Hu.
    destruct (nth_error pa nodeNum) as [x|]; [|discriminate Hu].
    destruct (fltb x lit_0_5); [|destruct (fleb lit_0_5 x)]; injection Hu as <-.
    + apply Forall_upd; assumption.
    + apply Forall_upd; [|assumption].
      destruct (Nat.lt_ge_cases nodeNum (length rm)) as [Hlt|Hge].
      * apply Forall_nth_lt; assumption.
      * rewrite nth_overflow by exact Hge. exact HK.
    + assumption.
  - rewrite Forall_forall. intros p Hp.
    apply repeat_spec in Hp. subst p. exact HK.
Qed.

Lemma consensus_below_numNets (out : rest_outputs) :
  restPartitionAdjuster arctanh_libm tanh_libm argsort fcArray netBoundaries
    nodeOrder = Ok out ->
  length (restConsensus out) = nodes3 fcArray /\
  Forall (fun p => p < length netBoundaries) (restConsensus out).
Proof.
  intros H. apply restPartitionAdjuster_inv in H.
  destruct H as [rm [Hrp [Hag [Hrc _]]]].
  pose proof (rest_agreement_spec _ _ _ Hag) as [Hlpa [Hlrm Hnodes]].
  assert (Hlen : length (restConsensus out) = nodes3 fcArray).
  { rewrite rest_consensus_unfold in Hrc.
    apply networks_unchanged in Hrc; [|rewrite repeat_length; congruence].
    destruct Hrc as [Hl _]. rewrite Hl. apply repeat_length. }
  split; [exact Hlen|].
  destruct (Nat.eq_dec (nodes3 fcArray) 0) as [E0|Hn].
  { rewrite E0 in Hlen. apply length_zero_iff_nil in Hlen. rewrite Hlen.
    constructor. }
  pose proof (rest_preferences_rows Hrp) as Hrows.
  pose proof (rest_preferences_length _ _ _ _ _ _ Hrp) as Hlrp.
  assert (Hmodes : forall i, i < nodes3 fcArray ->
             0 < subjs3 fcArray /\
             nth i rm 0 = fst (stats_mode (nth i (restPreferences out) []))).
  { intros i Hi. destruct (Hnodes i Hi) as [m [c [Hm [_ Hrm]]]].
    unfold rest_modes in Hm.
    destruct (nodes3 fcArray * subjs3 fcArray =? 0) eqn:E.
    - destruct i; discriminate Hm.
    - apply Nat.eqb_neq in E. split; [lia|].
      rewrite nth_error_map in Hm.
      destruct (nth_error (restPreferences out) i) as [row|] eqn:Hrow;
        [|discriminate Hm].
      simpl in Hm. rewrite (nth_error_nth _ _ _ Hrow), Hrm.
      injection Hm as Hm. rewrite Hm. reflexivity. }
  assert (Hrow : forall i, i < nodes3 fcArray ->
             nth i (restPreferences out) [] <> [] /\
             Forall (fun p => p < length netBoundaries)
                    (nth i (restPreferences out) [])).
  { intros i Hi. rewrite Forall_forall in Hrows.
    destruct (Hrows (nth i (restPreferences out) [])) as [Hl Hf];
      [apply nth_In; lia|].
    split; [|exact Hf]. destruct (Hmodes i Hi) as [HS _].
    intros E. rewrite E in Hl. simpl in Hl. lia. }
  assert (HK : 0 < length netBoundaries).
  { destruct (Hrow 0) as [Hne Hf]; [lia|].
    destruct (nth 0 (restPreferences out) []) as [|p row]; [congruence|].
    inversion Hf; subst. lia. }
  apply (@consensus_lt (percentAgree out) rm (restConsensus out) (nodes3 fcArray) HK);
    [|exact Hlrm|exact Hrc].
  rewrite Forall_forall. intros p Hp.
  destruct (In_nth _ _ 0 Hp) as [i [Hi <-]]. rewrite Hlrm in Hi.
  destruct (Hmodes i Hi) as [_ ->]. destruct (Hrow i Hi) as [Hne Hf].
  apply stats_mode_lt; assumption.
Qed.

End RestShape.

(** ** The rebuilt partition *)

Lemma count_lt_0 (l : list nat) : count_lt 0 l = 0.
Proof. unfold count_lt. induction l as [|x l IH]; [reflexivity|exact IH]. Qed.

(** [order] lists the nodes of each network in the order of the input: for
    every network id, the nodes of [order] with this id are those of
    [np.where(rc == k)], in increasing position. *)
Definition keeps_input_order (rc order : list nat) : Prop :=
  forall k, filter (fun n => nth n rc 0 =? k) order = where_eq rc k.




(** ** Partitions that a run leaves unchanged *)

(** The rows of [bs] tile the positions [s .. n-1] in order: each row starts
    where the one before it ended, is not empty, and carries its size. *)
Fixpoint contiguous_from (s : nat) (bs : list boundary) (n : nat) : Prop :=
  match bs with
  | [] => s = n
  | b :: bs' =>
      b_start b = s /\ s <= b_end b /\ b_size b = b_end b + 1 - s /\
      contiguous_from (b_end b + 1) bs' n
  end.

Definition contiguous_partition (bs : list boundary) (n : nat) : Prop :=
  contiguous_from 0 bs n.

Lemma contiguous_bounds (bs : list boundary) (s n : nat) :
  contiguous_from s bs n ->
  s <= n /\
  forall k b, nth_error bs k = Some b ->
              s <= b_start b /\ b_start b <= b_end b /\ b_end b < n /\
              b_size b = b_end b + 1 - b_start b.
Proof.
  revert s. induction bs as [|b0 bs IH]; simpl; intros s H.
  - split; [lia|]. intros [|k] b Hk; discriminate Hk.
  - destruct H as [Hs [Hle [Hsz Hrest]]]. destruct (IH _ Hrest) as [Hn Htail].
    split; [lia|]. intros [|k] b Hk; simpl in Hk.
    + injection Hk as <-. lia.
    + destruct (Htail k b Hk) as [H1 [H2 [H3 H4]]]. lia.
Qed.

Lemma contiguous_cover (bs : list boundary) (s n i : nat) :
  contiguous_from s bs n -> s <= i < n ->
  exists k b, nth_error bs k = Some b /\ in_range i b.
Proof.
  revert s. induction bs as [|b0 bs IH]; simpl; intros s H Hi.
  - lia.
  - destruct H as [Hs [Hle [Hsz Hrest]]].
    destruct (Nat.le_gt_cases i (b_end b0)) as [Hin|Hout].
    + exists 0, b0. split; [reflexivity|]. unfold in_range. lia.
    + destruct (IH _ Hrest) as [k [b [Hk Hb]]]; [lia|].
      exists (S k), b. split; assumption.
Qed.

Lemma contiguous_ordered (bs : list boundary) (s n : nat) :
  contiguous_from s bs n -> ordered_ranges bs.
Proof.
  revert s. induction bs as [|b0 bs IH]; simpl; intros s H k1 k2 b1 b2 Hlt H1 H2.
  - destruct k1; discriminate H1.
  - destruct H as [Hs [Hle [Hsz Hrest]]].
    destruct k2 as [|k2]; [lia|]. simpl in H2.
    destruct k1 as [|k1]; simpl in H1.
    + injection H1 as <-.
      destruct (contiguous_bounds _ _ _ Hrest) as [_ Hb].
      destruct (Hb k2 b2 H2) as [Hge _]. lia.
    + apply (IH _ Hrest k1 k2); [lia|assumption|assumption].
Qed.

Lemma filter_none {A : Type} (f : A -> bool) (l : list A) :
  (forall x, In x l -> f x = false) -> filter f l = [].
Proof.
  induction l as [|x l IH]; simpl; intros H; [reflexivity|].
  rewrite (H x) by (left; reflexivity). apply IH. intros y Hy. apply H.
  right. exact Hy.
Qed.

Lemma filter_all {A : Type} (f : A -> bool) (l : list A) :
  (forall x, In x l -> f x = true) -> filter f l = l.
Proof.
  induction l as [|x l IH]; simpl; intros H; [reflexivity|].
  rewrite (H x) by (left; reflexivity). f_equal. apply IH. intros y Hy.
  apply H. right. exact Hy.
Qed.

Lemma filter_seq_interval (f : nat -> bool) (a c n : nat) :
  a + c <= n ->
  (forall i, i < n -> f i = true <-> a <= i < a + c) ->
  filter f (seq 0 n) = seq a c.
Proof.
  intros Hle Hf.
  replace n with (a + (c + (n - (a + c)))) by lia.
  rewrite seq_app, seq_app, !filter_app. simpl.
  rewrite filter_none, filter_all, filter_none.
  - simpl. apply app_nil_r.
  - intros i Hi. apply in_seq in Hi.
    destruct (f i) eqn:E; [|reflexivity]. apply Hf in E; lia.
  - intros i Hi. apply in_seq in Hi. apply Hf; lia.
  - intros i Hi. apply in_seq in Hi.
    destruct (f i) eqn:E; [|reflexivity]. apply Hf in E; lia.
Qed.

(** An assignment that gives every node the network of its range is already
    sorted, and rebuilding the boundaries from it gives the rows back. *)
Lemma rebuilt_of_partition (bs : list boundary) (n : nat) (rc : list nat) :
  contiguous_partition bs n -> length rc = n ->
  (forall k b node, nth_error bs k = Some b -> in_range node b ->
                    nth node rc 0 = k) ->
  StronglySorted le rc /\ map (rebuilt rc) (range (length bs)) = bs.
Proof.
  intros Hc Hlen Hrc. unfold contiguous_partition in Hc.
  pose proof (contiguous_ordered _ _ _ Hc) as Hord.
  destruct (contiguous_bounds _ _ _ Hc) as [_ Hb].
  assert (Hsorted : StronglySorted le rc).
  { apply sorted_of_pairwise. intros i j Hij.
    destruct (@contiguous_cover bs 0 n i Hc) as [ki [bi [Hki Hbi]]]; [lia|].
    destruct (@contiguous_cover bs 0 n j Hc) as [kj [bj [Hkj Hbj]]]; [lia|].
    rewrite (Hrc _ _ _ Hki Hbi), (Hrc _ _ _ Hkj Hbj).
    destruct (Nat.le_gt_cases ki kj) as [Hle|Hgt]; [exact Hle|].
    pose proof (Hord kj ki bj bi Hgt Hkj Hki). unfold in_range in *. lia. }
  split; [exact Hsorted|].
  apply nth_ext with (d := rebuilt rc 0) (d' := rebuilt rc 0).
  { rewrite length_map. unfold range. apply length_seq. }
  intros k Hk. rewrite length_map in Hk. unfold range in Hk.
  rewrite length_seq in Hk.
  rewrite (map_nth (rebuilt rc) (range (length bs)) 0 k).
  unfold range. rewrite seq_nth by exact Hk. simpl.
  destruct (nth_error bs k) as [b|] eqn:Hkb;
    [|apply nth_error_None in Hkb; lia].
  rewrite (nth_error_nth _ _ _ Hkb).
  destruct (Hb k b Hkb) as [_ [Hse [Hen Hsz]]].
  assert (Hwhere : where_eq rc k = seq (b_start b) (b_size b)).
  { unfold where_eq, range. apply filter_seq_interval; [lia|].
    intros i Hi. rewrite Nat.eqb_eq. split.
    - intros Hik.
      destruct (@contiguous_cover bs 0 n i Hc) as [k' [b' [Hk' Hb']]]; [lia|].
      rewrite (Hrc _ _ _ Hk' Hb') in Hik. subst k'.
      assert (b' = b) by congruence. subst b'. unfold in_range in Hb'. lia.
    - intros Hin. apply (Hrc k b); [exact Hkb|unfold in_range; lia]. }
  rewrite (where_eq_sorted k Hsorted) in Hwhere.
  assert (Hcnt : count_eq k rc = b_size b).
  { apply (f_equal (@length nat)) in Hwhere. rewrite !length_seq in Hwhere.
    exact Hwhere. }
  assert (Hstart : count_lt k rc = b_start b).
  { rewrite Hcnt in Hwhere. destruct (b_size b) as [|c] eqn:E; [lia|].
    simpl in Hwhere. injection Hwhere as Hwhere _. exact Hwhere. }
  unfold rebuilt. rewrite Hcnt, Hstart. destruct b as [bs0 be0 bz0].
  simpl in *. f_equal; lia.
Qed.

Section FixedPoint.
Context {F : Type} {AF : Arith F}.
Variables (arctanh_libm tanh_libm : F -> F) (argsort : argsort_t).
Variables (fcArray : conn3 (F := F)) (netBoundaries : list boundary)
          (nodeOrder : list nat).

(** The consensus of a node of the range of network [netNum], read from the
    outputs of the run. *)
Lemma node_decision (out : rest_outputs) (netNum : nat) (netB : boundary)
  (nodeNum : nat) :
  restPartitionAdjuster arctanh_libm tanh_libm argsort fcArray netBoundaries
    nodeOrder = Ok out ->
  ordered_ranges netBoundaries ->
  nth_error netBoundaries netNum = Some netB ->
  in_range nodeNum netB ->
  let agree := nth nodeNum (percentAgree out) f0 in
  (fltb agree lit_0_5 = true -> nth nodeNum (restConsensus out) 0 = netNum) /\
  (fltb agree lit_0_5 = false -> fleb lit_0_5 agree = true ->
   nth nodeNum (restConsensus out) 0
   = fst (stats_mode (nth nodeNum (restPreferences out) []))).
Proof.
  intros Hrun Hord Hb Hin agree.
  apply restPartitionAdjuster_inv in Hrun.
  destruct Hrun as [rm [Hrp [Hag [Hrc _]]]].
  apply rest_agreement_spec in Hag. destruct Hag as [Hlpa [Hlrm Hag]].
  edestruct consensus_at as [x [old [Hx Hdec]]];
    [exact Hrc|exact Hlpa|exact Hord|exact Hb|exact Hin|].
  assert (Hnode : nodeNum < nodes3 fcArray).
  { rewrite <- Hlpa. apply nth_error_Some. congruence. }
  destruct (Hag nodeNum Hnode) as [m [c [Hmode [Hpa Hrm]]]].
  assert (Hm : fst (stats_mode (nth nodeNum (restPreferences out) [])) = m).
  { unfold rest_modes in Hmode.
    destruct (nodes3 fcArray * subjs3 fcArray =? 0).
    - destruct nodeNum; discriminate.
    - rewrite nth_error_map in Hmode.
      destruct (nth_error (restPreferences out) nodeNum) as [row|] eqn:Hrow;
        [|discriminate].
      simpl in Hmode. injection Hmode as Hmode.
      rewrite (nth_error_nth _ _ _ Hrow), Hmode. reflexivity. }
  assert (Hagree : x = agree).
  { apply nth_error_nth with (d := f0) in Hx. unfold agree. congruence. }
  subst x. unfold decided in Hdec. split.
  - intros Hlt. rewrite Hlt in Hdec. exact Hdec.
  - intros Hlt Hge. rewrite Hlt, Hge in Hdec. rewrite Hdec, Hrm, Hm. reflexivity.
Qed.

End FixedPoint.

(** Four nodes in two networks of two, one subject: every node's single edge
    stays inside its network. *)
Definition four_paired : conn3 (F := float) :=
  mk_conn3 1
    (map (map (fun x : float => [x]))
       [[0; 1; 0; 0];
        [1; 0; 0; 0];
        [0; 0; 0; 1];
        [0; 0; 1; 0]]%float).

(** [nodeOrder[nodeOrderNew]], the combined node order. *)
Definition combined_order (nodeOrder nodeOrderNew : list nat) : list nat :=
  map (fun k => nth k nodeOrder 0) nodeOrderNew.

(** C6, as stated, fails.  On [six_nodes] every node reaches the quorum on
    the first run (one subject: [percentAgree] is 1 everywhere), and the
    second run, on the adjusted boundaries and the combined node order, moves
    a node again: the boundaries and the assignment change. *)
Lemma second_run_changes_the_partition :
  exists out1 out2 : rest_outputs,
    restPartitionAdjuster no_libm no_libm argsort_stable six_nodes two_triples
      (range 6) = Ok out1 /\
    forallb (fun a => fleb lit_0_5 a) (percentAgree out1) = true /\
    restPartitionAdjuster no_libm no_libm argsort_stable six_nodes
      (netBoundariesNew out1) (combined_order (range 6) (nodeOrderNew out1))
    = Ok out2 /\
    netBoundariesNew out1 = [mk_boundary 0 1 2; mk_boundary 2 5 4] /\
    netBoundariesNew out2 = [mk_boundary 0 0 1; mk_boundary 1 5 5] /\
    nodeIndicesNew out1 = [0; 0; 1; 1; 1; 1] /\
    restConsensus out2 = [1; 0; 1; 1; 1; 1] /\
    netBoundariesNew out2 <> netBoundariesNew out1 /\
    restConsensus out2 <> nodeIndicesNew out1.
Proof.
  eexists. eexists.
  split; [vm_compute; reflexivity|].
  split; [vm_compute; reflexivity|].
  split; [vm_compute; reflexivity|].
  do 4 (split; [reflexivity|]).
  split; intros H; vm_compute in H; discriminate H.
Qed.

(** C6, amended.  A run leaves the partition unchanged when the boundaries
    tile the nodes in order and every node either stays below the quorum or
    has its own network as modal preference: then the consensus of every
    node is the network of its range, [nodeIndicesNew] is this consensus
    vector, [netBoundariesNew] is [netBoundaries], and [nodeOrderNew] sends
    every position to a position of the same network. *)
Theorem partition_unchanged_when_consensus_agrees :
  forall (F : Type) (AF : Arith F) (arctanh_libm tanh_libm : F -> F)
         (argsort : argsort_t) (fcArray : conn3) (netBoundaries : list boundary)
         (nodeOrder : list nat) (out : rest_outputs),
    argsort_contract argsort ->
    restPartitionAdjuster arctanh_libm tanh_libm argsort fcArray netBoundaries
      nodeOrder = Ok out ->
    contiguous_partition netBoundaries (nodes3 fcArray) ->
    (forall netNum netB nodeNum,
        nth_error netBoundaries netNum = Some netB ->
        in_range nodeNum netB ->
        let agree := nth nodeNum (percentAgree out) f0 in
        fltb agree lit_0_5 = true \/
        (fleb lit_0_5 agree = true /\
         fst (stats_mode (nth nodeNum (restPreferences out) [])) = netNum)) ->
    (forall netNum netB nodeNum,
        nth_error netBoundaries netNum = Some netB ->
        in_range nodeNum netB ->
        nth nodeNum (restConsensus out) 0 = netNum) /\
    nodeIndicesNew out = restConsensus out /\
    netBoundariesNew out = netBoundaries /\
    (forall i, i < nodes3 fcArray ->
               nth (nth i (nodeOrderNew out) 0) (restConsensus out) 0
               = nth i (restConsensus out) 0).
Proof.
  intros F AF arctanh_libm tanh_libm argsort fcArray netBoundaries nodeOrder out
         Hc Hrun Hpart Hagree.
  pose proof (contiguous_ordered _ _ _ Hpart) as Hord.
  destruct (@consensus_below_numNets F AF arctanh_libm tanh_libm argsort Hc
              fcArray netBoundaries nodeOrder out Hrun) as [Hlen _].
  assert (Hrc : forall netNum netB nodeNum,
             nth_error netBoundaries netNum = Some netB ->
             in_range nodeNum netB ->
             nth nodeNum (restConsensus out) 0 = netNum).
  { intros k b node Hk Hb.
    destruct (@node_decision F AF arctanh_libm tanh_libm argsort fcArray
                netBoundaries nodeOrder out k b node Hrun Hord Hk Hb)
      as [Hlow Hhigh].
    destruct (Hagree k b node Hk Hb) as [Hlt|[Hge Hmode]].
    - apply Hlow. exact Hlt.
    - destruct (fltb (nth node (percentAgree out) f0) lit_0_5) eqn:E.
      + apply Hlow. reflexivity.
      + rewrite Hhigh by (reflexivity || exact Hge). exact Hmode. }
  destruct (@rebuilt_of_partition netBoundaries (nodes3 fcArray)
              (restConsensus out) Hpart Hlen Hrc) as [Hsorted Hrebuilt].
  apply restPartitionAdjuster_inv in Hrun.
  destruct Hrun as [rm [_ [_ [_ [Hidx [Hordn Hb]]]]]].
  rewrite (np_sort_id Hsorted) in Hidx.
  split; [exact Hrc|]. split; [exact Hidx|]. split.
  - rewrite Hidx, <- (np_sort_id Hsorted) in Hb.
    apply rebuild_boundaries_Ok in Hb. destruct Hb as [-> _]. exact Hrebuilt.
  - intros i Hi.
    destruct (@argsort_of_consensus argsort (restConsensus out) Hc)
      as [Hperm Hsort].
    rewrite (np_sort_id Hsorted), <- Hordn in Hsort.
    apply Permutation_length in Hperm. unfold range in Hperm.
    rewrite length_seq, <- Hordn in Hperm.
    set (f := fun n => nth n (restConsensus out) 0) in *.
    assert (E : nth i (map f (nodeOrderNew out)) 0 = f (nth i (nodeOrderNew out) 0)).
    { rewrite (@nth_indep _ (map f (nodeOrderNew out)) i 0 (f 0))
        by (rewrite length_map; lia).
      apply map_nth. }
    rewrite Hsort in E. symmetry. exact E.
Qed.

Lemma partition_unchanged_when_consensus_agrees_witness :
  exists out : rest_outputs,
    restPartitionAdjuster no_libm no_libm argsort_ties_reversed four_paired
      two_pairs (range 4) = Ok out /\
    (forall netNum netB nodeNum,
        nth_error two_pairs netNum = Some netB ->
        in_range nodeNum netB ->
        nth nodeNum (restConsensus out) 0 = netNum) /\
    nodeIndicesNew out = restConsensus out /\
    netBoundariesNew out = two_pairs /\
    (forall i, i < nodes3 four_paired ->
               nth (nth i (nodeOrderNew out) 0) (restConsensus out) 0
               = nth i (restConsensus out) 0).
Proof.
  eexists. split; [vm_compute; reflexivity|].
  apply (@partition_unchanged_when_consensus_agrees float binary64 no_libm
           no_libm argsort_ties_reversed four_paired two_pairs (range 4)).
  - exact argsort_ties_reversed_contract.
  - vm_compute. reflexivity.
  - unfold contiguous_partition. simpl. lia.
  - intros netNum netB nodeNum Hk Hin. right.
    destruct netNum as [|[|netNum]]; simpl in Hk;
      [injection Hk as <-|injection Hk as <-|destruct netNum; discriminate Hk];
      unfold in_range in Hin; simpl in Hin;
      destruct nodeNum as [|[|[|[|nodeNum]]]]; try lia;
      split; vm_compute; reflexivity.
Defined.

(** ** The mean-first mode *)

(** The mean-first mode as the documentation words it: the connectivity is
    averaged across subjects first ([mean] is the average used, [np.mean] or
    [np.nanmean]), and the clustering and the preferences are computed on the
    subject-averaged array, an array with a single subject. *)
Definition np_mean {F : Type} {AF : Arith F} (l : list F) : F :=
  fdiv (np_sum l) (of_nat (length l)).

Definition subject_mean {F : Type} {AF : Arith F} (mean : list F -> F)
  (fcArray : conn4) : conn4 :=
  {| nodes4 := nodes4 fcArray;
     tasks4 := tasks4 fcArray;
     subjs4 := 1;
     get4 := fun i j t _ =>
       mean (map (fun s => get4 fcArray i j t s) (range (subjs4 fcArray))) |}.

Definition mean_first_as_documented {F : Type} {AF : Arith F}
  (mean : list F -> F) (fcArray : conn4) (netBoundaries : list boundary)
  (nodeOrder : list nat) (adj : option (list boundary * list nat))
  : M dev_result :=
  deviation (subject_mean mean fcArray) netBoundaries nodeOrder true adj.

(** Three nodes, networks [{0, 1}] and [{2}], one task, two subjects; the
    diagonal entries of nodes 0 and 1 are NaN for the first subject only. *)
Definition two_and_one : list boundary := [mk_boundary 0 1 2; mk_boundary 2 2 1].

Definition uneven_nan : conn4 (F := float) :=
  mk_conn4 1 2
    [[ [[nan; 3]];  [[0; 0]];    [[1.25; 1.25]] ];
     [ [[0; 0]];    [[nan; 6]];  [[1; 1]] ];
     [ [[0; 0]];    [[0; 0]];    [[1; 1]] ]]%float.

(** C5.  The mean-first branch does not average across subjects: it takes
    [np.nanmean] over all entries of a cluster and all subjects at once.  On
    [uneven_nan] node 0 has the clustered values [1] and [1.25] and prefers
    network 1, where the subject average ([np.nanmean]) gives [1.5] and
    [1.25] and network 0; node 1 has [2] and [1] and prefers network 0, where
    the subject average with [np.mean] gives [0] and [1] and network 1.  The
    deviation of network 0 is [0.5] in the code and [0] and [1] in the two
    documented readings. *)
Theorem mean_first_pools_subjects :
  exists o o_nanmean o_mean : dev_outputs,
    snd (deviation uneven_nan two_and_one [0; 1; 2] true None)
    = Ok (MeanFirst o) /\
    snd (mean_first_as_documented np_nanmean uneven_nan two_and_one [0; 1; 2] None)
    = Ok (MeanFirst o_nanmean) /\
    snd (mean_first_as_documented np_mean uneven_nan two_and_one [0; 1; 2] None)
    = Ok (MeanFirst o_mean) /\
    nodePrefIdxs o = [[1]; [0]; [1]] /\
    nodePrefIdxs o_nanmean = [[0]; [0]; [1]] /\
    nodePrefIdxs o_mean = [[1]; [1]; [1]] /\
    nodePrefVals o = [[1.25]; [2]; [1]]%float /\
    nodePrefVals o_nanmean = [[1.5]; [3]; [1]]%float /\
    deviationRFs o = [0.5; 0]%float /\
    deviationRFs o_nanmean = [0; 0]%float /\
    deviationRFs o_mean = [1; 0]%float.
Proof.
  do 3 eexists.
  do 3 (split; [vm_compute; reflexivity|]).
  repeat split; vm_compute; reflexivity.
Qed.

(** * Further properties of the metrics *)

(** ** The graph coefficients return numbers *)

Section NoNaN.
Context {F : Type} {AF : Arith F}.
Hypothesis zero_is_a_number : fisnan (f0 : F) = false.

Lemma score_not_nan (d arr : F) : fisnan (score d arr) = false.
Proof.
  unfold score. cbv zeta.
  repeat match goal with
         | |- context [if ?c then _ else _] => destruct c eqn:?
         end; try assumption.
Qed.

Lemma clear_nan_not_nan (l : list F) :
  Forall (fun p => fisnan p = false)
    (map (fun g => if feqb g f0 then f0 else g)
         (map (fun g => if fisnan g then f0 else g) l)).
Proof.
  rewrite map_map, Forall_forall. intros p Hp. apply in_map_iff in Hp.
  destruct Hp as [x [<- _]].
  destruct (fisnan x) eqn:E1.
  - destruct (feqb f0 f0); exact zero_is_a_number.
  - destruct (feqb x f0); [exact zero_is_a_number|exact E1].
Qed.

Lemma participation_length (fcArray : conn2) (affil : list nat) (numNets : nat)
  (partCoef : list F) :
  participation_coefficient_sign fcArray affil numNets = Ok partCoef ->
  length partCoef = nodes2 fcArray.
Proof.
  unfold participation_coefficient_sign. intros H.
  destruct (nodes2 fcArray =? length affil) eqn:Hn; simpl in H; [|discriminate].
  injection H as <-.
  assert (Harr : forall (nets : list nat) (f : nat -> list F) (arr0 : list F),
             length arr0 = nodes2 fcArray ->
             (forall k, length (f k) = nodes2 fcArray) ->
             length (fold_left (fun arrHere netNum => zip_with fadd arrHere (f netNum))
                               nets arr0) = nodes2 fcArray).
  { induction nets as [|k nets IH]; intros f arr0 H0 Hf; simpl; [exact H0|].
    apply IH; [|exact Hf]. rewrite length_zip_with, H0, Hf. lia. }
  rewrite length_map, length_zip_with, !length_map, length_zip_with.
  rewrite repeat_length, length_zip_with, !length_map.
  unfold range at 1 2. rewrite !length_seq.
  rewrite (Harr _ (fun netNum =>
                     map square
                       (map (fun i =>
                               np_nansum
                                 (map (fun j =>
                                         fmul (get2 fcArray i j)
                                              (of_bool
                                                 (matmul_bool_nat (nodes2 fcArray)
                                                    (fun i0 j0 =>
                                                       negb (feqb (get2 fcArray i0 j0) f0))
                                                    (np_diag affil) i j =? netNum)))
                                      (range (nodes2 fcArray))))
                            (range (nodes2 fcArray))))).
  - unfold range. rewrite length_seq. lia.
  - apply repeat_length.
  - intros k. rewrite !length_map. unfold range. apply length_seq.
Qed.

End NoNaN.

Definition pc_isolated : conn2 (F := float) :=
  mk_conn2 [[0; 1; nan]; [1; 0; 0]; [0; 0; 0]]%float.

(** X1.  [participation_coefficient_sign], when it returns, returns one score per
    node, and no score is NaN: a NaN quotient (a node of zero or NaN degree)
    becomes 0. *)
Theorem participation_returns_numbers :
  forall (F : Type) (AF : Arith F) (fcArray : conn2) (thisNetAffilVec : list nat)
         (numNets : nat) (partCoef : list F),
    fisnan (f0 : F) = false ->
    participation_coefficient_sign fcArray thisNetAffilVec numNets = Ok partCoef ->
    length partCoef = nodes2 fcArray /\
    Forall (fun p => fisnan p = false) partCoef.
Proof.
  intros F AF fcArray affil numNets partCoef H0 H.
  pose proof (participation_length _ _ _ H) as Hlen.
  split; [exact Hlen|].
  rewrite Forall_forall. intros p Hp.
  destruct (In_nth_error _ _ Hp) as [i Hi].
  assert (Hlt : i < nodes2 fcArray).
  { rewrite <- Hlen. apply nth_error_Some. congruence. }
  rewrite (participation_nth _ _ _ H Hlt) in Hi. injection Hi as <-.
  apply score_not_nan. exact H0.
Qed.

Lemma participation_returns_numbers_witness :
  exists partCoef : list float,
    participation_coefficient_sign pc_isolated [1; 2; 2] 2 = Ok partCoef /\
    length partCoef = nodes2 pc_isolated /\
    Forall (fun p => fisnan p = false) partCoef.
Proof.
  eexists. split; [vm_compute; reflexivity|].
  apply (@participation_returns_numbers float binary64 pc_isolated [1; 2; 2] 2).
  - vm_compute. reflexivity.
  - vm_compute. reflexivity.
Defined.

(** X2.  The gateway coefficient, when the call returns, holds no NaN either: the
    last two lines of the function replace NaN by 0. *)
Theorem gateway_returns_numbers :
  forall (F : Type) (AF : Arith F) (fcArray : conn2) (thisNetAffilVec : list nat)
         (numNets : nat) (centType : centrality) (gatewayCoef : list F),
    fisnan (f0 : F) = false ->
    snd (gateway_coefficient_sign fcArray thisNetAffilVec numNets centType)
    = Ok gatewayCoef ->
    Forall (fun g => fisnan g = false) gatewayCoef.
Proof.
  intros F AF fcArray affil numNets centType gatewayCoef H0 H.
  unfold gateway_coefficient_sign in H. cbn [snd] in H.
  destruct (negb (nodes2 fcArray =? length affil)); [discriminate H|].
  destruct affil as [|a affil]; [discriminate H|].
  inv_bind H. destruct a0 as [maxSummedCentrality ksArr].
  inv_bind H. inv_bind H. injection H as <-.
  apply clear_nan_not_nan. exact H0.
Qed.

Lemma gateway_returns_numbers_witness :
  exists gatewayCoef : list float,
    snd (gateway_coefficient_sign gateway_input [1; 2] 2 node_strength)
    = Ok gatewayCoef /\
    Forall (fun g => fisnan g = false) gatewayCoef.
Proof.
  eexists. split; [vm_compute; reflexivity|].
  apply (@gateway_returns_numbers float binary64 gateway_input [1; 2] 2
           node_strength).
  - vm_compute. reflexivity.
  - vm_compute. reflexivity.
Defined.

(** X3.  With [centType='betweenness'] the name [centVec] is never bound: as soon
    as there is a network to visit, the call raises on its first use (after
    the diagonal of the caller's array has been zeroed). *)
Theorem gateway_betweenness_is_unbound :
  forall (F : Type) (AF : Arith F) (fcArray : conn2) (thisNetAffilVec : list nat)
         (numNets : nat),
    nodes2 fcArray = length thisNetAffilVec ->
    thisNetAffilVec <> [] ->
    0 < numNets ->
    snd (gateway_coefficient_sign fcArray thisNetAffilVec numNets betweenness)
    = Raise NameError.
Proof.
  intros F AF fcArray affil numNets Hlen Hne Hnets.
  unfold gateway_coefficient_sign. cbn [snd].
  rewrite Hlen, Nat.eqb_refl. cbn [negb].
  destruct affil as [|a affil]; [congruence|].
  replace (range2 1 (numNets + 1)) with (1 :: seq 2 (numNets - 1)).
  - reflexivity.
  - unfold range2. destruct numNets as [|n]; [lia|].
    replace (S n + 1 - 1) with (S n) by lia.
    replace (S n - 1) with n by lia. reflexivity.
Qed.

Lemma gateway_betweenness_is_unbound_witness :
  snd (gateway_coefficient_sign gateway_input [1; 2] 2 betweenness)
  = Raise NameError.
Proof.
  apply (@gateway_betweenness_is_unbound float binary64 gateway_input [1; 2] 2).
  - reflexivity.
  - discriminate.
  - lia.
Defined.

(** ** restPartitionAdjuster never reads the diagonal *)

Lemma mapM_ext_in {A B : Type} (f g : A -> result B) (xs : list A) :
  (forall x, In x xs -> f x = g x) -> mapM f xs = mapM g xs.
Proof.
  induction xs as [|x xs IH]; intros H; simpl; [reflexivity|].
  rewrite (H x) by (left; reflexivity).
  rewrite IH by (intros y Hy; apply H; right; exact Hy). reflexivity.
Qed.

Section RestDiagonal.
Context {F : Type} {AF : Arith F}.
Variables (arctanh_libm tanh_libm : F -> F) (argsort : argsort_t).
Variables (fc1 fc2 : conn3 (F := F)) (netBoundaries : list boundary)
          (nodeOrder : list nat).

(** The two arrays have the same shape and agree off the diagonal. *)
Definition same_off_diagonal : Prop :=
  nodes3 fc1 = nodes3 fc2 /\ subjs3 fc1 = subjs3 fc2 /\
  forall i j s, i < nodes3 fc1 -> j < nodes3 fc1 -> s < subjs3 fc1 -> i <> j ->
                get3 fc1 i j s = get3 fc2 i j s.

Hypothesis same : same_off_diagonal.
Hypothesis distinct : NoDup nodeOrder.

Lemma rest_preference_same (subjNum nodeNum : nat) :
  Forall (fun k => k < nodes3 fc1) nodeOrder -> subjNum < subjs3 fc1 ->
  rest_preference arctanh_libm tanh_libm argsort fc1 netBoundaries nodeOrder
    subjNum nodeNum
  = rest_preference arctanh_libm tanh_libm argsort fc2 netBoundaries nodeOrder
      subjNum nodeNum.
Proof.
  intros Hord Hs. destruct same as [_ [_ Hget]]. unfold rest_preference.
  destruct (Nat.leb_spec (length nodeOrder) nodeNum) as [Hge|Hlt]; [reflexivity|].
  cbv zeta.
  assert (E : map (fun b => if nodeNum =? b then fnan
                            else get3 fc1 (nth nodeNum nodeOrder 0)
                                      (nth b nodeOrder 0) subjNum)
                  (range (length nodeOrder))
              = map (fun b => if nodeNum =? b then fnan
                              else get3 fc2 (nth nodeNum nodeOrder 0)
                                        (nth b nodeOrder 0) subjNum)
                    (range (length nodeOrder))).
  { apply map_ext_in. intros b Hb. unfold range in Hb. apply in_seq in Hb.
    destruct (Nat.eqb_spec nodeNum b) as [_|Hne]; [reflexivity|].
    rewrite Forall_forall in Hord.
    apply Hget; try exact Hs.
    - apply Hord, nth_In. exact Hlt.
    - apply Hord, nth_In. lia.
    - intros E. apply Hne.
      apply (proj1 (NoDup_nth nodeOrder 0) distinct); [exact Hlt|lia|exact E]. }
  rewrite E. reflexivity.
Qed.

Lemma rest_preferences_same :
  rest_preferences arctanh_libm tanh_libm argsort fc1 netBoundaries nodeOrder
  = rest_preferences arctanh_libm tanh_libm argsort fc2 netBoundaries nodeOrder.
Proof.
  pose proof same as [Hn [Hs _]]. unfold rest_preferences.
  rewrite <- Hn, <- Hs.
  rewrite (mapM_ext_in
             (fun subjNum =>
                if negb (forallb (fun k => k <? nodes3 fc1) nodeOrder)
                then Raise IndexError
                else mapM (rest_preference arctanh_libm tanh_libm argsort fc1
                             netBoundaries nodeOrder subjNum)
                          (range (nodes3 fc1)))
             (fun subjNum =>
                if negb (forallb (fun k => k <? nodes3 fc1) nodeOrder)
                then Raise IndexError
                else mapM (rest_preference arctanh_libm tanh_libm argsort fc2
                             netBoundaries nodeOrder subjNum)
                          (range (nodes3 fc1)))).
  - reflexivity.
  - intros subjNum Hsubj. unfold range in Hsubj. apply in_seq in Hsubj.
    destruct (forallb (fun k => k <? nodes3 fc1) nodeOrder) eqn:Hall;
      [|reflexivity].
    cbn [negb]. apply mapM_ext_in. intros nodeNum _.
    apply rest_preference_same; [|lia].
    rewrite Forall_forall. intros k Hk.
    rewrite forallb_forall in Hall. apply Nat.ltb_lt. apply Hall. exact Hk.
Qed.

End RestDiagonal.

(** [six_nodes] with another diagonal. *)
Definition six_nodes_diag : conn3 (F := float) :=
  {| nodes3 := 6;
     subjs3 := 1;
     get3 := fun i j s => if i =? j then 7%float else get3 six_nodes i j s |}.

(** X4.  For a node order without repeated index, the outputs of
    [restPartitionAdjuster] do not depend on the diagonal of [fcArray]: two
    arrays of one shape that agree off the diagonal give the same outputs or
    the same exception.  (The function works on a copy with NaN on the
    diagonal; compare [deviation], which reads the diagonal.) *)
Theorem rest_partition_ignores_the_diagonal :
  forall (F : Type) (AF : Arith F) (arctanh_libm tanh_libm : F -> F)
         (argsort : argsort_t) (fc1 fc2 : conn3) (netBoundaries : list boundary)
         (nodeOrder : list nat),
    same_off_diagonal fc1 fc2 ->
    NoDup nodeOrder ->
    restPartitionAdjuster arctanh_libm tanh_libm argsort fc1 netBoundaries
      nodeOrder
    = restPartitionAdjuster arctanh_libm tanh_libm argsort fc2 netBoundaries
        nodeOrder.
Proof.
  intros F AF arctanh_libm tanh_libm argsort fc1 fc2 netBoundaries nodeOrder
         Hsame Hnd.
  unfold restPartitionAdjuster.
  rewrite (rest_preferences_same arctanh_libm tanh_libm argsort netBoundaries
             Hsame Hnd).
  destruct Hsame as [Hn [Hs _]]. rewrite Hn, Hs. reflexivity.
Qed.

Lemma rest_partition_ignores_the_diagonal_witness :
  restPartitionAdjuster no_libm no_libm argsort_stable six_nodes two_triples
    (range 6)
  = restPartitionAdjuster no_libm no_libm argsort_stable six_nodes_diag
      two_triples (range 6).
Proof.
  apply (@rest_partition_ignores_the_diagonal float binary64 no_libm no_libm
           argsort_stable six_nodes six_nodes_diag two_triples (range 6)).
  - unfold same_off_diagonal. split; [reflexivity|]. split; [reflexivity|].
    intros i j s _ _ _ Hne. simpl.
    destruct (Nat.eqb_spec i j) as [E|_]; [contradiction|reflexivity].
  - unfold range. apply seq_NoDup.
Defined.

(** ** Shapes, ranges and index errors of restPartitionAdjuster *)

Lemma mapM_raises {A B : Type} (f : A -> result B) (xs : list A) (x : A) (e : exn) :
  In x xs -> f x = Raise e -> exists e', mapM f xs = Raise e'.
Proof.
  induction xs as [|y xs IH]; simpl; intros Hin Hx; [contradiction|].
  destruct (f y) as [b|e1] eqn:Hy; simpl; [|exists e1; reflexivity].
  destruct Hin as [->|Hin]; [congruence|].
  destruct (IH Hin Hx) as [e' ->]. simpl. exists e'. reflexivity.
Qed.

Lemma rest_preference_raises_IndexError {F : Type} {AF : Arith F}
  (arctanh_libm tanh_libm : F -> F) (argsort : argsort_t) (fcArray : conn3)
  (netBoundaries : list boundary) (nodeOrder : list nat)
  (subjNum nodeNum : nat) (e : exn) :
  rest_preference arctanh_libm tanh_libm argsort fcArray netBoundaries nodeOrder
    subjNum nodeNum = Raise e ->
  e = IndexError.
Proof.
  unfold rest_preference.
  destruct (length nodeOrder <=? nodeNum); [intros H; injection H as <-; reflexivity|].
  cbv zeta.
  match goal with
  | |- context [rev ?l] => destruct (rev l)
  end; intros H; [injection H as <-; reflexivity|discriminate H].
Qed.

(** X5.  When the call returns (with an argsort meeting numpy's contract):
    [restPreferences] is nodes x subjects and holds network indices,
    [percentAgree], [restConsensus], [nodeOrderNew] and [nodeIndicesNew] have
    one entry per node, every consensus value is a network index, and an
    array with nodes comes with at least one network. *)
Theorem rest_outputs_are_indexed_by_nodes_and_networks :
  forall (F : Type) (AF : Arith F) (arctanh_libm tanh_libm : F -> F)
         (argsort : argsort_t) (fcArray : conn3) (netBoundaries : list boundary)
         (nodeOrder : list nat) (out : rest_outputs),
    argsort_contract argsort ->
    restPartitionAdjuster arctanh_libm tanh_libm argsort fcArray netBoundaries
      nodeOrder = Ok out ->
    let nParcels := nodes3 fcArray in
    let numNets := length netBoundaries in
    length (restPreferences out) = nParcels /\
    Forall (fun row => length row = subjs3 fcArray /\
                       Forall (fun p => p < numNets) row) (restPreferences out) /\
    length (percentAgree out) = nParcels /\
    length (restConsensus out) = nParcels /\
    Forall (fun p => p < numNets) (restConsensus out) /\
    length (nodeOrderNew out) = nParcels /\
    length (nodeIndicesNew out) = nParcels /\
    length (netBoundariesNew out) = numNets /\
    (0 < nParcels -> 0 < numNets).
Proof.
  intros F AF arctanh_libm tanh_libm argsort fcArray netBoundaries nodeOrder out
         Hc Hrun nParcels numNets.
  destruct (@consensus_below_numNets F AF arctanh_libm tanh_libm argsort Hc
              fcArray netBoundaries nodeOrder out Hrun) as [Hlen Hlt].
  pose proof (restPartitionAdjuster_inv _ _ _ _ _ _ Hrun)
    as [rm [Hrp [Hag [_ [Hidx [Hord Hb]]]]]].
  pose proof (rest_agreement_spec _ _ _ Hag) as [Hlpa _].
  destruct (@argsort_of_consensus argsort (restConsensus out) Hc) as [Hperm _].
  apply Permutation_length in Hperm. unfold range in Hperm.
  rewrite length_seq, <- Hord, Hlen in Hperm.
  split; [exact (rest_preferences_length _ _ _ _ _ _ Hrp)|].
  split; [exact (@rest_preferences_rows F AF arctanh_libm tanh_libm argsort Hc
                   fcArray netBoundaries nodeOrder _ Hrp)|].
  split; [exact Hlpa|]. split; [exact Hlen|]. split; [exact Hlt|].
  split; [exact Hperm|]. split.
  { rewrite Hidx, <- (Permutation_length (np_sort_perm _)). exact Hlen. }
  split.
  { rewrite Hidx in Hb. apply rebuild_boundaries_Ok in Hb. destruct Hb as [-> _].
    rewrite length_map. unfold range. apply length_seq. }
  intros Hpos. destruct (restConsensus out) as [|p rc]; [simpl in Hlen; unfold nParcels in Hpos; lia|].
  inversion Hlt; subst. unfold numNets. lia.
Qed.

Lemma rest_outputs_are_indexed_by_nodes_and_networks_witness :
  exists out : rest_outputs,
    restPartitionAdjuster no_libm no_libm argsort_stable six_nodes two_triples
      (range 6) = Ok out /\
    length (restPreferences out) = 6 /\
    Forall (fun row => length row = subjs3 six_nodes /\
                       Forall (fun p => p < 2) row) (restPreferences out) /\
    length (percentAgree out) = 6 /\
    length (restConsensus out) = 6 /\
    Forall (fun p => p < 2) (restConsensus out) /\
    length (nodeOrderNew out) = 6 /\
    length (nodeIndicesNew out) = 6 /\
    length (netBoundariesNew out) = 2 /\
    (0 < 6 -> 0 < 2).
Proof.
  eexists. split; [vm_compute; reflexivity|].
  apply (@rest_outputs_are_indexed_by_nodes_and_networks float binary64 no_libm
           no_libm argsort_stable six_nodes two_triples (range 6)).
  - exact argsort_stable_contract.
  - vm_compute. reflexivity.
Defined.

(** X6.  With at least one subject, a node order that holds an index past the
    last node, or that is shorter than the number of nodes, makes the call
    raise IndexError. *)
Theorem rest_bad_node_order_raises :
  forall (F : Type) (AF : Arith F) (arctanh_libm tanh_libm : F -> F)
         (argsort : argsort_t) (fcArray : conn3) (netBoundaries : list boundary)
         (nodeOrder : list nat),
    0 < subjs3 fcArray ->
    (exists k, In k nodeOrder /\ nodes3 fcArray <= k) \/
    length nodeOrder < nodes3 fcArray ->
    restPartitionAdjuster arctanh_libm tanh_libm argsort fcArray netBoundaries
      nodeOrder = Raise IndexError.
Proof.
  intros F AF arctanh_libm tanh_libm argsort fcArray netBoundaries nodeOrder
         HS Hbad.
  assert (Hrp : rest_preferences arctanh_libm tanh_libm argsort fcArray
                  netBoundaries nodeOrder = Raise IndexError).
  { unfold rest_preferences.
    destruct (subjs3 fcArray) as [|numSubjs]; [lia|].
    unfold range at 1. simpl seq. simpl mapM.
    destruct (forallb (fun k => k <? nodes3 fcArray) nodeOrder) eqn:Hall.
    - cbn [negb]. destruct Hbad as [[k [Hin Hk]]|Hshort].
      + rewrite forallb_forall in Hall. apply Hall, Nat.ltb_lt in Hin. lia.
      + match goal with
        | |- context [mapM ?f (seq 0 (nodes3 fcArray))] =>
            destruct (mapM f (seq 0 (nodes3 fcArray))) as [col|e] eqn:Hcol
        end.
        * exfalso.
          destruct (@mapM_raises _ _
                      (rest_preference arctanh_libm tanh_libm argsort fcArray
                         netBoundaries nodeOrder 0)
                      (seq 0 (nodes3 fcArray)) (length nodeOrder) IndexError)
            as [e' He'].
          { apply in_seq. lia. }
          { unfold rest_preference. rewrite Nat.leb_refl. reflexivity. }
          congruence.
        * apply mapM_Raise in Hcol. destruct Hcol as [nodeNum [_ Hnode]].
          apply rest_preference_raises_IndexError in Hnode. subst e. reflexivity.
    - reflexivity. }
  unfold restPartitionAdjuster. rewrite Hrp. reflexivity.
Qed.

Lemma rest_bad_node_order_raises_witness :
  restPartitionAdjuster no_libm no_libm argsort_stable six_nodes two_triples
    [0; 1; 2; 3; 4; 6] = Raise IndexError /\
  restPartitionAdjuster no_libm no_libm argsort_stable six_nodes two_triples
    [0; 1; 2; 3; 4] = Raise IndexError.
Proof.
  split.
  - apply (@rest_bad_node_order_raises float binary64 no_libm no_libm
             argsort_stable six_nodes two_triples [0; 1; 2; 3; 4; 6]).
    + simpl. lia.
    + left. exists 6. split; [simpl; tauto|simpl; lia].
  - apply (@rest_bad_node_order_raises float binary64 no_libm no_libm
             argsort_stable six_nodes two_triples [0; 1; 2; 3; 4]).
    + simpl. lia.
    + right. simpl. lia.
Defined.

(** ** What gvc computes and what it leaves in the caller's array *)

Section GvcFacts.
Context {F : Type} {AF : Arith F}.
Variable np_sqrt : F -> F.

(** The score of node [i] for subject [s]: the nan-mean over the nodes [j] of
    the nan-standard deviation over the tasks of [fcArray[i,j,:,s]], with
    NaN in place of the diagonal entries. *)
Definition gvc_score (fcArray : conn4) (i s : nat) : F :=
  np_nanmean
    (map (fun j =>
            np_nanstd np_sqrt
              (map (fun t => if i =? j then fnan else get4 fcArray i j t s)
                   (range (tasks4 fcArray))))
         (range (nodes4 fcArray))).

(** The bodies of the two loops. *)
Definition gvc_task_step (subjNum : nat) (st : conn4 * (nat -> nat -> nat -> F))
  (taskNum : nat) : conn4 * (nat -> nat -> nat -> F) :=
  let (fcArray, tempSubj) := st in
  let fcArray := fill_diagonal_view fcArray taskNum subjNum fnan in
  let thisTask i j := get4 fcArray i j taskNum subjNum in
  (fcArray, fun i j t => if t =? taskNum then thisTask i j else tempSubj i j t).

Definition gvc_subj_step (nParcels numTasks : nat)
  (st : conn4 * (nat -> nat -> nat -> F) * list (list F)) (subjNum : nat)
  : conn4 * (nat -> nat -> nat -> F) * list (list F) :=
  let '(fcArray, tempSubj, gvcNodesSubjs) := st in
  let (fcArray, tempSubj) :=
    fold_left (gvc_task_step subjNum) (range numTasks) (fcArray, tempSubj) in
  let col i :=
    np_nanmean
      (map (fun j => np_nanstd np_sqrt (map (fun t => tempSubj i j t) (range numTasks)))
           (range nParcels)) in
  (fcArray, tempSubj, set_col subjNum col gvcNodesSubjs).

Lemma gvc_unfold (fcArray : conn4) :
  gvc np_sqrt fcArray
  = let r := fold_left (gvc_subj_step (nodes4 fcArray) (tasks4 fcArray))
               (range (subjs4 fcArray))
               (fcArray, fun _ _ _ => f0,
                repeat (repeat f0 (subjs4 fcArray)) (nodes4 fcArray)) in
    (fst (fst r), snd r).
Proof.
  unfold gvc. cbv zeta.
  change (fold_left _ (range (subjs4 fcArray)) ?st)
    with (fold_left (gvc_subj_step (nodes4 fcArray) (tasks4 fcArray))
            (range (subjs4 fcArray)) st).
  destruct (fold_left (gvc_subj_step (nodes4 fcArray) (tasks4 fcArray))
              (range (subjs4 fcArray))
              (fcArray, fun _ _ _ => f0,
               repeat (repeat f0 (subjs4 fcArray)) (nodes4 fcArray)))
    as [[a b] c].
  reflexivity.
Qed.

Lemma gvc_tasks_fold (subjNum : nat) (tasks : list nat) (fcArray : conn4)
  (tempSubj : nat -> nat -> nat -> F) :
  let r := fold_left (gvc_task_step subjNum) tasks (fcArray, tempSubj) in
  nodes4 (fst r) = nodes4 fcArray /\
  tasks4 (fst r) = tasks4 fcArray /\
  subjs4 (fst r) = subjs4 fcArray /\
  (forall i j t s,
      get4 (fst r) i j t s
      = if (i =? j) && existsb (Nat.eqb t) tasks && (s =? subjNum) then fnan
        else get4 fcArray i j t s) /\
  (forall i j t,
      snd r i j t
      = if existsb (Nat.eqb t) tasks
        then (if i =? j then fnan else get4 fcArray i j t subjNum)
        else tempSubj i j t).
Proof.
  revert fcArray tempSubj.
  induction tasks as [|a tasks IH]; intros fcArray tempSubj; cbn [fold_left].
  - cbn [fst snd existsb]. repeat split; try reflexivity.
    intros i j t s. rewrite andb_false_r. reflexivity.
  - unfold gvc_task_step at 2. cbv zeta.
    match goal with
    | |- context [fold_left _ tasks (?fc', ?temp')] =>
        destruct (IH fc' temp') as [Hn [Ht [Hs [Hget Htemp]]]]
    end.
    split; [exact Hn|]. split; [exact Ht|]. split; [exact Hs|]. split.
    + intros i j t s. etransitivity; [apply Hget|].
      cbn [get4 fill_diagonal_view existsb].
      destruct (i =? j), (existsb (Nat.eqb t) tasks), (s =? subjNum), (t =? a);
        reflexivity.
    + intros i j t. etransitivity; [apply Htemp|].
      cbn [get4 fill_diagonal_view existsb].
      rewrite !Nat.eqb_refl.
      destruct (existsb (Nat.eqb t) tasks) eqn:E2;
        destruct (Nat.eqb_spec t a) as [E|Hne]; try subst t;
        destruct (i =? j); cbn [andb orb]; reflexivity.
Qed.

Lemma existsb_range (t n : nat) : existsb (Nat.eqb t) (range n) = (t <? n).
Proof.
  destruct (Nat.ltb_spec t n) as [Hlt|Hge].
  - apply existsb_exists. exists t. split; [|apply Nat.eqb_refl].
    unfold range. apply in_seq. lia.
  - destruct (existsb (Nat.eqb t) (range n)) eqn:E; [|reflexivity].
    apply existsb_exists in E. destruct E as [x [Hx Ex]].
    apply Nat.eqb_eq in Ex. subst x. unfold range in Hx. apply in_seq in Hx. lia.
Qed.

Lemma set_col_length {A : Type} (c : nat) (col : nat -> A) (a : list (list A)) :
  length (set_col c col a) = length a.
Proof.
  unfold set_col. rewrite length_map, length_combine. unfold range.
  rewrite length_seq. lia.
Qed.

Lemma set_col_nth {A : Type} (c : nat) (col : nat -> A) (a : list (list A)) (i : nat) :
  i < length a ->
  nth i (set_col c col a) [] = upd c (col i) (nth i a []).
Proof.
  intros Hi. unfold set_col.
  apply nth_error_nth.
  rewrite nth_error_map. unfold range. rewrite combine_seq_nth_error.
  destruct (nth_error a i) as [row|] eqn:E.
  - simpl. rewrite (nth_error_nth _ _ _ E). reflexivity.
  - apply nth_error_None in E. lia.
Qed.

End GvcFacts.

Section GvcLoop.
Context {F : Type} {AF : Arith F}.
Variable np_sqrt : F -> F.
Variable fc0 : conn4 (F := F).

Lemma gvc_column (fcArray : conn4) (tempSubj temp1 : nat -> nat -> nat -> F)
  (subjNum i : nat) :
  (forall i j t s, i <> j -> get4 fcArray i j t s = get4 fc0 i j t s) ->
  (forall i j t,
      temp1 i j t
      = if existsb (Nat.eqb t) (range (tasks4 fc0))
        then (if i =? j then fnan else get4 fcArray i j t subjNum)
        else tempSubj i j t) ->
  np_nanmean
    (map (fun j => np_nanstd np_sqrt (map (fun t => temp1 i j t) (range (tasks4 fc0))))
         (range (nodes4 fc0)))
  = gvc_score np_sqrt fc0 i subjNum.
Proof.
  intros Hoff Htemp. unfold gvc_score. f_equal.
  apply map_ext. intros j. f_equal. apply map_ext_in. intros t Ht.
  rewrite Htemp, existsb_range.
  unfold range in Ht. apply in_seq in Ht.
  destruct (Nat.ltb_spec t (tasks4 fc0)) as [_|Hge]; [|lia].
  destruct (Nat.eqb_spec i j) as [_|Hne]; [reflexivity|].
  apply Hoff. exact Hne.
Qed.

Lemma nth_upd (c s : nat) (v d : F) (row : list F) :
  s < length row ->
  nth s (upd c v row) d = if s =? c then v else nth s row d.
Proof.
  intros Hs. destruct (Nat.eqb_spec s c) as [->|Hne].
  - apply nth_upd_eq. exact Hs.
  - apply nth_upd_neq. congruence.
Qed.

Lemma gvc_subjs_fold (subjs : list nat) (fcArray : conn4)
  (tempSubj : nat -> nat -> nat -> F) (g : list (list F)) :
  NoDup subjs ->
  (forall i j t s, i <> j -> get4 fcArray i j t s = get4 fc0 i j t s) ->
  let r := fold_left (gvc_subj_step np_sqrt (nodes4 fc0) (tasks4 fc0)) subjs
             (fcArray, tempSubj, g) in
  nodes4 (fst (fst r)) = nodes4 fcArray /\
  tasks4 (fst (fst r)) = tasks4 fcArray /\
  subjs4 (fst (fst r)) = subjs4 fcArray /\
  (forall i j t s,
      get4 (fst (fst r)) i j t s
      = if (i =? j) && (t <? tasks4 fc0) && existsb (Nat.eqb s) subjs then fnan
        else get4 fcArray i j t s) /\
  length (snd r) = length g /\
  (forall i, i < length g -> length (nth i (snd r) []) = length (nth i g [])) /\
  (forall i s, i < length g -> s < length (nth i g []) ->
               nth s (nth i (snd r) []) f0
               = if existsb (Nat.eqb s) subjs then gvc_score np_sqrt fc0 i s
                 else nth s (nth i g []) f0).
Proof.
  revert fcArray tempSubj g.
  induction subjs as [|a subjs IH]; intros fcArray tempSubj g Hnd Hoff;
    cbn [fold_left].
  - cbn [fst snd existsb]. repeat split; try reflexivity.
    intros i j t s. rewrite andb_false_r. reflexivity.
  - inversion Hnd as [|a' l' Hnotin Hnd']; subst.
    pose proof (gvc_tasks_fold a (range (tasks4 fc0)) fcArray tempSubj) as Hin.
    cbv zeta in Hin.
    remember (fold_left (gvc_task_step a) (range (tasks4 fc0)) (fcArray, tempSubj))
      as r1 eqn:Er1.
    destruct r1 as [fc1 temp1].
    cbn [fst snd] in Hin. destruct Hin as [Hn1 [Ht1 [Hs1 [Hget1 Htemp1]]]].
    set (g' := set_col a
                 (fun i =>
                    np_nanmean
                      (map (fun j =>
                              np_nanstd np_sqrt
                                (map (fun t => temp1 i j t) (range (tasks4 fc0))))
                           (range (nodes4 fc0)))) g).
    assert (Estep : gvc_subj_step np_sqrt (nodes4 fc0) (tasks4 fc0)
                      (fcArray, tempSubj, g) a = (fc1, temp1, g')).
    { unfold gvc_subj_step. rewrite <- Er1. reflexivity. }
    rewrite Estep. clear Estep Er1.
    specialize (IH fc1 temp1 g' Hnd').
    cbv zeta in IH.
    destruct IH as [Hn [Ht [Hs [Hget [Hlen [Hrows Hval]]]]]].
    { intros i j t s Hne. rewrite Hget1.
      destruct (Nat.eqb_spec i j) as [E|_]; [contradiction|].
      cbn [andb]. apply Hoff. exact Hne. }
    assert (Hg' : length g' = length g) by apply set_col_length.
    assert (Hrow' : forall i, i < length g ->
                 nth i g' [] = upd a (gvc_score np_sqrt fc0 i a) (nth i g [])).
    { intros i Hi. unfold g'. rewrite set_col_nth by exact Hi. f_equal.
      apply (@gvc_column fcArray tempSubj temp1 a i); [exact Hoff|exact Htemp1]. }
    split; [etransitivity; [exact Hn|exact Hn1]|].
    split; [etransitivity; [exact Ht|exact Ht1]|].
    split; [etransitivity; [exact Hs|exact Hs1]|].
    split.
    { intros i j t s. etransitivity; [apply Hget|].
      rewrite Hget1, existsb_range. cbn [existsb].
      destruct (i =? j), (t <? tasks4 fc0), (existsb (Nat.eqb s) subjs),
        (s =? a); reflexivity. }
    split; [etransitivity; [exact Hlen|exact Hg']|]. split.
    { intros i Hi. etransitivity; [apply Hrows; lia|].
      rewrite Hrow' by exact Hi. apply length_upd. }
    intros i s Hi Hs'.
    etransitivity;
      [apply Hval; [lia|rewrite Hrow' by exact Hi; rewrite length_upd; exact Hs']|].
    rewrite Hrow' by exact Hi. rewrite nth_upd by exact Hs'. cbn [existsb].
    destruct (Nat.eqb_spec s a) as [->|Hne].
    + destruct (existsb (Nat.eqb a) subjs) eqn:E; [|reflexivity].
      apply existsb_exists in E. destruct E as [x [Hx Ex]].
      apply Nat.eqb_eq in Ex. subst x. contradiction.
    + reflexivity.
Qed.

End GvcLoop.

Lemma nth_repeat_lt {A : Type} (x d : A) (n i : nat) :
  i < n -> nth i (repeat x n) d = x.
Proof.
  intros Hi. apply nth_error_nth. rewrite nth_error_repeat by exact Hi.
  reflexivity.
Qed.

Lemma gvc_fold_facts {F : Type} {AF : Arith F} (np_sqrt : F -> F) (fcArray : conn4) :
  let r := fold_left (gvc_subj_step np_sqrt (nodes4 fcArray) (tasks4 fcArray))
             (range (subjs4 fcArray))
             (fcArray, fun _ _ _ => f0,
              repeat (repeat f0 (subjs4 fcArray)) (nodes4 fcArray)) in
  (nodes4 (fst (fst r)) = nodes4 fcArray /\
   tasks4 (fst (fst r)) = tasks4 fcArray /\
   subjs4 (fst (fst r)) = subjs4 fcArray /\
   forall i j t s,
     get4 (fst (fst r)) i j t s
     = if (i =? j) && (t <? tasks4 fcArray) && (s <? subjs4 fcArray) then fnan
       else get4 fcArray i j t s) /\
  snd r = map (fun i => map (fun s => gvc_score np_sqrt fcArray i s)
                            (range (subjs4 fcArray)))
              (range (nodes4 fcArray)).
Proof.
  pose proof (@gvc_subjs_fold F AF np_sqrt fcArray (range (subjs4 fcArray)) fcArray
                (fun _ _ _ => f0)
                (repeat (repeat f0 (subjs4 fcArray)) (nodes4 fcArray))) as H.
  cbv zeta in H. cbv zeta.
  destruct H as [Hn [Ht [Hs [Hget [Hlen [Hrows Hval]]]]]].
  { unfold range. apply seq_NoDup. }
  { reflexivity. }
  rewrite repeat_length in Hlen, Hrows, Hval.
  split.
  { split; [exact Hn|]. split; [exact Ht|]. split; [exact Hs|].
    intros i j t s. rewrite Hget, existsb_range. reflexivity. }
  apply nth_ext with (d := []) (d' := []).
  { rewrite Hlen, length_map. unfold range. rewrite length_seq. reflexivity. }
  intros i Hi. rewrite Hlen in Hi.
  rewrite (@nth_map_lt _ _ (fun i => map (fun s => gvc_score np_sqrt fcArray i s)
                                         (range (subjs4 fcArray)))
             (range (nodes4 fcArray)) i [] 0)
    by (unfold range; rewrite length_seq; exact Hi).
  unfold range at 2. rewrite seq_nth by exact Hi. cbn [plus].
  specialize (Hrows i Hi). rewrite nth_repeat_lt, repeat_length in Hrows by exact Hi.
  apply nth_ext with (d := f0) (d' := f0).
  { rewrite Hrows, length_map. unfold range. rewrite length_seq. reflexivity. }
  intros s Hs'. rewrite Hrows in Hs'.
  rewrite Hval; [|exact Hi|rewrite nth_repeat_lt, repeat_length by exact Hi; exact Hs'].
  rewrite existsb_range.
  destruct (Nat.ltb_spec s (subjs4 fcArray)) as [_|Hge]; [|lia].
  rewrite (@nth_map_lt _ _ (fun s => gvc_score np_sqrt fcArray i s)
             (range (subjs4 fcArray)) s f0 0)
    by (unfold range; rewrite length_seq; exact Hs').
  unfold range. rewrite seq_nth by exact Hs'. reflexivity.
Qed.

Lemma gvc_result {F : Type} {AF : Arith F} (np_sqrt : F -> F) (fcArray : conn4) :
  snd (gvc np_sqrt fcArray)
  = map (fun i => map (fun s => gvc_score np_sqrt fcArray i s)
                      (range (subjs4 fcArray)))
        (range (nodes4 fcArray)).
Proof.
  rewrite gvc_unfold. cbv zeta. cbn [snd].
  apply (gvc_fold_facts np_sqrt fcArray).
Qed.


(** X8.  After a call of [gvc] the caller's array has the same shape, NaN on the
    diagonal of every task and subject, and its other entries unchanged. *)
Theorem gvc_leaves_nan_on_the_diagonal :
  forall (F : Type) (AF : Arith F) (np_sqrt : F -> F) (fcArray : conn4),
    let after := fst (gvc np_sqrt fcArray) in
    nodes4 after = nodes4 fcArray /\
    tasks4 after = tasks4 fcArray /\
    subjs4 after = subjs4 fcArray /\
    forall i j t s,
      get4 after i j t s
      = if (i =? j) && (t <? tasks4 fcArray) && (s <? subjs4 fcArray) then fnan
        else get4 fcArray i j t s.
Proof.
  intros F AF np_sqrt fcArray. rewrite gvc_unfold. cbv zeta. cbn [fst].
  apply (gvc_fold_facts np_sqrt fcArray).
Qed.

(** Two arrays of one shape that agree off the diagonal. *)
Definition same_off_diagonal4 {F : Type} (fc1 fc2 : conn4 (F := F)) : Prop :=
  nodes4 fc1 = nodes4 fc2 /\ tasks4 fc1 = tasks4 fc2 /\ subjs4 fc1 = subjs4 fc2 /\
  forall i j t s, i < nodes4 fc1 -> j < nodes4 fc1 -> t < tasks4 fc1 ->
                  s < subjs4 fc1 -> i <> j ->
                  get4 fc1 i j t s = get4 fc2 i j t s.

Lemma gvc_score_same {F : Type} {AF : Arith F} (np_sqrt : F -> F)
  (fc1 fc2 : conn4) (i s : nat) :
  same_off_diagonal4 fc1 fc2 -> i < nodes4 fc1 -> s < subjs4 fc1 ->
  gvc_score np_sqrt fc1 i s = gvc_score np_sqrt fc2 i s.
Proof.
  intros [Hn [Ht [Hs Hget]]] Hi Hs'. unfold gvc_score. rewrite <- Hn, <- Ht.
  f_equal. apply map_ext_in. intros j Hj. f_equal. apply map_ext_in. intros t Ht'.
  unfold range in Hj, Ht'. apply in_seq in Hj. apply in_seq in Ht'.
  destruct (Nat.eqb_spec i j) as [_|Hne]; [reflexivity|].
  apply Hget; lia.
Qed.

(** X9.  The scores of [gvc] do not depend on the diagonal of [fcArray]. *)
Theorem gvc_ignores_the_diagonal :
  forall (F : Type) (AF : Arith F) (np_sqrt : F -> F) (fc1 fc2 : conn4),
    same_off_diagonal4 fc1 fc2 ->
    snd (gvc np_sqrt fc1) = snd (gvc np_sqrt fc2).
Proof.
  intros F AF np_sqrt fc1 fc2 Hsame. rewrite !gvc_result.
  pose proof Hsame as [Hn [_ [Hs _]]]. rewrite <- Hn, <- Hs.
  apply map_ext_in. intros i Hi. apply map_ext_in. intros s Hs'.
  unfold range in Hi, Hs'. apply in_seq in Hi. apply in_seq in Hs'.
  apply gvc_score_same; [exact Hsame|lia|lia].
Qed.

(** [gvc_input] with another diagonal. *)
Definition gvc_input_diag : conn4 (F := float) :=
  {| nodes4 := 2;
     tasks4 := 2;
     subjs4 := 1;
     get4 := fun i j t s => if i =? j then 9%float else get4 gvc_input i j t s |}.

Lemma gvc_ignores_the_diagonal_witness :
  snd (gvc PrimFloat.sqrt gvc_input) = snd (gvc PrimFloat.sqrt gvc_input_diag).
Proof.
  apply (@gvc_ignores_the_diagonal float binary64 PrimFloat.sqrt gvc_input
           gvc_input_diag).
  unfold same_off_diagonal4. do 3 (split; [reflexivity|]).
  intros i j t s _ _ _ _ Hne. simpl.
  destruct (Nat.eqb_spec i j) as [E|_]; [contradiction|reflexivity].
Defined.

(** ** gvc_plus_partition sorts and clusters the scores of gvc *)

(** The node behind each row of the sorted scores, and whether the two index
    vectors are within bounds. *)
Definition partition_order (nodeOrder : list nat)
  (adj : option (list boundary * list nat)) : list nat :=
  match adj with
  | None => nodeOrder
  | Some (_, nodeOrderNew) => map (fun k => nth k nodeOrder 0) nodeOrderNew
  end.

Definition partition_boundaries (netBoundaries : list boundary)
  (adj : option (list boundary * list nat)) : list boundary :=
  match adj with
  | None => netBoundaries
  | Some (netBoundariesNew, _) => netBoundariesNew
  end.

Definition orders_in_bounds (nParcels : nat) (nodeOrder : list nat)
  (adj : option (list boundary * list nat)) : bool :=
  forallb (fun k => k <? nParcels) nodeOrder &&
  match adj with
  | None => true
  | Some (_, nodeOrderNew) => forallb (fun k => k <? length nodeOrder) nodeOrderNew
  end.

Lemma slice_map {A B : Type} (g : A -> B) (a b : nat) (l : list A) :
  slice a b (map g l) = map g (slice a b l).
Proof. unfold slice. rewrite skipn_map, firstn_map. reflexivity. Qed.

Lemma gvc_plus_partition_unfold {F : Type} {AF : Arith F} (np_sqrt : F -> F)
  (fcArray : conn4) (netBoundaries : list boundary) (nodeOrder : list nat)
  (adj : option (list boundary * list nat)) :
  gvc_plus_partition np_sqrt fcArray netBoundaries nodeOrder adj
  = (fst (gvc np_sqrt fcArray),
     gvcNodesSubjs <- take_rows nodeOrder (snd (gvc np_sqrt fcArray)) ;;
     gvcNodesSubjs <-
       match adj with
       | Some (_, nodeOrderNew) => take_rows nodeOrderNew gvcNodesSubjs
       | None => Ok gvcNodesSubjs
       end ;;
     Ok (gvcNodesSubjs,
         map (fun netB =>
                map (fun subjNum =>
                       np_nanmean
                         (slice (b_start netB) (b_end netB + 1)
                                (map (fun r => nth subjNum r f0) gvcNodesSubjs)))
                    (range (subjs4 fcArray)))
             (partition_boundaries netBoundaries adj),
         map np_nanmean gvcNodesSubjs)).
Proof.
  unfold gvc_plus_partition, gvc, partition_boundaries. cbv zeta.
  match goal with
  | |- context [fold_left ?f ?l ?st] => destruct (fold_left f l st) as [[a b] c]
  end.
  cbn [fst snd]. destruct adj as [[bn new]|]; reflexivity.
Qed.


(** ** What deviation returns, the printed lines left aside *)

Section DeviationResult.
Context {F : Type} {AF : Arith F}.

Lemma snd_bindM {A B : Type} (c : M (F := F) A) (k : A -> M (F := F) B) :
  snd (bindM c k)
  = match snd c with
    | Ok a => snd (k a)
    | Raise e => Raise e
    end.
Proof.
  destruct c as [out [a|e]]; simpl; [|reflexivity].
  destruct (k a) as [out' r]. reflexivity.
Qed.

Lemma snd_mapMM {A B : Type} (f : A -> M (F := F) B) (xs : list A) :
  snd (mapMM f xs) = mapM (fun x => snd (f x)) xs.
Proof.
  induction xs as [|x xs IH]; [reflexivity|].
  cbn [mapMM mapM]. rewrite snd_bindM.
  destruct (snd (f x)) as [y|e]; [|reflexivity].
  cbn [bind]. rewrite snd_bindM, IH.
  destruct (mapM (fun x0 => snd (f x0)) xs); reflexivity.
Qed.

Lemma snd_when_then {A : Type} (b : bool) (m : msg (F := F)) (c : M (F := F) A) :
  snd (bindM (when b (print m)) (fun _ => c)) = snd c.
Proof. rewrite snd_bindM. destruct b; reflexivity. Qed.

(** The clustered values of one task: the sorting index, then the cluster
    means of every node. *)
Definition clustered_task (fcArray : conn4 (F := F)) (netBoundaries : list boundary)
  (nodeOrder : list nat) (adj : option (list boundary * list nat))
  (cell : nat -> nat -> list F) : result (list (list F)) :=
  ix <- sort_index (nodes4 fcArray) nodeOrder (option_map snd adj) ;;
  cluster_slice (nodes4 fcArray) (boundaries_here netBoundaries adj) ix cell.

Lemma deviation_mean_first_result (fcArray : conn4) (netBoundaries : list boundary)
  (nodeOrder : list nat) (adj : option (list boundary * list nat)) :
  snd (deviation fcArray netBoundaries nodeOrder true adj)
  = (cl <- mapM (fun ruleSet =>
                   clustered_task fcArray netBoundaries nodeOrder adj
                     (fun i j => map (fun s => get4 fcArray i j ruleSet s)
                                     (range (subjs4 fcArray))))
                (range (tasks4 fcArray)) ;;
     p <- mapM preferences cl ;;
     Ok (MeanFirst (subject_outputs (nodes4 fcArray) (tasks4 fcArray)
                      (boundaries_here netBoundaries adj) p))).
Proof.
  unfold deviation, deviation_with.
  fold (boundaries_here netBoundaries adj).
  cbv beta iota zeta.
  rewrite snd_bindM. cbn [snd print].
  rewrite snd_bindM, snd_mapMM.
  rewrite (mapM_ext_in _
             (fun ruleSet =>
                clustered_task fcArray netBoundaries nodeOrder adj
                  (fun i j => map (fun s => get4 fcArray i j ruleSet s)
                                  (range (subjs4 fcArray)))))
    by (intros ruleSet _; apply snd_when_then).
  destruct (mapM _ (range (tasks4 fcArray))) as [cl|e]; [|reflexivity].
  cbn [bind]. rewrite snd_bindM. cbn [snd print].
  rewrite snd_bindM. cbn [snd lift].
  destruct (mapM preferences cl) as [p|e]; [|reflexivity].
  cbn [bind].
  repeat (rewrite snd_bindM; cbn [snd print]).
  rewrite sanity_check_runs. cbn [snd].
  repeat (rewrite snd_bindM; cbn [snd print]).
  reflexivity.
Qed.

Lemma deviation_per_subject_result (fcArray : conn4) (netBoundaries : list boundary)
  (nodeOrder : list nat) (adj : option (list boundary * list nat)) :
  snd (deviation fcArray netBoundaries nodeOrder false adj)
  = (cl <- mapM (fun subjNum =>
                   mapM (fun taskNum =>
                           clustered_task fcArray netBoundaries nodeOrder adj
                             (fun i j => [get4 fcArray i j taskNum subjNum]))
                        (range (tasks4 fcArray)))
                (range (subjs4 fcArray)) ;;
     p <- mapM (mapM preferences) cl ;;
     Ok (PerSubject (map (subject_outputs (nodes4 fcArray) (tasks4 fcArray)
                            (boundaries_here netBoundaries adj)) p))).
Proof.
  destruct (snd (deviation fcArray netBoundaries nodeOrder false adj))
    as [r|e] eqn:H.
  - apply deviation_per_subject_inv in H.
    destruct H as [clustered [prefs [Hshape [Hp ->]]]].
    assert (Hcl : mapM (fun subjNum =>
                          mapM (fun taskNum =>
                                  clustered_task fcArray netBoundaries nodeOrder adj
                                    (fun i j => [get4 fcArray i j taskNum subjNum]))
                               (range (tasks4 fcArray)))
                       (range (subjs4 fcArray)) = Ok clustered).
    { clear Hp. induction Hshape as [|s cl_s ss cls Hs Hshape IH]; [reflexivity|].
      cbn [mapM]. rewrite IH.
      assert (E : mapM (fun taskNum =>
                          clustered_task fcArray netBoundaries nodeOrder adj
                            (fun i j => [get4 fcArray i j taskNum s]))
                       (range (tasks4 fcArray)) = Ok cl_s).
      { clear IH Hshape. induction Hs as [|t cl ts cl_s Ht Hs IH]; [reflexivity|].
        cbn [mapM]. unfold clustered_task at 1. rewrite Ht, IH. reflexivity. }
      rewrite E. reflexivity. }
    rewrite Hcl. cbn [bind]. rewrite Hp. reflexivity.
  - revert H. unfold deviation, deviation_with.
    fold (boundaries_here netBoundaries adj).
    cbv beta iota zeta.
    rewrite snd_bindM. cbn [snd print].
    rewrite snd_bindM, snd_mapMM.
    rewrite (mapM_ext_in _
               (fun subjNum =>
                  mapM (fun taskNum =>
                          clustered_task fcArray netBoundaries nodeOrder adj
                            (fun i j => [get4 fcArray i j taskNum subjNum]))
                       (range (tasks4 fcArray)))).
    2: { intros subjNum _. rewrite snd_mapMM. apply mapM_ext_in.
         intros taskNum _. apply snd_when_then. }
    destruct (mapM _ (range (subjs4 fcArray))) as [cl|e']; [|intros H; exact (eq_sym H)].
    cbn [bind]. rewrite snd_bindM. cbn [snd print].
    rewrite snd_bindM. cbn [snd lift].
    destruct (mapM (mapM preferences) cl) as [p|e']; [|intros H; exact (eq_sym H)].
    cbn [bind].
    repeat (rewrite snd_bindM; cbn [snd print]).
    rewrite snd_mapMM.
    rewrite mapM_total with (g := fun _ => tt)
      by (intros sc _; rewrite sanity_check_runs; reflexivity).
    repeat (rewrite snd_bindM; cbn [snd print]).
    intros H. discriminate H.
Qed.

End DeviationResult.

(** X11.  On an array with a single subject the two modes of [deviation] compute
    the same arrays: the mean-first mode returns [o] exactly when the
    per-subject mode returns [o] for its only subject, and one raises exactly
    when the other raises, the same exception. *)
Theorem single_subject_modes_agree :
  forall (F : Type) (AF : Arith F) (fcArray : conn4)
         (netBoundaries : list boundary) (nodeOrder : list nat)
         (adj : option (list boundary * list nat)),
    subjs4 fcArray = 1 ->
    (forall o,
        snd (deviation fcArray netBoundaries nodeOrder true adj) = Ok (MeanFirst o)
        <-> snd (deviation fcArray netBoundaries nodeOrder false adj)
            = Ok (PerSubject [o])) /\
    (forall e,
        snd (deviation fcArray netBoundaries nodeOrder true adj) = Raise e
        <-> snd (deviation fcArray netBoundaries nodeOrder false adj) = Raise e).
Proof.
  intros F AF fcArray netBoundaries nodeOrder adj HS.
  rewrite deviation_mean_first_result, deviation_per_subject_result, HS.
  change (range 1) with [0]. cbn [map mapM].
  destruct (mapM _ (range (tasks4 fcArray))) as [cl|e0]; cbn [bind mapM].
  - destruct (mapM preferences cl) as [p|e0]; cbn [bind map].
    + split.
      * intros o. split; intros H; injection H as <-; reflexivity.
      * intros e. split; intros H; discriminate H.
    + split.
      * intros o. split; intros H; discriminate H.
      * intros e. split; intros H; injection H as <-; reflexivity.
  - split.
    + intros o. split; intros H; discriminate H.
    + intros e. split; intros H; injection H as <-; reflexivity.
Qed.

Lemma single_subject_modes_agree_witness :
  (forall o,
      snd (deviation ten_tasks three_singletons [0; 1; 2] true None)
      = Ok (MeanFirst o)
      <-> snd (deviation ten_tasks three_singletons [0; 1; 2] false None)
          = Ok (PerSubject [o])) /\
  (forall e,
      snd (deviation ten_tasks three_singletons [0; 1; 2] true None) = Raise e
      <-> snd (deviation ten_tasks three_singletons [0; 1; 2] false None)
          = Raise e).
Proof.
  apply (@single_subject_modes_agree float binary64 ten_tasks three_singletons
           [0; 1; 2] None).
  reflexivity.
Defined.

(** X12.  With at least one task (and, in the per-subject mode, one subject), a
    node order holding an index past the last node makes [deviation] raise
    IndexError, in both modes. *)
Theorem deviation_bad_node_order_raises :
  forall (F : Type) (AF : Arith F) (fcArray : conn4)
         (netBoundaries : list boundary) (nodeOrder : list nat)
         (adj : option (list boundary * list nat)) (k : nat),
    In k nodeOrder -> nodes4 fcArray <= k ->
    0 < tasks4 fcArray ->
    snd (deviation fcArray netBoundaries nodeOrder true adj) = Raise IndexError /\
    (0 < subjs4 fcArray ->
     snd (deviation fcArray netBoundaries nodeOrder false adj) = Raise IndexError).
Proof.
  intros F AF fcArray netBoundaries nodeOrder adj k Hin Hk HT.
  assert (Hix : sort_index (nodes4 fcArray) nodeOrder (option_map snd adj)
                = Raise IndexError).
  { unfold sort_index.
    destruct (forallb (fun k0 => k0 <? nodes4 fcArray) nodeOrder) eqn:Hall;
      [|reflexivity].
    rewrite forallb_forall in Hall. apply Hall, Nat.ltb_lt in Hin. lia. }
  assert (Hfirst : forall (B : Type) (f : nat -> result B) (n : nat),
             0 < n -> f 0 = Raise IndexError ->
             mapM f (range n) = Raise IndexError).
  { intros B f n Hn Hf. destruct n as [|n]; [lia|].
    unfold range. cbn [seq mapM]. rewrite Hf. reflexivity. }
  split.
  - rewrite deviation_mean_first_result.
    rewrite Hfirst; [reflexivity|exact HT|].
    unfold clustered_task. rewrite Hix. reflexivity.
  - intros HS. rewrite deviation_per_subject_result.
    rewrite Hfirst; [reflexivity|exact HS|].
    apply Hfirst; [exact HT|].
    unfold clustered_task. rewrite Hix. reflexivity.
Qed.

Lemma deviation_bad_node_order_raises_witness :
  snd (deviation ten_tasks three_singletons [0; 1; 3] true None)
  = Raise IndexError /\
  (0 < subjs4 ten_tasks ->
   snd (deviation ten_tasks three_singletons [0; 1; 3] false None)
   = Raise IndexError).
Proof.
  apply (@deviation_bad_node_order_raises float binary64 ten_tasks
           three_singletons [0; 1; 3] None 3).
  - simpl. tauto.
  - simpl. lia.
  - simpl. lia.
Defined.

(** ** The mean-first mode keeps the one-hot structure *)

Section MeanFirstStructure.
Context {F : Type} {AF : Arith F}.

Lemma subject_outputs_structure (nParcels numTasks : nat) (bsHere : list boundary)
  (p : list (list (F * nat))) :
  length p = numTasks ->
  Forall (fun q => length q = nParcels /\
                   Forall (fun vi : F * nat => snd vi < length bsHere) q) p ->
  let o := subject_outputs nParcels numTasks bsHere p in
  let numNets := length bsHere in
  length (nodePrefIdxs o) = nParcels /\
  forall nodeNum idxs,
    nth_error (nodePrefIdxs o) nodeNum = Some idxs ->
    length idxs = numTasks /\
    Forall (fun idx => idx < numNets) idxs /\
    nth_error (maxMembershipsTF o) nodeNum = Some (map (one_hot numNets) idxs) /\
    nth_error (netAffinities o) nodeNum
    = Some (map (fun netNum =>
                   fdiv (np_sum (map (fun idx => of_bool (idx =? netNum)) idxs))
                        (of_nat numTasks))
                (range numNets)) /\
    list_sum (map (fun netNum => count_eq netNum idxs) (range numNets)) = numTasks.
Proof.
  intros HlenT Htasks o numNets. unfold o, subject_outputs. simpl.
  split.
  { unfold columns_to_rows. rewrite length_map. unfold range. apply length_seq. }
  intros nodeNum idxs Hidx.
  apply columns_to_rows_nth_error in Hidx. destruct Hidx as [Hnode ->].
  assert (Hbound : Forall (fun idx => idx < numNets)
                     (map (fun col => nth nodeNum col 0) (map (map snd) p))).
  { rewrite map_map. rewrite Forall_map.
    eapply Forall_impl; [|exact Htasks]. intros q [Hlp Hlt]. simpl.
    rewrite nth_map_lt with (d' := (f0, 0)) by lia.
    rewrite Forall_forall in Hlt. apply Hlt. apply nth_In. lia. }
  assert (Hrow : nth_error (columns_to_rows 0 nParcels (map (map snd) p)) nodeNum
                 = Some (map (fun col => nth nodeNum col 0) (map (map snd) p))).
  { unfold columns_to_rows. rewrite nth_error_map, nth_error_range by exact Hnode.
    reflexivity. }
  split; [rewrite !length_map; exact HlenT|].
  split; [exact Hbound|].
  split.
  { unfold memberships. rewrite nth_error_map, Hrow. reflexivity. }
  split.
  { unfold affinities, memberships. rewrite !nth_error_map, Hrow. simpl.
    f_equal. apply map_ext_in. intros netNum Hin. unfold range in Hin.
    apply in_seq in Hin. f_equal. f_equal. rewrite map_map.
    apply map_ext. intros idx. apply nth_one_hot. lia. }
  rewrite counts_add_up by exact Hbound. rewrite !length_map. exact HlenT.
Qed.

End MeanFirstStructure.

(** X13.  In the mean-first mode too, when [deviation] returns: every node has one
    preferred network per task, a network index; [maxMembershipsTF] is 1 at
    this index and 0 elsewhere; the node's row of [netAffinities] holds for
    each network the number of tasks preferring it over the number of tasks;
    and these numbers of tasks add up to the number of tasks. *)
Theorem mean_first_memberships_are_one_hot :
  forall (F : Type) (AF : Arith F) (fcArray : conn4)
         (netBoundaries : list boundary) (nodeOrder : list nat)
         (adj : option (list boundary * list nat)) (o : dev_outputs),
    snd (deviation fcArray netBoundaries nodeOrder true adj) = Ok (MeanFirst o) ->
    let numNets := length (boundaries_here netBoundaries adj) in
    length (nodePrefIdxs o) = nodes4 fcArray /\
    forall nodeNum idxs,
      nth_error (nodePrefIdxs o) nodeNum = Some idxs ->
      length idxs = tasks4 fcArray /\
      Forall (fun idx => idx < numNets) idxs /\
      nth_error (maxMembershipsTF o) nodeNum = Some (map (one_hot numNets) idxs) /\
      nth_error (netAffinities o) nodeNum
      = Some (map (fun netNum =>
                     fdiv (np_sum (map (fun idx => of_bool (idx =? netNum)) idxs))
                          (of_nat (tasks4 fcArray)))
                  (range numNets)) /\
      list_sum (map (fun netNum => count_eq netNum idxs) (range numNets))
      = tasks4 fcArray.
Proof.
  intros F AF fcArray netBoundaries nodeOrder adj o H.
  rewrite deviation_mean_first_result in H.
  inv_bind H. rename a into cl. inv_bind H. rename a into p.
  injection H as <-.
  apply (mapM_Forall
           (fun c => length c = nodes4 fcArray /\
                     Forall (fun row => length row
                                        = length (boundaries_here netBoundaries adj))
                            c)) in E.
  2: { intros t c _ Hc. unfold clustered_task in Hc. inv_bind Hc.
       apply cluster_slice_shape in Hc. exact Hc. }
  destruct E as [Hlcl Hcl].
  apply (mapM_Forall
           (fun q => length q = nodes4 fcArray /\
                     Forall (fun vi : F * nat =>
                               snd vi < length (boundaries_here netBoundaries adj))
                            q)) in E0.
  2: { intros c q Hin Hq. rewrite Forall_forall in Hcl.
       destruct (Hcl c Hin) as [Hlc Hrows].
       apply preferences_lt with (K := length (boundaries_here netBoundaries adj))
         in Hq; [|exact Hrows].
       destruct Hq as [Hlq Hlt]. split; [congruence|exact Hlt]. }
  destruct E0 as [Hlp Hp].
  apply subject_outputs_structure; [|exact Hp].
  rewrite Hlp, Hlcl. unfold range. apply length_seq.
Qed.

Lemma mean_first_memberships_are_one_hot_witness :
  exists o : dev_outputs,
    snd (deviation uneven_nan two_and_one [0; 1; 2] true None) = Ok (MeanFirst o) /\
    length (nodePrefIdxs o) = nodes4 uneven_nan /\
    forall nodeNum idxs,
      nth_error (nodePrefIdxs o) nodeNum = Some idxs ->
      length idxs = tasks4 uneven_nan /\
      Forall (fun idx => idx < 2) idxs /\
      nth_error (maxMembershipsTF o) nodeNum = Some (map (one_hot 2) idxs) /\
      nth_error (netAffinities o) nodeNum
      = Some (map (fun netNum =>
                     fdiv (np_sum (map (fun idx => of_bool (idx =? netNum)) idxs))
                          (of_nat (tasks4 uneven_nan)))
                  (range 2)) /\
      list_sum (map (fun netNum => count_eq netNum idxs) (range 2))
      = tasks4 uneven_nan.
Proof.
  eexists. split; [vm_compute; reflexivity|].
  apply (@mean_first_memberships_are_one_hot float binary64 uneven_nan
           two_and_one [0; 1; 2] None).
  vm_compute. reflexivity.
Defined.

(** ** glasser_ordering undoes the sorting into networks *)

Lemma where_eq_In (v : list nat) (k i : nat) :
  In i (where_eq v k) <-> i < length v /\ nth i v 0 = k.
Proof.
  unfold where_eq, range. rewrite filter_In, in_seq, Nat.eqb_eq. lia.
Qed.

Lemma filter_sorted_lt (f : nat -> bool) (l : list nat) :
  StronglySorted lt l -> StronglySorted lt (filter f l).
Proof.
  induction 1 as [|x l Hs IH Hx]; simpl; [constructor|].
  destruct (f x); [|exact IH]. constructor; [exact IH|].
  rewrite Forall_forall in *. intros y Hy. apply filter_In in Hy. apply Hx, Hy.
Qed.

Lemma seq_sorted_lt (s n : nat) : StronglySorted lt (seq s n).
Proof.
  revert s. induction n as [|n IH]; intros s; simpl; constructor; [apply IH|].
  rewrite Forall_forall. intros y Hy. apply in_seq in Hy. lia.
Qed.

Lemma where_eq_sorted_lt (v : list nat) (k : nat) : StronglySorted lt (where_eq v k).
Proof. unfold where_eq, range. apply filter_sorted_lt, seq_sorted_lt. Qed.

Lemma sorted_lt_NoDup (l : list nat) : StronglySorted lt l -> NoDup l.
Proof.
  induction 1 as [|x l Hs IH Hx]; constructor; [|exact IH].
  intros Hin. rewrite Forall_forall in Hx. specialize (Hx x Hin). lia.
Qed.

Lemma sorted_lt_unique (l1 l2 : list nat) :
  StronglySorted lt l1 -> StronglySorted lt l2 ->
  (forall x, In x l1 <-> In x l2) -> l1 = l2.
Proof.
  intros H1. revert l2. induction H1 as [|x l1 Hs1 IH Hx]; intros l2 H2 Hin.
  - destruct l2 as [|y l2]; [reflexivity|].
    exfalso. apply (proj2 (Hin y)). left. reflexivity.
  - destruct H2 as [|y l2 Hs2 Hy].
    + exfalso. apply (proj1 (Hin x)). left. reflexivity.
    + rewrite Forall_forall in Hx, Hy.
      assert (E : x = y).
      { destruct (proj1 (Hin x) (or_introl eq_refl)) as [E|Hxl2]; [congruence|].
        destruct (proj2 (Hin y) (or_introl eq_refl)) as [E|Hyl1]; [congruence|].
        specialize (Hx y Hyl1). specialize (Hy x Hxl2). lia. }
      subst y. f_equal. apply IH; [exact Hs2|].
      intros z. split; intros Hz.
      * destruct (proj1 (Hin z) (or_intror Hz)) as [E|Hz2]; [|exact Hz2].
        subst z. specialize (Hx x Hz). lia.
      * destruct (proj2 (Hin z) (or_intror Hz)) as [E|Hz1]; [|exact Hz1].
        subst z. specialize (Hy x Hz). lia.
Qed.

Lemma map_sorted_lt (f : nat -> nat) (l : list nat) :
  StronglySorted lt l ->
  (forall a b, In a l -> In b l -> a < b -> f a < f b) ->
  StronglySorted lt (map f l).
Proof.
  induction 1 as [|x l Hs IH Hx]; intros Hf; simpl; constructor.
  - apply IH. intros a b Ha Hb. apply Hf; right; assumption.
  - rewrite Forall_forall in *. intros y Hy. apply in_map_iff in Hy.
    destruct Hy as [z [<- Hz]]. apply Hf; [left; reflexivity|right; exact Hz|].
    apply Hx, Hz.
Qed.

(** [a[ixs] = vals] with as many values as indices, distinct and in range. *)
Lemma put_spec {A : Type} (d : A) (ixs : list nat) (vals a : list A) :
  length vals = length ixs -> NoDup ixs ->
  Forall (fun i => i < length a) ixs ->
  exists a',
    put ixs vals a = Ok a' /\ length a' = length a /\
    (forall m, m < length ixs -> nth (nth m ixs 0) a' d = nth m vals d) /\
    (forall i, ~ In i ixs -> nth i a' d = nth i a d).
Proof.
  intros Hlen Hnd Hin. unfold put. rewrite Hlen, Nat.eqb_refl.
  assert (Hall : forallb (fun k => k <? length a) ixs = true).
  { apply forallb_forall. rewrite Forall_forall in Hin. intros k Hk.
    apply Nat.ltb_lt, Hin, Hk. }
  rewrite Hall. cbn [negb]. eexists. split; [reflexivity|].
  clear Hall. revert vals a Hlen Hin.
  induction Hnd as [|i0 ixs Hnotin Hnd IH]; intros vals a Hlen Hin.
  - destruct vals; [|discriminate Hlen]. simpl. repeat split; try reflexivity.
    intros m Hm. simpl in Hm. lia.
  - destruct vals as [|v0 vals]; [discriminate Hlen|].
    inversion Hin as [|? ? Hi0 Hin']; subst.
    cbn [combine fold_left fst snd].
    destruct (IH vals (upd i0 v0 a)) as [Hl [Hval Hother]].
    + simpl in Hlen. lia.
    + rewrite length_upd. exact Hin'.
    + split; [rewrite Hl; apply length_upd|]. split.
      * intros [|m] Hm; cbn [nth].
        -- rewrite Hother by exact Hnotin. apply nth_upd_eq. exact Hi0.
        -- apply Hval. simpl in Hm. lia.
      * intros i Hi. rewrite Hother by (intros H; apply Hi; right; exact H).
        apply nth_upd_neq. intros E. apply Hi. left. exact E.
Qed.

Section GlasserFacts.
Variables (nodeIndices nodeOrder : list nat) (nParcels numNets : nat).

(** [nodeOrder] sorts the nodes into the networks of [nodeIndices]: it is a
    permutation of the nodes, every node has a network number in
    [1 .. numNets], and the nodes of one network come in increasing order. *)
Definition sorts_into_networks : Prop :=
  length nodeIndices = nParcels /\
  Permutation nodeOrder (range nParcels) /\
  Forall (fun k => 1 <= k <= numNets) nodeIndices /\
  forall a b, a < b < nParcels ->
              nth (nth a nodeOrder 0) nodeIndices 0
              = nth (nth b nodeOrder 0) nodeIndices 0 ->
              nth a nodeOrder 0 < nth b nodeOrder 0.

Hypothesis sorted : sorts_into_networks.

Let orderedVec := map (fun k => nth k nodeIndices 0) nodeOrder.

Lemma order_length : length nodeOrder = nParcels.
Proof.
  destruct sorted as [_ [Hperm _]]. apply Permutation_length in Hperm.
  unfold range in Hperm. rewrite length_seq in Hperm. exact Hperm.
Qed.

Lemma order_lt (a : nat) : a < nParcels -> nth a nodeOrder 0 < nParcels.
Proof.
  intros Ha. destruct sorted as [_ [Hperm _]].
  assert (Hin : In (nth a nodeOrder 0) (range nParcels)).
  { apply (Permutation_in _ Hperm), nth_In. rewrite order_length. exact Ha. }
  unfold range in Hin. apply in_seq in Hin. lia.
Qed.

Lemma order_onto (i : nat) :
  i < nParcels -> exists a, a < nParcels /\ nth a nodeOrder 0 = i.
Proof.
  intros Hi. destruct sorted as [_ [Hperm _]].
  assert (Hin : In i nodeOrder).
  { apply (Permutation_in _ (Permutation_sym Hperm)). unfold range.
    apply in_seq. lia. }
  destruct (In_nth _ _ 0 Hin) as [a [Ha E]]. exists a.
  rewrite order_length in Ha. split; assumption.
Qed.

Lemma orderedVec_nth (a : nat) :
  a < nParcels -> nth a orderedVec 0 = nth (nth a nodeOrder 0) nodeIndices 0.
Proof.
  intros Ha. unfold orderedVec.
  apply (@nth_map_lt _ _ (fun k => nth k nodeIndices 0) nodeOrder a 0 0).
  rewrite order_length. exact Ha.
Qed.

Lemma take_orderedVec : take 0 nodeOrder nodeIndices = Ok orderedVec.
Proof.
  unfold take. destruct sorted as [Hlen _].
  assert (Hall : forallb (fun k => k <? length nodeIndices) nodeOrder = true).
  { apply forallb_forall. intros k Hk. apply Nat.ltb_lt. rewrite Hlen.
    destruct (In_nth _ _ 0 Hk) as [a [Ha <-]]. apply order_lt.
    rewrite <- order_length. exact Ha. }
  rewrite Hall. reflexivity.
Qed.

(** The positions of a network in the sorted vector, sent through
    [nodeOrder], are the nodes of the network. *)
Lemma finders_match (k : nat) :
  map (fun a => nth a nodeOrder 0) (where_eq orderedVec k) = where_eq nodeIndices k.
Proof.
  pose proof sorted as [Hlen [_ [_ Hmono]]].
  assert (Hlw : length orderedVec = nParcels).
  { unfold orderedVec. rewrite length_map. apply order_length. }
  apply sorted_lt_unique.
  - apply map_sorted_lt; [apply where_eq_sorted_lt|].
    intros a b Ha Hb Hab. apply where_eq_In in Ha, Hb.
    destruct Ha as [Ha Ea], Hb as [Hb Eb]. rewrite Hlw in Ha, Hb.
    rewrite orderedVec_nth in Ea, Eb by assumption.
    apply Hmono; [lia|congruence].
  - apply where_eq_sorted_lt.
  - intros x. rewrite in_map_iff, where_eq_In. split.
    + intros [a [<- Ha]]. apply where_eq_In in Ha. destruct Ha as [Ha Ea].
      rewrite Hlw in Ha. rewrite orderedVec_nth in Ea by exact Ha.
      split; [rewrite Hlen; apply order_lt; exact Ha|exact Ea].
    + intros [Hx Ex]. rewrite Hlen in Hx.
      destruct (order_onto Hx) as [a [Ha Ea]]. exists a. split; [exact Ea|].
      apply where_eq_In. rewrite Hlw, orderedVec_nth by exact Ha.
      split; [exact Ha|congruence].
Qed.

(** [newOrder] after the networks of [done] have been visited. *)
Definition inverse_on (done : list nat) (newOrder : list nat) : Prop :=
  length newOrder = nParcels /\
  forall i, i < nParcels -> In (nth i nodeIndices 0) done ->
            nth i newOrder 0 < nParcels /\ nth (nth i newOrder 0) nodeOrder 0 = i.

Lemma new_order_step (k : nat) (done newOrder : list nat) :
  inverse_on done newOrder ->
  exists newOrder',
    put (where_eq nodeIndices k) (where_eq orderedVec k) newOrder = Ok newOrder' /\
    inverse_on (done ++ [k]) newOrder'.
Proof.
  intros [Hl Hinv]. pose proof sorted as [Hlen _].
  assert (Hlw : length orderedVec = nParcels).
  { unfold orderedVec. rewrite length_map. apply order_length. }
  destruct (@put_spec nat 0 (where_eq nodeIndices k) (where_eq orderedVec k) newOrder)
    as [newOrder' [Hput [Hl' [Hval Hother]]]].
  - rewrite <- (finders_match k). symmetry. apply length_map.
  - apply sorted_lt_NoDup, where_eq_sorted_lt.
  - rewrite Forall_forall. intros i Hi. apply where_eq_In in Hi. lia.
  - exists newOrder'. split; [exact Hput|]. split; [congruence|].
    intros i Hi Hdone.
    destruct (Nat.eq_dec (nth i nodeIndices 0) k) as [Ek|Hne].
    + assert (Hin : In i (where_eq nodeIndices k)).
      { apply where_eq_In. split; [lia|exact Ek]. }
      destruct (In_nth _ _ 0 Hin) as [m [Hm Em]].
      rewrite <- Em, (Hval m Hm).
      assert (Hm' : m < length (where_eq orderedVec k)).
      { rewrite <- (finders_match k), length_map in Hm. exact Hm. }
      assert (Hpos : In (nth m (where_eq orderedVec k) 0) (where_eq orderedVec k))
        by (apply nth_In; exact Hm').
      apply where_eq_In in Hpos. destruct Hpos as [Hpos _]. rewrite Hlw in Hpos.
      split; [exact Hpos|].
      rewrite <- (finders_match k).
      symmetry.
      apply (@nth_map_lt _ _ (fun a => nth a nodeOrder 0) (where_eq orderedVec k)
               m 0 0).
      exact Hm'.
    + rewrite Hother.
      * apply Hinv; [exact Hi|]. apply in_app_or in Hdone.
        destruct Hdone as [Hd|[E|[]]]; [exact Hd|congruence].
      * intros Hin. apply where_eq_In in Hin. destruct Hin as [_ E]. contradiction.
Qed.

Lemma new_order_loop (ks done newOrder : list nat) :
  inverse_on done newOrder ->
  exists newOrder',
    for_ ks (fun netNum newOrder =>
               put (where_eq nodeIndices netNum) (where_eq orderedVec netNum)
                   newOrder)
         newOrder = Ok newOrder' /\
    inverse_on (done ++ ks) newOrder'.
Proof.
  revert done newOrder. induction ks as [|k ks IH]; intros done newOrder Hinv.
  - exists newOrder. rewrite app_nil_r. split; [reflexivity|exact Hinv].
  - destruct (new_order_step k Hinv) as [n1 [Hput H1]].
    destruct (IH _ _ H1) as [n2 [Hfor H2]].
    exists n2. cbn [for_]. rewrite Hput. cbn [bind].
    split; [exact Hfor|]. rewrite <- app_assoc in H2. exact H2.
Qed.

Lemma new_order_inverse :
  exists newOrder,
    glasser_new_order nodeIndices nodeOrder nParcels numNets = Ok newOrder /\
    length newOrder = nParcels /\
    forall i, i < nParcels ->
              nth i newOrder 0 < nParcels /\ nth (nth i newOrder 0) nodeOrder 0 = i.
Proof.
  unfold glasser_new_order. rewrite take_orderedVec. cbn [bind].
  destruct (@new_order_loop (range2 1 (numNets + 1)) [] (repeat 0 nParcels))
    as [newOrder [Hfor [Hl Hinv]]].
  - split; [apply repeat_length|]. intros i _ [].
  - exists newOrder. split; [exact Hfor|]. split; [exact Hl|].
    intros i Hi. apply Hinv; [exact Hi|]. cbn [app].
    destruct sorted as [Hlen [_ [Hnets _]]]. rewrite Forall_forall in Hnets.
    assert (Hk : 1 <= nth i nodeIndices 0 <= numNets).
    { apply Hnets, nth_In. lia. }
    unfold range2. apply in_seq. lia.
Qed.

End GlasserFacts.

(** Four nodes in two networks, sorted into networks by [[1; 3; 0; 2]];
    three vertices per hemisphere. *)
Definition small_nodeIndices : list nat := [2; 1; 2; 1].
Definition small_nodeOrder : list nat := [1; 3; 0; 2].
Definition small_leftNodes : list Z := [0; 3; 4]%Z.
Definition small_rightNodes : list Z := [2; 0; 1]%Z.

(** X14.  When [nodeOrder] sorts the nodes into networks, keeping the nodes of one
    network in increasing order, the set-up loop computes the inverse of
    [nodeOrder], and [glasser_ordering] applied to a vector sorted by
    [nodeOrder] returns, as [dataVector], the vector in its original order. *)
Theorem glasser_ordering_undoes_the_sorting :
  forall (F : Type) (AF : Arith F) (nodeIndices nodeOrder : list nat)
         (leftNodes rightNodes : list Z) (nParcels numNets numTotal : nat),
    sorts_into_networks nodeIndices nodeOrder nParcels numNets ->
    (exists newOrder,
        glasser_new_order nodeIndices nodeOrder nParcels numNets = Ok newOrder /\
        length newOrder = nParcels /\
        forall i, i < nParcels -> nth (nth i newOrder 0) nodeOrder 0 = i) /\
    forall (data : list F) (res : list F * list F),
      length data = nParcels ->
      glasser_ordering nodeIndices nodeOrder leftNodes rightNodes nParcels numNets
        numTotal (map (fun k => nth k data fnan) nodeOrder) = Ok res ->
      fst res = data.
Proof.
  intros F AF nodeIndices nodeOrder leftNodes rightNodes nParcels numNets numTotal
         Hsorted.
  destruct (new_order_inverse Hsorted) as [newOrder [Hnew [Hl Hinv]]].
  split.
  { exists newOrder. split; [exact Hnew|]. split; [exact Hl|].
    intros i Hi. apply Hinv. exact Hi. }
  intros data res Hdata H. unfold glasser_ordering in H.
  rewrite Hnew in H. cbn [bind] in H.
  pose proof (order_length Hsorted) as Hlo.
  assert (Htake : take fnan newOrder (map (fun k => nth k data fnan) nodeOrder)
                  = Ok data).
  { unfold take. rewrite length_map, Hlo.
    assert (Hall : forallb (fun k => k <? nParcels) newOrder = true).
    { apply forallb_forall. intros k Hk. apply Nat.ltb_lt.
      destruct (In_nth _ _ 0 Hk) as [i [Hi <-]]. apply Hinv. lia. }
    rewrite Hall. cbn [negb]. f_equal.
    apply nth_ext with (d := fnan) (d' := fnan); [rewrite length_map; congruence|].
    intros i Hi. rewrite length_map, Hl in Hi.
    rewrite (@nth_map_lt _ _ (fun k => nth k (map (fun k0 => nth k0 data fnan)
                                                   nodeOrder) fnan)
               newOrder i fnan 0) by lia.
    destruct (Hinv i Hi) as [Hlt Hback].
    rewrite (@nth_map_lt _ _ (fun k => nth k data fnan) nodeOrder
               (nth i newOrder 0) fnan 0) by lia.
    rewrite Hback. reflexivity. }
  rewrite Htake in H. cbn [bind] in H.
  inv_bind H. inv_bind H. injection H as <-. reflexivity.
Qed.

Lemma small_sorts_into_networks :
  sorts_into_networks small_nodeIndices small_nodeOrder 4 2.
Proof.
  unfold sorts_into_networks, small_nodeIndices, small_nodeOrder.
  split; [reflexivity|]. split.
  { change (range 4) with [0; 1; 2; 3].
    apply Permutation_trans with (l' := [1; 0; 3; 2]).
    - apply perm_skip. apply perm_swap.
    - apply Permutation_trans with (l' := [0; 1; 3; 2]); [apply perm_swap|].
      do 2 apply perm_skip. apply perm_swap. }
  split; [repeat constructor; lia|].
  intros a b Hab E.
  destruct a as [|[|[|[|a]]]]; destruct b as [|[|[|[|b]]]]; simpl in *;
    try lia; discriminate E.
Qed.

Lemma glasser_ordering_undoes_the_sorting_witness :
  exists res : list float * list float,
    glasser_ordering small_nodeIndices small_nodeOrder small_leftNodes
      small_rightNodes 4 2 8
      (map (fun k => nth k [10; 11; 12; 13]%float fnan) small_nodeOrder) = Ok res /\
    fst res = [10; 11; 12; 13]%float.
Proof.
  eexists. split; [vm_compute; reflexivity|].
  refine (proj2 (@glasser_ordering_undoes_the_sorting float binary64
                   small_nodeIndices small_nodeOrder small_leftNodes
                   small_rightNodes 4 2 8 small_sorts_into_networks)
                [10; 11; 12; 13]%float _ eq_refl _).
  vm_compute. reflexivity.
Defined.

(** ** The vertex vector of glasser_ordering *)

Lemma set_at_twice {A : Type} (i : nat) (x y : A) (a : list A) :
  (a' <- set_at i x a ;; set_at i y a') = set_at i y a.
Proof.
  unfold set_at. destruct (Nat.leb_spec (length a) i) as [Hge|Hlt]; [reflexivity|].
  cbn [bind]. rewrite length_upd.
  destruct (Nat.leb_spec (length a) i) as [Hge|_]; [lia|].
  f_equal. revert i Hlt. induction a as [|z a IH]; intros [|i] Hlt;
    simpl in *; try lia; try reflexivity.
  f_equal. apply IH. lia.
Qed.

(** A loop whose iteration [i] computes a value and writes it at [i]. *)
Lemma for_writes {A : Type} (d : A) (g : nat -> result A) (len s : nat)
  (a a' : list A) :
  for_ (seq s len) (fun i a => v <- g i ;; set_at i v a) a = Ok a' ->
  length a' = length a /\
  (forall i, s <= i < s + len -> i < length a /\ g i = Ok (nth i a' d)) /\
  (forall i, ~ s <= i < s + len -> nth i a' d = nth i a d).
Proof.
  revert s a. induction len as [|len IH]; intros s a H; simpl in H.
  - injection H as <-. split; [reflexivity|]. split; [intros; lia|reflexivity].
  - destruct (g s) as [v|e] eqn:Hg; cbn [bind] in H; [|discriminate H].
    unfold set_at at 1 in H.
    destruct (Nat.leb_spec (length a) s) as [Hge|Hlt]; cbn [bind] in H;
      [discriminate H|].
    apply IH in H. destruct H as [Hl [Hin Hout]]. rewrite length_upd in Hl, Hin.
    split; [exact Hl|]. split.
    + intros i Hi. destruct (Nat.eq_dec i s) as [->|Hne].
      * split; [exact Hlt|]. rewrite Hout by lia. rewrite nth_upd_eq by exact Hlt.
        exact Hg.
      * apply Hin. lia.
    + intros i Hi. rewrite Hout by lia. apply nth_upd_neq. lia.
Qed.

Section GlasserVertices.
Context {F : Type} {AF : Arith F}.
Variables (nodeIndices nodeOrder : list nat) (leftNodes rightNodes : list Z).
Variables (nParcels numNets numTotal : nat).

(** The value of a vertex with label [parcelIx]: 0 for no parcel, and the
    entry of [dataVector] at [parcelIx -/+ nParcels/2 - 1], truncated towards
    zero and read as a Python index, for a parcel. *)
Definition vertex_value (dataVector : list F) (plus : bool) (parcelIx : Z)
  : result F :=
  if (parcelIx =? 0)%Z then Ok f0
  else
    let twice :=
      if plus then (2 * parcelIx + Z.of_nat nParcels)%Z
      else (2 * parcelIx - Z.of_nat nParcels)%Z in
    py_index fnan dataVector (Z.quot twice 2 - 1)%Z.

Lemma hemisphere_vertex_writes (vec : list F) (plus : bool) (parcelIx : Z)
  (vertNum : nat) (a : list F) :
  hemisphere_vertex nParcels vec plus parcelIx vertNum a
  = (v <- vertex_value vec plus parcelIx ;; set_at vertNum v a).
Proof.
  unfold hemisphere_vertex, vertex_value.
  destruct (parcelIx =? 0)%Z; [|reflexivity].
  cbn [bind]. apply set_at_twice.
Qed.

Lemma label_at (labels : list Z) (i : nat) (p : Z) :
  py_index 0%Z labels (Z.of_nat i) = Ok p -> i < length labels /\ nth i labels 0%Z = p.
Proof.
  unfold py_index. cbv zeta.
  destruct ((0 <=? Z.of_nat i) && (Z.of_nat i <? Z.of_nat (length labels)))%Z eqn:E.
  - intros H. injection H as <-. rewrite Nat2Z.id.
    apply andb_true_iff in E. destruct E as [_ E]. apply Z.ltb_lt in E.
    split; [lia|reflexivity].
  - destruct ((- Z.of_nat (length labels) <=? Z.of_nat i) && (Z.of_nat i <? 0))%Z
      eqn:E2; [|discriminate].
    apply andb_true_iff in E2. destruct E2 as [_ E2]. apply Z.ltb_lt in E2. lia.
Qed.

End GlasserVertices.

(** X15.  When [glasser_ordering] returns, [dataVector_Vertices] has [numTotal]
    entries: a vertex of the left hemisphere with label 0 holds 0 and one
    with parcel label [p] the entry [p - nParcels/2 - 1] of [dataVector]; a
    vertex of the right hemisphere the entry [p + nParcels/2 - 1]; and every
    entry past the two hemispheres is NaN. *)
Theorem glasser_vertex_values :
  forall (F : Type) (AF : Arith F) (nodeIndices nodeOrder : list nat)
         (leftNodes rightNodes : list Z) (nParcels numNets numTotal : nat)
         (dataVectorSorted dataVector vertices : list F),
    glasser_ordering nodeIndices nodeOrder leftNodes rightNodes nParcels numNets
      numTotal dataVectorSorted = Ok (dataVector, vertices) ->
    let numBalsa := length leftNodes in
    length vertices = numTotal /\
    (forall v, v < numBalsa ->
               v < numTotal /\
               vertex_value nParcels dataVector false (nth v leftNodes 0%Z)
               = Ok (nth v vertices fnan)) /\
    (forall v, numBalsa <= v < 2 * numBalsa ->
               v < numTotal /\ v - numBalsa < length rightNodes /\
               vertex_value nParcels dataVector true
                 (nth (v - numBalsa) rightNodes 0%Z)
               = Ok (nth v vertices fnan)) /\
    (forall v, 2 * numBalsa <= v < numTotal -> nth v vertices f0 = fnan).
Proof.
  intros F AF nodeIndices nodeOrder leftNodes rightNodes nParcels numNets numTotal
         dataVectorSorted dataVector vertices H numBalsa.
  unfold glasser_ordering in H.
  inv_bind H. rename a into newOrder. inv_bind H. rename a into vec.
  cbv zeta in H. fold numBalsa in H.
  rewrite (for_pointwise _ _
             (fun i a =>
                v <- (p <- py_index 0%Z leftNodes (Z.of_nat i) ;;
                      vertex_value nParcels vec false p) ;;
                set_at i v a)) in H.
  2: { intros i a. destruct (py_index 0%Z leftNodes (Z.of_nat i)); [|reflexivity].
       cbn [bind]. apply hemisphere_vertex_writes. }
  inv_bind H. rename a into nrv1.
  rewrite (for_pointwise _ _
             (fun i a =>
                v <- (p <- py_index 0%Z rightNodes (Z.of_nat (i - numBalsa)) ;;
                      vertex_value nParcels vec true p) ;;
                set_at i v a)) in H.
  2: { intros i a.
       destruct (py_index 0%Z rightNodes (Z.of_nat (i - numBalsa))); [|reflexivity].
       cbn [bind]. apply hemisphere_vertex_writes. }
  inv_bind H. rename a into nrv2.
  injection H as <- <-.
  unfold range in E1. apply (for_writes fnan) in E1.
  destruct E1 as [Hl1 [Hin1 _]]. rewrite repeat_length in Hl1, Hin1.
  unfold range2 in E2. replace (numBalsa * 2 - numBalsa) with numBalsa in E2 by lia.
  apply (for_writes fnan) in E2.
  destruct E2 as [Hl2 [Hin2 Hout2]]. rewrite Hl1 in Hl2, Hin2.
  assert (Hnth : forall v d, v < numBalsa * 2 -> v < numTotal ->
             nth v (firstn (numBalsa * 2) nrv2
                    ++ repeat fnan (length nrv2 - numBalsa * 2)) d
             = nth v nrv2 d).
  { intros v d Hv Hv'. rewrite app_nth1 by (rewrite length_firstn; lia).
    rewrite nth_firstn. destruct (Nat.ltb_spec v (numBalsa * 2)); [reflexivity|lia]. }
  split.
  { rewrite length_app, length_firstn, repeat_length. lia. }
  split.
  { intros v Hv. destruct (Hin1 v) as [Hvt Hg]; [lia|]. split; [exact Hvt|].
    rewrite Hnth by lia. rewrite Hout2 by lia.
    destruct (py_index 0%Z leftNodes (Z.of_nat v)) as [p|e] eqn:Hp;
      cbn [bind] in Hg; [|discriminate Hg].
    apply label_at in Hp. destruct Hp as [_ <-]. exact Hg. }
  split.
  { intros v Hv. destruct (Hin2 v) as [Hvt Hg]; [lia|]. split; [exact Hvt|].
    rewrite Hnth by lia.
    destruct (py_index 0%Z rightNodes (Z.of_nat (v - numBalsa))) as [p|e] eqn:Hp;
      cbn [bind] in Hg; [|discriminate Hg].
    apply label_at in Hp. destruct Hp as [Hlt <-]. split; [exact Hlt|exact Hg]. }
  intros v Hv. rewrite app_nth2 by (rewrite length_firstn; lia).
  rewrite length_firstn.
  apply nth_repeat_lt. lia.
Qed.

Lemma glasser_vertex_values_witness :
  exists dataVector vertices : list float,
    glasser_ordering small_nodeIndices small_nodeOrder small_leftNodes
      small_rightNodes 4 2 8 [11; 13; 10; 12]%float = Ok (dataVector, vertices) /\
    vertices = [0; 10; 11; 13; 0; 12; nan; nan]%float /\
    length vertices = 8 /\
    (forall v, v < 3 ->
               v < 8 /\
               vertex_value 4 dataVector false (nth v small_leftNodes 0%Z)
               = Ok (nth v vertices fnan)) /\
    (forall v, 3 <= v < 2 * 3 ->
               v < 8 /\ v - 3 < length small_rightNodes /\
               vertex_value 4 dataVector true (nth (v - 3) small_rightNodes 0%Z)
               = Ok (nth v vertices fnan)) /\
    (forall v, 2 * 3 <= v < 8 -> nth v vertices f0 = fnan).
Proof.
  do 2 eexists. split; [vm_compute; reflexivity|]. split; [reflexivity|].
  apply (@glasser_vertex_values float binary64 small_nodeIndices small_nodeOrder
           small_leftNodes small_rightNodes 4 2 8 [11; 13; 10; 12]%float).
  vm_compute. reflexivity.
Defined.

(** ** The adjusted partition is a node order like any other *)

(** X16.  Calling [deviation] with [useRestPartitionAdjuster] and the arrays
    [netBoundariesNew], [nodeOrderNew] returns what a plain call returns for
    the boundaries [netBoundariesNew] and the node order
    [nodeOrder[nodeOrderNew]], when both index vectors are within bounds (the
    two calls differ in one printed line only). *)
Theorem deviation_adjusted_is_combined_order :
  forall (F : Type) (AF : Arith F) (fcArray : conn4)
         (netBoundaries netBoundariesNew : list boundary)
         (nodeOrder nodeOrderNew : list nat) (useMeanFirst : bool),
    Forall (fun k => k < nodes4 fcArray) nodeOrder ->
    Forall (fun k => k < length nodeOrder) nodeOrderNew ->
    snd (deviation fcArray netBoundaries nodeOrder useMeanFirst
           (Some (netBoundariesNew, nodeOrderNew)))
    = snd (deviation fcArray netBoundariesNew
             (combined_order nodeOrder nodeOrderNew) useMeanFirst None).
Proof.
  intros F AF fcArray netBoundaries netBoundariesNew nodeOrder nodeOrderNew
         useMeanFirst Hord Hnew.
  assert (Hix : sort_index (nodes4 fcArray) nodeOrder (Some nodeOrderNew)
                = sort_index (nodes4 fcArray)
                    (combined_order nodeOrder nodeOrderNew) None).
  { unfold sort_index.
    rewrite (forallb_Forall_lt Hord), (forallb_Forall_lt Hnew). cbn [negb].
    assert (Hc : Forall (fun k => k < nodes4 fcArray)
                        (combined_order nodeOrder nodeOrderNew)).
    { unfold combined_order. rewrite Forall_forall in *. intros k Hk.
      apply in_map_iff in Hk. destruct Hk as [m [<- Hm]].
      apply Hord, nth_In, Hnew, Hm. }
    rewrite (forallb_Forall_lt Hc). reflexivity. }
  assert (Htask : forall cell,
             clustered_task fcArray netBoundaries nodeOrder
               (Some (netBoundariesNew, nodeOrderNew)) cell
             = clustered_task fcArray netBoundariesNew
                 (combined_order nodeOrder nodeOrderNew) None cell).
  { intros cell. unfold clustered_task. cbn [option_map snd boundaries_here].
    rewrite Hix. reflexivity. }
  destruct useMeanFirst.
  - rewrite !deviation_mean_first_result. cbn [boundaries_here].
    rewrite (mapM_ext_in _
               (fun ruleSet =>
                  clustered_task fcArray netBoundariesNew
                    (combined_order nodeOrder nodeOrderNew) None
                    (fun i j => map (fun s => get4 fcArray i j ruleSet s)
                                    (range (subjs4 fcArray)))))
      by (intros t _; apply Htask).
    reflexivity.
  - rewrite !deviation_per_subject_result. cbn [boundaries_here].
    rewrite (mapM_ext_in _
               (fun subjNum =>
                  mapM (fun taskNum =>
                          clustered_task fcArray netBoundariesNew
                            (combined_order nodeOrder nodeOrderNew) None
                            (fun i j => [get4 fcArray i j taskNum subjNum]))
                       (range (tasks4 fcArray))))
      by (intros s _; apply mapM_ext_in; intros t _; apply Htask).
    reflexivity.
Qed.

Lemma deviation_adjusted_is_combined_order_witness :
  snd (deviation ten_tasks two_singletons [0; 1; 2] false
         (Some (three_singletons, [2; 0; 1])))
  = snd (deviation ten_tasks three_singletons
           (combined_order [0; 1; 2] [2; 0; 1]) false None).
Proof.
  apply (@deviation_adjusted_is_combined_order float binary64 ten_tasks
           two_singletons three_singletons [0; 1; 2] [2; 0; 1] false).
  - repeat constructor; simpl; lia.
  - repeat constructor; simpl; lia.
Defined.

(** ** The preferred network of restPartitionAdjuster is a best one *)

Section RestPreference.
Context {F : Type} {AF : Arith F}.
Variables (arctanh_libm tanh_libm : F -> F) (argsort : argsort_t).

(** [tempVec] of the first loop nest: for every network, the Fisher-z
    average of the node's connectivity with the network, the node itself
    left out. *)
Definition network_similarity (fcArray : conn3) (netBoundaries : list boundary)
  (nodeOrder : list nat) (subjNum nodeNum : nat) : list F :=
  let thisNodeVec :=
    map (fun b =>
           if nodeNum =? b then fnan
           else get3 fcArray (nth nodeNum nodeOrder 0) (nth b nodeOrder 0) subjNum)
        (range (length nodeOrder)) in
  map (fun netB =>
         np_tanh tanh_libm
           (np_nanmean
              (map (np_arctanh arctanh_libm)
                   (slice (b_start netB) (b_end netB + 1) thisNodeVec))))
      netBoundaries.

Lemma rev_head_is_last {A : Type} (l r : list A) (p d : A) :
  rev l = p :: r -> nth (length l - 1) l d = p.
Proof.
  intros H. apply (f_equal (@rev A)) in H. rewrite rev_involutive in H.
  subst l. cbn [rev]. rewrite length_app, length_rev. cbn [length].
  rewrite app_nth2 by (rewrite length_rev; lia).
  rewrite length_rev. replace (length r + 1 - 1 - length r) with 0 by lia.
  reflexivity.
Qed.

Lemma rest_preference_best (fcArray : conn3) (netBoundaries : list boundary)
  (nodeOrder : list nat) (subjNum nodeNum p : nat) :
  argsort_contract argsort ->
  strict_weak (np_lt (F := F)) ->
  rest_preference arctanh_libm tanh_libm argsort fcArray netBoundaries nodeOrder
    subjNum nodeNum = Ok p ->
  let tempVec := network_similarity fcArray netBoundaries nodeOrder subjNum nodeNum in
  p < length netBoundaries /\
  forall k, k < length netBoundaries ->
            np_lt (nth p tempVec fnan) (nth k tempVec fnan) = false.
Proof.
  intros Hc Hsw H tempVec.
  split; [exact (rest_preference_lt arctanh_libm tanh_libm Hc _ _ _ _ _ H)|].
  unfold rest_preference in H.
  destruct (length nodeOrder <=? nodeNum); [discriminate H|].
  cbv zeta in H. fold (network_similarity fcArray netBoundaries nodeOrder subjNum
                         nodeNum) in H.
  fold tempVec in H.
  pose proof (argsort_perm Hc np_lt tempVec) as Hperm.
  assert (HK : length tempVec = length netBoundaries).
  { unfold tempVec, network_similarity. apply length_map. }
  assert (Hlo : length (argsort np_lt tempVec) = length netBoundaries).
  { rewrite (Permutation_length Hperm). unfold range. rewrite length_seq. exact HK. }
  destruct (rev (argsort np_lt tempVec)) as [|q r] eqn:Hrev; [discriminate H|].
  injection H as ->.
  apply rev_head_is_last with (d := 0) in Hrev. rewrite Hlo in Hrev.
  intros k Hk.
  assert (Hin : In k (argsort np_lt tempVec)).
  { apply (Permutation_in _ (Permutation_sym Hperm)). unfold range.
    apply in_seq. lia. }
  destruct (In_nth _ _ 0 Hin) as [i [Hi Ei]]. rewrite Hlo in Hi.
  destruct (Nat.eq_dec i (length netBoundaries - 1)) as [->|Hne].
  - rewrite Hrev in Ei. subst k.
    destruct Hsw as [Hasym _].
    destruct (np_lt (nth p tempVec fnan) (nth p tempVec fnan)) eqn:E;
      [|reflexivity].
    rewrite (Hasym _ _ E) in E. discriminate E.
  - rewrite <- Hrev, <- Ei.
    apply (argsort_sorted Hc fnan tempVec Hsw). lia.
Qed.

End RestPreference.

Lemma Qc_ltb_asym (p q : Qc) : Qc_ltb p q = true -> Qc_ltb q p = false.
Proof.
  unfold Qc_ltb. intros H. apply negb_true_iff in H. apply negb_false_iff.
  apply Qle_bool_iff.
  destruct (Qlt_le_dec p q) as [Hlt|Hle].
  - apply Qlt_le_weak. exact Hlt.
  - apply Qle_bool_iff in Hle. congruence.
Qed.

Lemma Qc_ltb_negtrans (p q r : Qc) :
  Qc_ltb q p = false -> Qc_ltb r q = false -> Qc_ltb r p = false.
Proof.
  unfold Qc_ltb. intros H1 H2.
  apply negb_false_iff in H1. apply negb_false_iff in H2. apply negb_false_iff.
  apply Qle_bool_iff in H1. apply Qle_bool_iff in H2. apply Qle_bool_iff.
  apply Qle_trans with (y := q); assumption.
Qed.

Lemma xreal_np_lt_strict_weak : strict_weak (np_lt (F := xreal)).
Proof.
  split.
  - intros [|s|p] [|t|q]; unfold np_lt; simpl;
      try destruct s; try destruct t; simpl; try reflexivity; try discriminate.
    rewrite !orb_false_r. apply Qc_ltb_asym.
  - intros [|s|p] [|t|q] [|u|r]; unfold np_lt; simpl;
      try destruct s; try destruct t; try destruct u; simpl;
      try reflexivity; try discriminate.
    rewrite !orb_false_r. apply Qc_ltb_negtrans.
Qed.

(** Four nodes in two networks of two, one subject, in exact arithmetic:
    nodes 0 and 1 are joined by an edge, and so are nodes 2 and 3. *)
Definition xpaired : conn3 (F := xreal) :=
  mk_conn3 1
    (map (map (fun x : xreal => [x]))
       [[f0; f1; f0; f0];
        [f1; f0; f0; f0];
        [f0; f0; f0; f1];
        [f0; f0; f1; f0]]).

Definition xid (x : xreal) : xreal := x.

(** X17.  For an argsort that meets numpy's contract and an order on the numbers
    that is a strict weak order (NaN last), every entry of [restPreferences]
    is a network whose Fisher-z averaged connectivity with the node is not
    exceeded by that of any other network. *)
Theorem rest_preferences_are_best_networks :
  forall (F : Type) (AF : Arith F) (arctanh_libm tanh_libm : F -> F)
         (argsort : argsort_t) (fcArray : conn3) (netBoundaries : list boundary)
         (nodeOrder : list nat) (out : rest_outputs) (nodeNum subjNum : nat),
    argsort_contract argsort ->
    strict_weak (np_lt (F := F)) ->
    restPartitionAdjuster arctanh_libm tanh_libm argsort fcArray netBoundaries
      nodeOrder = Ok out ->
    nodeNum < nodes3 fcArray -> subjNum < subjs3 fcArray ->
    let p := nth subjNum (nth nodeNum (restPreferences out) []) 0 in
    let tempVec := network_similarity arctanh_libm tanh_libm fcArray netBoundaries
                     nodeOrder subjNum nodeNum in
    p < length netBoundaries /\
    forall k, k < length netBoundaries ->
              np_lt (nth p tempVec fnan) (nth k tempVec fnan) = false.
Proof.
  intros F AF arctanh_libm tanh_libm argsort fcArray netBoundaries nodeOrder out
         nodeNum subjNum Hc Hsw Hrun Hnode Hsubj p tempVec.
  apply restPartitionAdjuster_inv in Hrun. destruct Hrun as [rm [Hrp _]].
  unfold rest_preferences in Hrp. inv_bind Hrp. rename a into cols.
  apply mapM_Ok in E.
  assert (Hp : rest_preference arctanh_libm tanh_libm argsort fcArray netBoundaries
                 nodeOrder subjNum nodeNum = Ok p).
  { assert (Hlc : length cols = subjs3 fcArray).
    { apply Forall2_length in E. unfold range in E. rewrite length_seq in E.
      congruence. }
    destruct (nth_error cols subjNum) as [col|] eqn:Hcol;
      [|apply nth_error_None in Hcol; lia].
    destruct (Forall2_nth_error_l _ E Hcol) as [s [Hs Hcols]].
    apply nth_error_range_inv in Hs. destruct Hs as [-> _].
    destruct (negb (forallb (fun k => k <? nodes3 fcArray) nodeOrder));
      [discriminate Hcols|].
    apply mapM_Ok in Hcols.
    assert (Hlcol : length col = nodes3 fcArray).
    { apply Forall2_length in Hcols. unfold range in Hcols.
      rewrite length_seq in Hcols. congruence. }
    destruct (nth_error col nodeNum) as [q|] eqn:Hq;
      [|apply nth_error_None in Hq; lia].
    destruct (Forall2_nth_error_l _ Hcols Hq) as [n' [Hn' Hpref]].
    apply nth_error_range_inv in Hn'. destruct Hn' as [-> _].
    rewrite Hpref. f_equal. unfold p. injection Hrp as <-.
    rewrite (@nth_map_lt _ _ (fun nodeNum0 => map (fun col0 => nth nodeNum0 col0 0) cols)
               (range (nodes3 fcArray)) nodeNum [] 0)
      by (unfold range; rewrite length_seq; exact Hnode).
    unfold range. rewrite seq_nth by exact Hnode. cbn [plus].
    rewrite (@nth_map_lt _ _ (fun col0 => nth nodeNum col0 0) cols subjNum 0 [])
      by lia.
    rewrite (nth_error_nth _ _ _ Hcol). symmetry. apply nth_error_nth. exact Hq. }
  exact (rest_preference_best arctanh_libm tanh_libm fcArray netBoundaries nodeOrder
           subjNum nodeNum Hc Hsw Hp).
Qed.

Lemma rest_preferences_are_best_networks_witness :
  exists out : rest_outputs,
    restPartitionAdjuster xid xid argsort_stable xpaired two_pairs (range 4) = Ok out /\
    (let p := nth 0 (nth 2 (restPreferences out) []) 0 in
     let tempVec := network_similarity xid xid xpaired two_pairs (range 4) 0 2 in
     p < length two_pairs /\
     forall k, k < length two_pairs ->
               np_lt (nth p tempVec fnan) (nth k tempVec fnan) = false).
Proof.
  eexists. split; [vm_compute; reflexivity|].
  apply (@rest_preferences_are_best_networks xreal exact xid xid argsort_stable
           xpaired two_pairs (range 4) _ 2 0).
  - exact argsort_stable_contract.
  - exact xreal_np_lt_strict_weak.
  - vm_compute. reflexivity.
  - simpl. lia.
  - simpl. lia.
Defined.

(** ** gateway_coefficient_sign starts by clearing the diagonal *)

(** X18.  The coefficient and the array left to the caller do not depend on the
    diagonal of [fcArray]: two arrays with the same number of nodes that
    agree off the diagonal give the same result (or exception) and are left
    equal, with a diagonal of zeros. *)
Theorem gateway_ignores_the_diagonal :
  forall (F : Type) (AF : Arith F) (fc1 fc2 : conn2) (thisNetAffilVec : list nat)
         (numNets : nat) (centType : centrality),
    nodes2 fc1 = nodes2 fc2 ->
    (forall i j, i <> j -> get2 fc1 i j = get2 fc2 i j) ->
    gateway_coefficient_sign fc1 thisNetAffilVec numNets centType
    = gateway_coefficient_sign fc2 thisNetAffilVec numNets centType.
Proof.
  intros F AF fc1 fc2 affil numNets centType Hn Hoff.
  assert (Hfill : fill_diagonal fc1 f0 = fill_diagonal fc2 f0).
  { unfold fill_diagonal. rewrite Hn. f_equal.
    apply functional_extensionality. intros i.
    apply functional_extensionality. intros j.
    destruct (Nat.eqb_spec i j) as [_|Hne]; [reflexivity|apply Hoff; exact Hne]. }
  unfold gateway_coefficient_sign. cbv zeta. rewrite Hfill, Hn. reflexivity.
Qed.

(** [gateway_input] with another diagonal. *)
Definition gateway_input_diag : conn2 (F := float) :=
  mk_conn2 [[5; 2]; [3; 6]]%float.

Lemma gateway_ignores_the_diagonal_witness :
  gateway_coefficient_sign gateway_input [1; 2] 2 node_strength
  = gateway_coefficient_sign gateway_input_diag [1; 2] 2 node_strength.
Proof.
  apply (@gateway_ignores_the_diagonal float binary64 gateway_input
           gateway_input_diag [1; 2] 2 node_strength).
  - reflexivity.
  - intros i j Hne. unfold gateway_input, gateway_input_diag, mk_conn2. cbn [get2].
    destruct i as [|[|i]], j as [|[|j]]; try reflexivity; try contradiction;
      destruct i, j; reflexivity.
Defined.

(** ** More networks than the affiliation vector names *)

Lemma for_raises {A S : Type} (body : A -> S -> result S) (xs zs : list A) (y : A)
  (e : exn) (s : S) :
  (forall x t, In x xs -> exists t', body x t = Ok t') ->
  (forall t, body y t = Raise e) ->
  for_ (xs ++ y :: zs) body s = Raise e.
Proof.
  revert s. induction xs as [|x xs IH]; intros s Hok Hy; cbn [app for_].
  - rewrite Hy. reflexivity.
  - destruct (Hok x s (or_introl eq_refl)) as [t' ->]. cbn [bind].
    apply IH; [|exact Hy]. intros x' t Hin. apply Hok. right. exact Hin.
Qed.

(** X19.  With [centType='node_strength'] and [numNets] larger than the largest
    number in [thisNetAffilVec], the first loop writes past the last column
    of [ksArr]: the call raises IndexError. *)
Theorem gateway_too_many_networks_raises :
  forall (F : Type) (AF : Arith F) (fcArray : conn2) (thisNetAffilVec : list nat)
         (numNets : nat),
    nodes2 fcArray = length thisNetAffilVec ->
    thisNetAffilVec <> [] ->
    list_max thisNetAffilVec < numNets ->
    snd (gateway_coefficient_sign fcArray thisNetAffilVec numNets node_strength)
    = Raise IndexError.
Proof.
  intros F AF fcArray affil numNets Hlen Hne Hmax.
  unfold gateway_coefficient_sign. cbn [snd].
  rewrite Hlen, Nat.eqb_refl. cbn [negb].
  destruct affil as [|a affil]; [congruence|].
  set (nModules := list_max (a :: affil)) in *.
  replace (range2 1 (numNets + 1))
    with (seq 1 nModules ++ S nModules :: seq (S (S nModules)) (numNets - S nModules)).
  2: { unfold range2. replace (numNets + 1 - 1) with (nModules + S (numNets - S nModules))
         by lia.
       rewrite seq_app. cbn [seq]. replace (1 + nModules) with (S nModules) by lia.
       reflexivity. }
  rewrite for_raises with (e := IndexError); [reflexivity| |].
  - intros netNum [m ks] Hin. apply in_seq in Hin. cbn [use_centVec bind].
    destruct (Nat.leb_spec nModules (netNum - 1)) as [Hge|_]; [lia|].
    eexists. reflexivity.
  - intros [m ks]. cbn [use_centVec bind].
    destruct (Nat.leb_spec nModules (S nModules - 1)) as [_|Hlt]; [reflexivity|lia].
Qed.

Lemma gateway_too_many_networks_raises_witness :
  snd (gateway_coefficient_sign gateway_input [1; 2] 3 node_strength)
  = Raise IndexError.
Proof.
  apply (@gateway_too_many_networks_raises float binary64 gateway_input [1; 2] 3).
  - reflexivity.
  - discriminate.
  - simpl. lia.
Defined.
